(** * Location-update reconciliation core of the AU Journey web client

    Shallow embedding of
    - [src/services/WebSocketGPSService.js]  (the channel client and the
      validator functions),
    - [src/components/TramMovement.js]       (the position reconciler),
    - [src/components/TramTracker.js]        (the display tracker),
    followed by the properties of the natural-language specification.

    Conventions of the embedding.
    - A JavaScript number is [JS.number]: NaN, the two infinities, or a
      finite value kept as a reduced rational.  Addition, subtraction,
      multiplication and division round their exact result to binary64
      (to nearest, ties to even, overflowing to an infinity), and so do
      decimal literals and [parseFloat]; there is no negative zero.
      Comparisons, NaN and infinity propagation follow IEEE 754 as
      JavaScript exposes them.
    - [Math.sqrt] and [Math.atan2] are library functions outside the
      repository; the reconciler takes them as parameters.  [Math.PI] is the
      binary64 constant, which is a rational number.
    - Code that reads the clock, logs, starts or kills animations, calls
      subscriber callbacks or throws is written in the monad [M] below:
      state passing over an environment, with exceptions. *)

From Stdlib Require Import ZArith QArith Qabs Qminmax Qreduction Qround Qpower.
From Stdlib Require Import Bool List.
From Stdlib Require Import String Ascii Lia Lqa.
Import ListNotations.

Set Implicit Arguments.
Local Open Scope Q_scope.

(* ===================================================================== *)
(** ** JavaScript numbers *)
(* ===================================================================== *)

Module JS.

Inductive number : Type :=
| NaN
| PosInf
| NegInf
| Fin (q : Q).

Definition num (q : Q) : number := Fin (Qred q).

Definition Qltb (a b : Q) : bool := negb (Qle_bool b a).

Definition isNaN (x : number) : bool :=
  match x with NaN => true | _ => false end.

(* --------------------------------------------------------------------- *)
(** *** Rounding to binary64 *)

Definition pow2 (k : Z) : Q := 2 ^ k.

(** the exponent of a positive rational: [2^e <= a < 2^(e+1)] *)
Definition ilog2 (a : Q) : Z :=
  let k := (Z.log2 (Qnum a) - Z.log2 (Zpos (Qden a)))%Z in
  if Qle_bool (pow2 k) a then k else (k - 1)%Z.

(** the nearest integer, a tie going to the even one *)
Definition rne (m : Q) : Z :=
  let f := Qfloor m in
  match Qcompare (m - inject_Z f) (1 # 2) with
  | Lt => f
  | Gt => (f + 1)%Z
  | Eq => if Z.even f then f else (f + 1)%Z
  end.

(** the nearest multiple of the spacing of binary64 numbers around a
    positive [a]: 53 significant bits, exponents from -1022 (below that
    the spacing stays 2^-1074) *)
Definition nearest64 (a : Q) : Q :=
  let E := (Z.max (ilog2 a) (-1022) - 52)%Z in
  inject_Z (rne (a / pow2 E)) * pow2 E.

(** the binary64 number a real result is rounded to *)
Definition round64 (q : Q) : number :=
  let r := Qred q in
  match Qcompare r 0 with
  | Eq => Fin 0
  | Gt => let v := nearest64 r in
          if Qle_bool (pow2 1024) v then PosInf else Fin (Qred v)
  | Lt => let v := nearest64 (- r) in
          if Qle_bool (pow2 1024) v then NegInf else Fin (Qred (- v))
  end.

(** a decimal literal of the source, e.g. [0.000005] *)
Definition dec (q : Q) : number := round64 q.

Arguments pow2 : simpl never.
Arguments nearest64 : simpl never.
Arguments round64 : simpl never.
Arguments dec : simpl never.

Definition neg (x : number) : number :=
  match x with
  | NaN => NaN
  | PosInf => NegInf
  | NegInf => PosInf
  | Fin q => num (- q)
  end.

Definition add (x y : number) : number :=
  match x, y with
  | NaN, _ | _, NaN => NaN
  | PosInf, NegInf | NegInf, PosInf => NaN
  | PosInf, _ | _, PosInf => PosInf
  | NegInf, _ | _, NegInf => NegInf
  | Fin a, Fin b => round64 (a + b)
  end.

(** [x - y] *)
Definition sub (x y : number) : number := add x (neg y).

(** sign of a finite value: [Lt], [Eq] or [Gt] against zero *)
Definition Qsign (q : Q) : comparison := q ?= 0.

Definition inf_of_sign (positive : bool) : number :=
  if positive then PosInf else NegInf.

Definition mul (x y : number) : number :=
  match x, y with
  | NaN, _ | _, NaN => NaN
  | Fin a, Fin b => round64 (a * b)
  | PosInf, PosInf | NegInf, NegInf => PosInf
  | PosInf, NegInf | NegInf, PosInf => NegInf
  | PosInf, Fin q | Fin q, PosInf =>
      match Qsign q with Eq => NaN | Gt => PosInf | Lt => NegInf end
  | NegInf, Fin q | Fin q, NegInf =>
      match Qsign q with Eq => NaN | Gt => NegInf | Lt => PosInf end
  end.

(** [x / y]; a zero divisor is the positive zero *)
Definition div (x y : number) : number :=
  match x, y with
  | NaN, _ | _, NaN => NaN
  | Fin a, Fin b =>
      match Qsign b with
      | Eq => match Qsign a with Eq => NaN | Gt => PosInf | Lt => NegInf end
      | _ => round64 (a / b)
      end
  | Fin _, (PosInf | NegInf) => num 0
  | (PosInf | NegInf), (PosInf | NegInf) => NaN
  | PosInf, Fin b => match Qsign b with Lt => NegInf | _ => PosInf end
  | NegInf, Fin b => match Qsign b with Lt => PosInf | _ => NegInf end
  end.

(** [Math.abs] *)
Definition abs (x : number) : number :=
  match x with
  | NaN => NaN
  | PosInf | NegInf => PosInf
  | Fin q => num (Qabs q)
  end.

(** [x < y]: false as soon as one side is NaN *)
Definition lt (x y : number) : bool :=
  match x, y with
  | NaN, _ | _, NaN => false
  | _, NegInf => false
  | PosInf, _ => false
  | NegInf, _ => true
  | Fin _, PosInf => true
  | Fin a, Fin b => Qltb a b
  end.

(** [x <= y] *)
Definition le (x y : number) : bool :=
  match x, y with
  | NaN, _ | _, NaN => false
  | NegInf, _ => true
  | _, PosInf => true
  | PosInf, _ => false
  | Fin _, NegInf => false
  | Fin a, Fin b => Qle_bool a b
  end.

(** [x > y] and [x >= y] *)
Definition gt (x y : number) : bool := lt y x.
Definition ge (x y : number) : bool := le y x.

(** [Math.max(x, y)] and [Math.min(x, y)]: NaN if an argument is NaN *)
Definition max (x y : number) : number :=
  match x, y with
  | NaN, _ | _, NaN => NaN
  | _, _ => if lt x y then y else x
  end.

Definition min (x y : number) : number :=
  match x, y with
  | NaN, _ | _, NaN => NaN
  | _, _ => if lt y x then y else x
  end.

(** [Math.PI]: the binary64 value 884279719003555 / 2^48 *)
Definition PI : Q := 884279719003555 # 281474976710656.
Definition Math_PI : number := num PI.

(** ToBoolean on a number *)
Definition truthy_number (x : number) : bool :=
  match x with
  | NaN => false
  | Fin q => negb (Qeq_bool q 0)
  | _ => true
  end.

(* --------------------------------------------------------------------- *)
(** *** Values *)

(** The values a transport message is built from.  Strings hold code
    points below 256; arrays are left out. *)
#[warnings="-register-all"]
Inductive value : Type :=
| Undefined
| Null
| Bool (b : bool)
| Number (n : number)
| Str (s : string)
| Object (fields : list (string * value)).

(** ToBoolean *)
Definition truthy (v : value) : bool :=
  match v with
  | Undefined | Null => false
  | Bool b => b
  | Number n => truthy_number n
  | Str s => negb (String.eqb s EmptyString)
  | Object _ => true
  end.

Fixpoint assoc (k : string) (fs : list (string * value)) : option value :=
  match fs with
  | [] => None
  | (k', v) :: rest => if String.eqb k k' then Some v else assoc k rest
  end.

(** [v.k] on a value that is neither [undefined] nor [null]: own data
    properties of objects; primitives have none of the fields read here. *)
Definition field (v : value) (k : string) : value :=
  match v with
  | Object fs => match assoc k fs with Some x => x | None => Undefined end
  | _ => Undefined
  end.

(** [typeof v === 'number'] *)
Definition is_number (v : value) : bool :=
  match v with Number _ => true | _ => false end.

(* --------------------------------------------------------------------- *)
(** *** parseFloat *)

Definition is_digit (c : ascii) : bool :=
  let n := nat_of_ascii c in ((48 <=? n) && (n <=? 57))%nat.

Definition digit_val (c : ascii) : Z := Z.of_nat (nat_of_ascii c - 48).

(** WhiteSpace and LineTerminator code points below 256 *)
Definition is_space (c : ascii) : bool :=
  let n := nat_of_ascii c in
  ((n =? 9) || (n =? 10) || (n =? 11) || (n =? 12) || (n =? 13) || (n =? 32)
   || (n =? 160))%nat.

Fixpoint trim_start (s : list ascii) : list ascii :=
  match s with
  | c :: rest => if is_space c then trim_start rest else s
  | [] => []
  end.

(** longest run of decimal digits at the head: its value read after the
    accumulator, its length, and what follows *)
Fixpoint digits (acc : Z) (len : nat) (s : list ascii) : Z * nat * list ascii :=
  match s with
  | c :: rest =>
      if is_digit c then digits (10 * acc + digit_val c)%Z (S len) rest
      else (acc, len, s)
  | [] => (acc, len, [])
  end.

Fixpoint starts_with (p s : list ascii) : bool :=
  match p, s with
  | [], _ => true
  | a :: p', b :: s' => Ascii.eqb a b && starts_with p' s'
  | _ :: _, [] => false
  end.

(** ExponentPart at the head, if a complete one is there; 0 otherwise *)
Definition exponent (s : list ascii) : Z :=
  match s with
  | c :: rest =>
      if Ascii.eqb c "e" || Ascii.eqb c "E" then
        let '(negative, body) :=
          match rest with
          | s0 :: r =>
              if Ascii.eqb s0 "-" then (true, r)
              else if Ascii.eqb s0 "+" then (false, r)
              else (false, rest)
          | [] => (false, rest)
          end in
        let '(e, n, _) := digits 0 0 body in
        match n with
        | O => 0%Z
        | _ => if negative then (- e)%Z else e
        end
      else 0%Z
  | [] => 0%Z
  end.

(** [m * 10^e] *)
Definition scale10 (m e : Z) : Q :=
  match e with
  | Z0 => inject_Z m
  | Zpos p => inject_Z (m * 10 ^ Zpos p)
  | Zneg p => m # (10 ^ p)
  end.

(** StrUnsignedDecimalLiteral: the longest prefix that is one *)
Definition unsigned_literal (s : list ascii) : number :=
  if starts_with (list_ascii_of_string "Infinity") s then PosInf
  else
    let '(i, ni, after_int) := digits 0 0 s in
    let '(m, nf, after_frac) :=
      match after_int with
      | c :: rest =>
          if Ascii.eqb c "." then
            let '(m, nf, r) := digits i 0 rest in
            match ni, nf with
            | O, O => (i, O, after_int)
            | _, _ => (m, nf, r)
            end
          else (i, O, after_int)
      | [] => (i, O, after_int)
      end in
    match ni, nf with
    | O, O => NaN
    | _, _ => round64 (scale10 m (exponent after_frac - Z.of_nat nf))
    end.

Definition parseFloat_string (s : string) : number :=
  match trim_start (list_ascii_of_string s) with
  | c :: rest =>
      if Ascii.eqb c "-" then neg (unsigned_literal rest)
      else if Ascii.eqb c "+" then unsigned_literal rest
      else unsigned_literal (c :: rest)
  | [] => NaN
  end.

(** ToString and ToNumber of an object call its [toString].  An object
    that arrived as JSON and has a member of that name has no [toString]
    it can call (no JSON value is a function), and the conversion throws a
    TypeError; every other object prints as the text [[object Object]]. *)
Definition unprintable (v : value) : bool :=
  match v with
  | Object fs =>
      match assoc "toString" fs with Some _ => true | None => false end
  | _ => false
  end.

(** [parseFloat(v)] where it returns: the argument goes through ToString
    first; the strings of [undefined], [null], booleans and objects hold no
    literal, and a number prints to a literal that reads back as itself.
    On an [unprintable] object the call throws instead; the callers below
    raise that error before they use this value. *)
Definition parseFloat (v : value) : number :=
  match v with
  | Str s => parseFloat_string s
  | Number n => n
  | _ => NaN
  end.

End JS.

(* ===================================================================== *)
(** ** The host environment and the effect monad *)
(* ===================================================================== *)

Module Eff.
Import JS.

Inductive level : Type := Log | Warn | Error.

(** one console line: its level and its fixed leading text *)
Record entry : Type := Entry { lvl : level; text : string }.

(** What the browser provides and the repository does not define: the
    clock (the n-th reading of it), [Date.parse] on strings, the functions
    of [Math], and whether the page is served from localhost. *)
Record Host : Type := {
  clock : nat -> Z;
  Date_parse : string -> number;
  Math_sqrt : number -> number;
  Math_atan2 : number -> number -> number;
  Math_sin : number -> number;
  Math_cos : number -> number;
  on_localhost : bool
}.

Record Env : Type := {
  host : Host;
  ticks : nat;               (* clock readings taken so far *)
  console : list entry       (* oldest line first *)
}.

(** [Date.now()], also the time value of [new Date()] *)
Definition Date_now (e : Env) : Env * Z :=
  ({| host := host e; ticks := S (ticks e); console := console e |},
   clock (host e) (ticks e)).

Definition console_write (l : level) (s : string) (e : Env) : Env :=
  {| host := host e; ticks := ticks e;
     console := console e ++ [Entry l s] |}.

Inductive exn : Type :=
| TypeError (what : string)
| Raised (v : value).

Inductive result (A : Type) : Type :=
| Ok (a : A)
| Throw (x : exn).
Arguments Ok {A} a.
Arguments Throw {A} x.

(** state passing over [S], with exceptions *)
Definition M (S A : Type) : Type := S -> S * result A.

Definition ret {S A} (a : A) : M S A := fun s => (s, Ok a).

Definition bind {S A B} (c : M S A) (k : A -> M S B) : M S B :=
  fun s =>
    match c s with
    | (s', Ok a) => k a s'
    | (s', Throw x) => (s', Throw x)
    end.

Definition throw {S A} (x : exn) : M S A := fun s => (s, Throw x).

(** [try { body } catch (error) { handler(error) }] *)
Definition try_catch {S A} (body : M S A) (handler : exn -> M S A) : M S A :=
  fun s =>
    match body s with
    | (s', Ok a) => (s', Ok a)
    | (s', Throw x) => handler x s'
    end.

Definition get {S} : M S S := fun s => (s, Ok s).
Definition gets {S A} (f : S -> A) : M S A := fun s => (s, Ok (f s)).
Definition modify {S} (f : S -> S) : M S unit := fun s => (f s, Ok tt).

Definition when {S} (b : bool) (c : M S unit) : M S unit :=
  if b then c else ret tt.

(** a subscriber: a function of the payload that acts on state [W] of its
    own (it does not call back into the object that notifies it) and
    returns or throws *)
Definition callback (W A : Type) : Type := A -> M W unit.

(** [xs.forEach(f)]: in order; an exception leaves the loop *)
Fixpoint forEach {S A} (xs : list A) (f : A -> M S unit) : M S unit :=
  match xs with
  | [] => ret tt
  | x :: rest => bind (f x) (fun _ => forEach rest f)
  end.

End Eff.

Declare Scope js_scope.
Delimit Scope js_scope with js.
Notation "x <- c ;; k" := (Eff.bind c (fun x => k))
  (at level 61, c at next level, right associativity) : js_scope.
Notation "c ;; k" := (Eff.bind c (fun _ => k))
  (at level 61, right associativity) : js_scope.

(* ===================================================================== *)
(** ** UpdateValidator: the pure checks of WebSocketGPSService.js *)
(* ===================================================================== *)

Module Validator.
Import JS Eff.

(** the [timestamp] field of a point: a value as the server sent it, or
    the string [new Date(ms).toISOString()] *)
Inductive Timestamp : Type :=
| TsValue (v : value)
| TsISO (ms : Z).

(** a stored point [{ lat, lon, timestamp }] *)
Record GPS : Type := mkGPS {
  lat : number;
  lon : number;
  timestamp : Timestamp
}.

(** [!timestamp] *)
Definition ts_falsy (t : Timestamp) : bool :=
  match t with
  | TsValue v => negb (truthy v)
  | TsISO _ => false
  end.

(** TimeClip(ToIntegerOrInfinity(n)) *)
Definition time_clip (n : number) : number :=
  match n with
  | Fin q =>
      let t := (Qnum q ÷ Zpos (Qden q))%Z in
      if (Z.abs t <=? 8640000000000000)%Z then num (inject_Z t) else NaN
  | _ => NaN
  end.

(** the time value of [new Date(timestamp)] *)
Definition Date_time (h : Host) (t : Timestamp) : number :=
  match t with
  | TsISO ms => num (inject_Z ms)
  | TsValue (Number n) => time_clip n
  | TsValue (Str s) => Date_parse h s
  | TsValue (Bool b) => num (if b then 1 else 0)
  | TsValue Null => num 0
  | TsValue Undefined => NaN
  | TsValue (Object _) => NaN
  end.

(** [typeof v === 'number' ? v : parseFloat(v)] *)
Definition coordinate (v : value) : number :=
  if is_number v then match v with Number n => n | _ => NaN end
  else parseFloat v.

(** WebSocketGPSService.js:321 *)
Definition isValidGPSData (data : value) : bool :=
  if negb (truthy data) then false
  else
    let lat := coordinate (field data "lat") in
    let lon := coordinate (field data "lon") in
    negb (isNaN lat) && negb (isNaN lon) &&
    ge lat (num (-90)) && le lat (num 90) &&
    ge lon (num (-180)) && le lon (num 180).

(** WebSocketGPSService.js:372.  The class body declares [isGPSDataStale]
    twice (lines 215 and 372); the later declaration is the method. *)
Definition isGPSDataStale_with (t : Timestamp) (maxAgeMs : number)
  (e : Env) : Env * bool :=
  if ts_falsy t then (e, true)
  else
    let '(e1, now) := Date_now e in
    let gpsTime := Date_time (host e) t in
    let age := sub (num (inject_Z now)) gpsTime in
    (e1, gt age maxAgeMs).

Definition isGPSDataStale (t : Timestamp) : Env -> Env * bool :=
  isGPSDataStale_with t (num 60000).

(** WebSocketGPSService.js:383.  [hasGPSChanged] is declared twice as well
    (lines 205 and 383); the later declaration, with tolerance 0.000005,
    is the method. *)
Definition tolerance : number := Eval vm_compute in dec (5 # 1000000).

Definition hasGPSChanged (current previous : option GPS) : bool :=
  match current, previous with
  | Some c, Some p =>
      let latDiff := abs (sub (lat c) (lat p)) in
      let lonDiff := abs (sub (lon c) (lon p)) in
      gt latDiff tolerance || gt lonDiff tolerance
  | _, _ => true
  end.

End Validator.

(** the payload handed to update subscribers, and what [getBothGPSPoints]
    returns: [{ current, previous, status, source, timestamp }] *)
Module Wire.
Import JS Validator.

Record LocationUpdate : Type := mkUpdate {
  current : option GPS;
  previous : option GPS;
  status : value;
  source : string;
  timestamp : Z
}.

End Wire.

(* ===================================================================== *)
(** ** The animation engine at its boundary (gsap timelines) *)
(* ===================================================================== *)

Module Gsap.
Import JS.

Record Vec3 : Type := mkVec3 { x : number; y : number; z : number }.

(** the two calls of [tl.to] in TramMovement.js *)
Inductive tween : Type :=
| RotateTo (duration : number) (y : number) (ease : string)
| MoveTo (duration : number) (dest : Vec3) (ease : string)
         (marks_stationary_on_complete : bool).

(** the animations that are alive (created and not killed), oldest first:
    timelines, each with the tweens queued on it, and tweens started on
    their own *)
Record engine : Type := {
  next : nat;
  live : list (nat * list tween)
}.

Definition empty : engine := {| next := 0; live := [] |}.

(** [gsap.timeline()] *)
Definition timeline (g : engine) : engine * nat :=
  ({| next := S (next g); live := live g ++ [(next g, [])] |}, next g).

(** [tl.to(target, vars)] *)
Definition to (tl : nat) (t : tween) (g : engine) : engine :=
  {| next := next g;
     live := map (fun p => if Nat.eqb (fst p) tl then (fst p, snd p ++ [t])
                           else p) (live g) |}.

(** [gsap.to(target, vars)]: a tween started on its own, outside every
    timeline; the engine runs it under a name of its own, like a timeline
    of one step *)
Definition gsap_to (t : tween) (g : engine) : engine :=
  {| next := S (next g); live := live g ++ [(next g, [t])] |}.

(** [tl.kill()] *)
Definition kill (tl : nat) (g : engine) : engine :=
  {| next := next g;
     live := filter (fun p => negb (Nat.eqb (fst p) tl)) (live g) |}.

Definition running (tl : nat) (g : engine) : bool :=
  existsb (fun p => Nat.eqb (fst p) tl) (live g).

Definition steps (tl : nat) (g : engine) : option (list tween) :=
  option_map snd (find (fun p => Nat.eqb (fst p) tl) (live g)).

End Gsap.

(* ===================================================================== *)
(** ** PositionReconciler: TramMovement.js *)
(* ===================================================================== *)

Module Movement.
Import JS Eff Validator Gsap.
Local Open Scope js_scope.

(** the rendered object: [tram.position] and [tram.rotation.y] *)
Record Tram : Type := mkTram {
  position : Vec3;
  rotation_y : number
}.

Record State : Type := mkState {
  tram : option Tram;
  isMoving : bool;
  baseHeight : number;
  currentTween : option nat;
  tramSpeed : number;
  rotationSpeed : number;
  currentGPS : option GPS;
  previousGPS : option GPS;
  lastUpdateTime : Z;
  centerLat : number;
  centerLon : number;
  scale : number;
  isRealTimeMode : bool;
  lastKnownPosition : option Vec3;
  lastStaleWarning : Z;
  lastConnectionLoss : option Z
}.

Definition set_tram v (s : State) : State :=
  mkState v (isMoving s) (baseHeight s) (currentTween s) (tramSpeed s)
    (rotationSpeed s) (currentGPS s) (previousGPS s) (lastUpdateTime s)
    (centerLat s) (centerLon s) (scale s) (isRealTimeMode s)
    (lastKnownPosition s) (lastStaleWarning s) (lastConnectionLoss s).

Definition set_isMoving v (s : State) : State :=
  mkState (tram s) v (baseHeight s) (currentTween s) (tramSpeed s)
    (rotationSpeed s) (currentGPS s) (previousGPS s) (lastUpdateTime s)
    (centerLat s) (centerLon s) (scale s) (isRealTimeMode s)
    (lastKnownPosition s) (lastStaleWarning s) (lastConnectionLoss s).

Definition set_currentTween v (s : State) : State :=
  mkState (tram s) (isMoving s) (baseHeight s) v (tramSpeed s)
    (rotationSpeed s) (currentGPS s) (previousGPS s) (lastUpdateTime s)
    (centerLat s) (centerLon s) (scale s) (isRealTimeMode s)
    (lastKnownPosition s) (lastStaleWarning s) (lastConnectionLoss s).

Definition set_tramSpeed v (s : State) : State :=
  mkState (tram s) (isMoving s) (baseHeight s) (currentTween s) v
    (rotationSpeed s) (currentGPS s) (previousGPS s) (lastUpdateTime s)
    (centerLat s) (centerLon s) (scale s) (isRealTimeMode s)
    (lastKnownPosition s) (lastStaleWarning s) (lastConnectionLoss s).

Definition set_currentGPS v (s : State) : State :=
  mkState (tram s) (isMoving s) (baseHeight s) (currentTween s) (tramSpeed s)
    (rotationSpeed s) v (previousGPS s) (lastUpdateTime s)
    (centerLat s) (centerLon s) (scale s) (isRealTimeMode s)
    (lastKnownPosition s) (lastStaleWarning s) (lastConnectionLoss s).

Definition set_previousGPS v (s : State) : State :=
  mkState (tram s) (isMoving s) (baseHeight s) (currentTween s) (tramSpeed s)
    (rotationSpeed s) (currentGPS s) v (lastUpdateTime s)
    (centerLat s) (centerLon s) (scale s) (isRealTimeMode s)
    (lastKnownPosition s) (lastStaleWarning s) (lastConnectionLoss s).

Definition set_lastUpdateTime v (s : State) : State :=
  mkState (tram s) (isMoving s) (baseHeight s) (currentTween s) (tramSpeed s)
    (rotationSpeed s) (currentGPS s) (previousGPS s) v
    (centerLat s) (centerLon s) (scale s) (isRealTimeMode s)
    (lastKnownPosition s) (lastStaleWarning s) (lastConnectionLoss s).

Definition set_isRealTimeMode v (s : State) : State :=
  mkState (tram s) (isMoving s) (baseHeight s) (currentTween s) (tramSpeed s)
    (rotationSpeed s) (currentGPS s) (previousGPS s) (lastUpdateTime s)
    (centerLat s) (centerLon s) (scale s) v
    (lastKnownPosition s) (lastStaleWarning s) (lastConnectionLoss s).

Definition set_lastKnownPosition v (s : State) : State :=
  mkState (tram s) (isMoving s) (baseHeight s) (currentTween s) (tramSpeed s)
    (rotationSpeed s) (currentGPS s) (previousGPS s) (lastUpdateTime s)
    (centerLat s) (centerLon s) (scale s) (isRealTimeMode s)
    v (lastStaleWarning s) (lastConnectionLoss s).

Definition set_lastStaleWarning v (s : State) : State :=
  mkState (tram s) (isMoving s) (baseHeight s) (currentTween s) (tramSpeed s)
    (rotationSpeed s) (currentGPS s) (previousGPS s) (lastUpdateTime s)
    (centerLat s) (centerLon s) (scale s) (isRealTimeMode s)
    (lastKnownPosition s) v (lastConnectionLoss s).

Definition set_lastConnectionLoss v (s : State) : State :=
  mkState (tram s) (isMoving s) (baseHeight s) (currentTween s) (tramSpeed s)
    (rotationSpeed s) (currentGPS s) (previousGPS s) (lastUpdateTime s)
    (centerLat s) (centerLon s) (scale s) (isRealTimeMode s)
    (lastKnownPosition s) (lastStaleWarning s) v.

(** the reconciler together with what it acts on *)
Record Sys : Type := mkSys {
  env : Env;
  gsap : engine;
  this : State
}.

Definition liftE {A} (f : Env -> Env * A) : M Sys A :=
  fun s => let '(e, a) := f (env s) in (mkSys e (gsap s) (this s), Ok a).

Definition console_log (msg : string) : M Sys unit :=
  modify (fun s => mkSys (console_write Log msg (env s)) (gsap s) (this s)).
Definition console_warn (msg : string) : M Sys unit :=
  modify (fun s => mkSys (console_write Warn msg (env s)) (gsap s) (this s)).
Definition console_error (msg : string) : M Sys unit :=
  modify (fun s => mkSys (console_write Error msg (env s)) (gsap s) (this s)).

Definition update (f : State -> State) : M Sys unit :=
  modify (fun s => mkSys (env s) (gsap s) (f (this s))).
Definition read {A} (f : State -> A) : M Sys A := gets (fun s => f (this s)).
Definition the_host : M Sys Host := gets (fun s => host (env s)).
Definition animate (f : engine -> engine) : M Sys unit :=
  modify (fun s => mkSys (env s) (f (gsap s)) (this s)).
Definition new_timeline : M Sys nat :=
  fun s => let '(g, tl) := timeline (gsap s) in
           (mkSys (env s) g (this s), Ok tl).

(** the decimal literals of the constructor (13.612565, 100.836516 and
    -0.3) and of line 255 (0.05), as binary64 numbers *)
Definition default_centerLat : number :=
  Eval vm_compute in dec (13612565 # 1000000).
Definition default_centerLon : number :=
  Eval vm_compute in dec (100836516 # 1000000).
Definition initial_baseHeight : number := Eval vm_compute in dec (-3 # 10).
Definition min_turn : number := Eval vm_compute in dec (1 # 20).

(** the constructor (lines 7-52), without the subscription it starts;
    [gpsPoints] is the static route, if one is given *)
Definition init (tram : option Tram) (gpsPoints : option (list GPS)) : State :=
  let '(cLat, cLon) :=
    match gpsPoints with
    | Some (firstPoint :: rest) =>
        let lastPoint := last rest firstPoint in
        (div (add (lat firstPoint) (lat lastPoint)) (num 2),
         div (add (lon firstPoint) (lon lastPoint)) (num 2))
    | _ => (default_centerLat, default_centerLon)
    end in
  {| tram := tram; isMoving := false; baseHeight := initial_baseHeight;
     currentTween := None; tramSpeed := num 10; rotationSpeed := num 1;
     currentGPS := None; previousGPS := None; lastUpdateTime := 0%Z;
     centerLat := cLat; centerLon := cLon; scale := num 100000;
     isRealTimeMode := true; lastKnownPosition := None;
     lastStaleWarning := 0%Z; lastConnectionLoss := None |}.

(** line 55 *)
Definition calculatePosition (s : State) (lat lon : number) : Vec3 :=
  {| x := mul (sub lat (centerLat s)) (scale s);
     y := baseHeight s;
     z := mul (sub lon (centerLon s)) (scale s) |}.

(** line 280 *)
Definition stopTramMovement : M Sys unit :=
  tw <- read currentTween ;;
  match tw with
  | Some tl => animate (kill tl) ;; update (set_currentTween None)
  | None => ret tt
  end ;;
  update (set_isMoving false).

(** line 193 *)
Definition positionTramImmediately (lat lon : number) : M Sys unit :=
  tr <- read tram ;;
  match tr with
  | None => ret tt
  | Some t =>
      s <- read (fun s => s) ;;
      let position := calculatePosition s lat lon in
      update (set_tram (Some (mkTram position (rotation_y t)))) ;;
      update (set_lastKnownPosition (Some position)) ;;
      console_log "Tram positioned immediately at:"
  end.

(** the wrapping of lines 248-252 *)
Definition wrap_rotation (rotationDiff : number) : number :=
  let d1 := if gt rotationDiff Math_PI
            then sub rotationDiff (mul (num 2) Math_PI) else rotationDiff in
  if lt d1 (neg Math_PI) then add d1 (mul (num 2) Math_PI) else d1.

(** line 212 *)
Definition updateTramPosition : M Sys unit :=
  s <- read (fun s => s) ;;
  match tram s, currentGPS s, previousGPS s with
  | Some t, Some cur, Some prev =>
      h <- the_host ;;
      let currentPosition := calculatePosition s (lat cur) (lon cur) in
      let previousPosition := calculatePosition s (lat prev) (lon prev) in
      update (set_lastKnownPosition (Some currentPosition)) ;;
      let dx := sub (x currentPosition) (x previousPosition) in
      let dz := sub (z currentPosition) (z previousPosition) in
      let distance := Math_sqrt h (add (mul dx dx) (mul dz dz)) in
      if lt distance (num (1 # 2)) then ret tt
      else
        match currentTween s with
        | Some old => animate (kill old)
        | None => ret tt
        end ;;
        let duration := max (num 1) (div distance (tramSpeed s)) in
        let modelForwardOffset := div (neg Math_PI) (num 2) in
        let targetRotation := add (Math_atan2 h dx dz) modelForwardOffset in
        tl <- new_timeline ;;
        let currentRotation := rotation_y t in
        let rotationDiff := wrap_rotation (sub targetRotation currentRotation) in
        when (gt (abs rotationDiff) min_turn)
          (let rotationDuration :=
             min (num 1) (div (abs rotationDiff) (rotationSpeed s)) in
           animate (to tl (RotateTo rotationDuration
                             (add currentRotation rotationDiff)
                             "power2.inOut"))) ;;
        animate (to tl (MoveTo duration currentPosition "none" true)) ;;
        update (set_currentTween (Some tl)) ;;
        update (set_isMoving true)
  | _, _, _ => ret tt
  end.

(** line 128 *)
Definition processGPSData (gpsData : Wire.LocationUpdate) : M Sys unit :=
  match Wire.current gpsData with
  | Some cur =>
      isStale <- liftE (isGPSDataStale (timestamp cur)) ;;
      if isStale then
        lastWarn <- read lastStaleWarning ;;
        due <- (if (lastWarn =? 0)%Z then ret true
                else now <- liftE Date_now ;;
                     ret (now - lastWarn >? 30000)%Z) ;;
        when due
          (console_warn "GPS data is stale - keeping tram stationary" ;;
           now <- liftE Date_now ;;
           update (set_lastStaleWarning now)) ;;
        stopTramMovement
      else
        mine <- read currentGPS ;;
        match mine with
        | None =>
            console_log "Initial tram positioning from GPS:" ;;
            update (set_currentGPS (Some cur)) ;;
            update (set_previousGPS
                      (match Wire.previous gpsData with
                       | Some p => Some p
                       | None => Some cur
                       end)) ;;
            positionTramImmediately (lat cur) (lon cur) ;;
            now <- liftE Date_now ;;
            update (set_lastUpdateTime now)
        | Some held =>
            let hasChanged := hasGPSChanged (Some cur) (Some held) in
            if negb hasChanged then stopTramMovement
            else
              update (set_previousGPS (Some held)) ;;
              update (set_currentGPS (Some cur)) ;;
              updateTramPosition ;;
              now <- liftE Date_now ;;
              update (set_lastUpdateTime now) ;;
              h <- the_host ;;
              when (on_localhost h) (console_log "Tram moving to:")
        end
  | None =>
      console_warn "No current GPS data - keeping tram stationary" ;;
      stopTramMovement
  end.

(** line 104 *)
Definition handleGPSUpdate (gpsData : Wire.LocationUpdate) : M Sys unit :=
  try_catch
    (match Wire.current gpsData with
     | Some _ => processGPSData gpsData
     | None =>
         console_warn "No current GPS data in WebSocket update" ;;
         stopTramMovement
     end)
    (fun _ =>
       console_error "Failed to handle GPS update:" ;;
       stopTramMovement).

(** line 299 *)
Definition handleConnectionLoss : M Sys unit :=
  console_warn "WebSocket connection lost, maintaining last known position..." ;;
  stopTramMovement ;;
  now <- liftE Date_now ;;
  update (set_lastConnectionLoss (Some now)).

(** running a method on a system: the system it leaves *)
Definition exec {A} (c : M Sys A) (s : Sys) : Sys := fst (c s).

End Movement.

(* ===================================================================== *)
(** ** The display tracker: TramTracker.js, class TramTracker *)
(* ===================================================================== *)

Module Tracker.
Import JS Eff.
Local Open Scope js_scope.

Inductive Status : Type := Stopped | Running.

Definition Status_eqb (a b : Status) : bool :=
  match a, b with
  | Stopped, Stopped | Running, Running => true
  | _, _ => false
  end.

Record Location : Type := mkLocation {
  lat : number;
  lon : number;
  timestamp : Z
}.

Record Building : Type := mkBuilding {
  id : string;
  name : string;
  b_lat : number;
  b_lon : number;
  radius : number;
  stopIndex : nat
}.

(** the argument of a status-change callback *)
Record StatusChange : Type := mkStatusChange {
  oldStatus : option Status;
  newStatus : Status;
  location : option Location;
  sc_timestamp : Z
}.

(** what [getTrackingInfo] returns *)
Record TrackingInfo : Type := mkInfo {
  i_status : Status;
  i_isMoving : bool;
  i_currentLocation : option Location;
  i_lastPassedBuilding : option Building;
  i_timestamp : Z;
  locationHistoryLength : nat;
  timeSinceLastMovement : Z
}.

Section WithSubscribers.
Variable W : Type.

Record State : Type := mkState {
  currentStatus : Status;
  currentLocation : option Location;
  lastLocation : option Location;
  isMoving : bool;
  lastPassedBuilding : option Building;
  movementThreshold : number;
  stoppedDuration : Z;
  locationHistory : list Location;
  maxHistoryLength : nat;
  lastUpdateTime : Z;
  lastMovementTime : Z;
  buildings : list Building;
  statusChangeCallbacks : list (callback W StatusChange);
  lastNotifiedStatus : option Status
}.

Definition set_currentStatus v (s : State) : State :=
  mkState v (currentLocation s) (lastLocation s) (isMoving s)
    (lastPassedBuilding s) (movementThreshold s) (stoppedDuration s)
    (locationHistory s) (maxHistoryLength s) (lastUpdateTime s)
    (lastMovementTime s) (buildings s) (statusChangeCallbacks s)
    (lastNotifiedStatus s).

Definition set_currentLocation v (s : State) : State :=
  mkState (currentStatus s) v (lastLocation s) (isMoving s)
    (lastPassedBuilding s) (movementThreshold s) (stoppedDuration s)
    (locationHistory s) (maxHistoryLength s) (lastUpdateTime s)
    (lastMovementTime s) (buildings s) (statusChangeCallbacks s)
    (lastNotifiedStatus s).

Definition set_lastLocation v (s : State) : State :=
  mkState (currentStatus s) (currentLocation s) v (isMoving s)
    (lastPassedBuilding s) (movementThreshold s) (stoppedDuration s)
    (locationHistory s) (maxHistoryLength s) (lastUpdateTime s)
    (lastMovementTime s) (buildings s) (statusChangeCallbacks s)
    (lastNotifiedStatus s).

Definition set_isMoving v (s : State) : State :=
  mkState (currentStatus s) (currentLocation s) (lastLocation s) v
    (lastPassedBuilding s) (movementThreshold s) (stoppedDuration s)
    (locationHistory s) (maxHistoryLength s) (lastUpdateTime s)
    (lastMovementTime s) (buildings s) (statusChangeCallbacks s)
    (lastNotifiedStatus s).

Definition set_lastPassedBuilding v (s : State) : State :=
  mkState (currentStatus s) (currentLocation s) (lastLocation s)
    (isMoving s) v (movementThreshold s) (stoppedDuration s)
    (locationHistory s) (maxHistoryLength s) (lastUpdateTime s)
    (lastMovementTime s) (buildings s) (statusChangeCallbacks s)
    (lastNotifiedStatus s).

Definition set_locationHistory v (s : State) : State :=
  mkState (currentStatus s) (currentLocation s) (lastLocation s)
    (isMoving s) (lastPassedBuilding s) (movementThreshold s)
    (stoppedDuration s) v (maxHistoryLength s) (lastUpdateTime s)
    (lastMovementTime s) (buildings s) (statusChangeCallbacks s)
    (lastNotifiedStatus s).

Definition set_lastUpdateTime v (s : State) : State :=
  mkState (currentStatus s) (currentLocation s) (lastLocation s)
    (isMoving s) (lastPassedBuilding s) (movementThreshold s)
    (stoppedDuration s) (locationHistory s) (maxHistoryLength s) v
    (lastMovementTime s) (buildings s) (statusChangeCallbacks s)
    (lastNotifiedStatus s).

Definition set_lastMovementTime v (s : State) : State :=
  mkState (currentStatus s) (currentLocation s) (lastLocation s)
    (isMoving s) (lastPassedBuilding s) (movementThreshold s)
    (stoppedDuration s) (locationHistory s) (maxHistoryLength s)
    (lastUpdateTime s) v (buildings s) (statusChangeCallbacks s)
    (lastNotifiedStatus s).

Definition set_statusChangeCallbacks v (s : State) : State :=
  mkState (currentStatus s) (currentLocation s) (lastLocation s)
    (isMoving s) (lastPassedBuilding s) (movementThreshold s)
    (stoppedDuration s) (locationHistory s) (maxHistoryLength s)
    (lastUpdateTime s) (lastMovementTime s) (buildings s) v
    (lastNotifiedStatus s).

Definition set_lastNotifiedStatus v (s : State) : State :=
  mkState (currentStatus s) (currentLocation s) (lastLocation s)
    (isMoving s) (lastPassedBuilding s) (movementThreshold s)
    (stoppedDuration s) (locationHistory s) (maxHistoryLength s)
    (lastUpdateTime s) (lastMovementTime s) (buildings s)
    (statusChangeCallbacks s) v.

Record Sys : Type := mkSys {
  env : Env;
  subs : W;
  this : State
}.

Definition liftE {A} (f : Env -> Env * A) : M Sys A :=
  fun s => let '(e, a) := f (env s) in (mkSys e (subs s) (this s), Ok a).
Definition update (f : State -> State) : M Sys unit :=
  modify (fun s => mkSys (env s) (subs s) (f (this s))).
Definition read {A} (f : State -> A) : M Sys A := gets (fun s => f (this s)).
Definition the_host : M Sys Host := gets (fun s => host (env s)).

(** calling a subscriber *)
Definition call {A} (cb : callback W A) (a : A) : M Sys unit :=
  fun s => let '(w, r) := cb a (subs s) in (mkSys (env s) w (this s), r).

Definition the_buildings : list Building :=
  Eval vm_compute in
  [ mkBuilding "msm_building" "MSM Building"
      (dec (13612565 # 1000000)) (dec (100836516 # 1000000)) (dec (5 # 10000)) 0;
    mkBuilding "it_building" "IT Building"
      (dec (13612177 # 1000000)) (dec (100836425 # 1000000)) (dec (5 # 10000)) 1;
    mkBuilding "au_mall" "AU Mall"
      (dec (13612764 # 1000000)) (dec (100833440 # 1000000)) (dec (5 # 10000)) 2;
    mkBuilding "queen_of_sheba" "Queen of Sheba"
      (dec (13614219 # 1000000)) (dec (100832132 # 1000000)) (dec (5 # 10000)) 3 ].

(** the literal 0.00001 of line 13 *)
Definition initial_movementThreshold : number :=
  Eval vm_compute in dec (1 # 100000).

(** the constructor (lines 4-64); it reads the clock twice *)
Definition init (t1 t2 : Z) : State :=
  {| currentStatus := Stopped; currentLocation := None; lastLocation := None;
     isMoving := false; lastPassedBuilding := None;
     movementThreshold := initial_movementThreshold;
     stoppedDuration := (30 * 60 * 1000)%Z;
     locationHistory := []; maxHistoryLength := 10;
     lastUpdateTime := t1; lastMovementTime := t2;
     buildings := the_buildings;
     statusChangeCallbacks := []; lastNotifiedStatus := None |}.

(** line 93 *)
Definition addToHistory (location : Location) : M Sys unit :=
  update (fun s => set_locationHistory (locationHistory s ++ [location]) s) ;;
  s <- read (fun s => s) ;;
  when (maxHistoryLength s <? List.length (locationHistory s))%nat
    (update (fun s => set_locationHistory (tl (locationHistory s)) s)).

(** line 211 *)
Definition degreesToRadians (degrees : number) : number :=
  mul degrees (div Math_PI (num 180)).

(** line 198 *)
Definition calculateDistance (h : Host) (lat1 lon1 lat2 lon2 : number) : number :=
  let R := num 6371000 in
  let dLat := degreesToRadians (sub lat2 lat1) in
  let dLon := degreesToRadians (sub lon2 lon1) in
  let a := add (mul (Math_sin h (div dLat (num 2))) (Math_sin h (div dLat (num 2))))
               (mul (mul (mul (Math_cos h (degreesToRadians lat1))
                              (Math_cos h (degreesToRadians lat2)))
                         (Math_sin h (div dLon (num 2))))
                    (Math_sin h (div dLon (num 2)))) in
  let c := mul (num 2) (Math_atan2 h (Math_sqrt h a) (Math_sqrt h (sub (num 1) a))) in
  mul R c.

(** line 101: the first building whose radius covers the position *)
Fixpoint detectBuilding_from (bs : list Building) (lat lon : number)
  : M Sys (option Building) :=
  match bs with
  | [] => ret None
  | building :: rest =>
      h <- the_host ;;
      let distance := calculateDistance h lat lon (b_lat building) (b_lon building) in
      if le distance (radius building) then
        passed <- read lastPassedBuilding ;;
        when (match passed with
              | None => true
              | Some b => negb (String.eqb (id building) (id b))
              end)
          (update (set_lastPassedBuilding (Some building))) ;;
        ret (Some building)
      else detectBuilding_from rest lat lon
  end.

Definition detectBuilding (lat lon : number) : M Sys (option Building) :=
  bs <- read buildings ;;
  detectBuilding_from bs lat lon.

(** line 119 *)
Definition detectMovement : M Sys unit :=
  s <- read (fun s => s) ;;
  match lastLocation s, currentLocation s with
  | Some l, Some c =>
      h <- the_host ;;
      let distance := calculateDistance h (lat l) (lon l) (lat c) (lon c) in
      if gt distance (movementThreshold s) then
        update (set_isMoving true) ;;
        now <- liftE Date_now ;;
        update (set_lastMovementTime now)
      else
        now <- liftE Date_now ;;
        let timeSinceMovement := (now - lastMovementTime s)%Z in
        update (set_isMoving (timeSinceMovement <? stoppedDuration s)%Z)
  | _, _ => update (set_isMoving false)
  end.

(** line 158 *)
Definition checkStatusChange : M Sys unit :=
  s <- read (fun s => s) ;;
  when (negb (match lastNotifiedStatus s with
              | Some n => Status_eqb (currentStatus s) n
              | None => false
              end))
    (forEach (statusChangeCallbacks s) (fun callback =>
       try_catch
         (s1 <- read (fun s => s) ;;
          now <- liftE Date_now ;;
          call callback
            (mkStatusChange (lastNotifiedStatus s1) (currentStatus s1)
               (currentLocation s1) now))
         (fun _ => ret tt)) ;;
     update (fun s => set_lastNotifiedStatus (Some (currentStatus s)) s)).

(** line 141 *)
Definition updateStatus : M Sys unit :=
  currentTime <- liftE Date_now ;;
  last <- read lastMovementTime ;;
  stopped <- read stoppedDuration ;;
  let timeSinceMovement := (currentTime - last)%Z in
  (if (timeSinceMovement >=? stopped)%Z
   then update (set_currentStatus Stopped)
   else update (set_currentStatus Running)) ;;
  checkStatusChange.

(** line 215 *)
Definition getTrackingInfo : M Sys TrackingInfo :=
  s <- read (fun s => s) ;;
  t1 <- liftE Date_now ;;
  t2 <- liftE Date_now ;;
  ret (mkInfo (currentStatus s) (isMoving s) (currentLocation s)
         (lastPassedBuilding s) t1 (List.length (locationHistory s))
         (t2 - lastMovementTime s)%Z).

(** line 68 *)
Definition updatePosition (lat lon : number) : M Sys TrackingInfo :=
  currentTime <- liftE Date_now ;;
  let newLocation := mkLocation lat lon currentTime in
  update (fun s => set_lastLocation (currentLocation s) s) ;;
  update (set_currentLocation (Some newLocation)) ;;
  addToHistory newLocation ;;
  detectMovement ;;
  detectBuilding lat lon ;;
  updateStatus ;;
  update (set_lastUpdateTime currentTime) ;;
  getTrackingInfo.

(** line 246 *)
Definition reset : M Sys unit :=
  update (set_currentStatus Stopped) ;;
  update (set_currentLocation None) ;;
  update (set_lastLocation None) ;;
  update (set_isMoving false) ;;
  update (set_lastPassedBuilding None) ;;
  update (set_locationHistory []) ;;
  t1 <- liftE Date_now ;;
  update (set_lastUpdateTime t1) ;;
  t2 <- liftE Date_now ;;
  update (set_lastMovementTime t2).

(** line 181 *)
Definition onStatusChange (cb : callback W StatusChange) : M Sys bool :=
  update (fun s => set_statusChangeCallbacks (statusChangeCallbacks s ++ [cb]) s) ;;
  ret true.

(** the calls a client of the tracker can make *)
Inductive op : Type :=
| UpdatePosition (lat lon : number)
| Reset
| OnStatusChange (cb : callback W StatusChange).

Definition run_op (o : op) : M Sys unit :=
  match o with
  | UpdatePosition lat lon => updatePosition lat lon ;; ret tt
  | Reset => reset
  | OnStatusChange cb => onStatusChange cb ;; ret tt
  end.

(** a sequence of calls, one after the other; every method above returns
    normally, so the sequence runs to its end *)
Fixpoint run_ops (os : list op) (s : Sys) : Sys :=
  match os with
  | [] => s
  | o :: rest => run_ops rest (fst (run_op o s))
  end.

End WithSubscribers.
End Tracker.

(* ===================================================================== *)
(** ** ChannelClient: WebSocketGPSService.js *)
(* ===================================================================== *)

Module Service.
Import JS Eff Validator.
Local Open Scope js_scope.

Record Config : Type := mkConfig {
  serverUrl : string;
  reconnection : bool;
  reconnectionAttempts : Z;
  reconnectionDelay : Z;
  timeout : Z
}.

(** the callbacks given to [setTimeout] *)
Inductive task : Type := CallConnect.

(** The transport at its boundary (socket.io-client).  [io] creates a
    socket, [socket.disconnect()] destroys it, [socket.emit] sends; a
    socket is [connected] from the moment the transport reports its
    connection until it reports that it is gone.  What the transport
    reports comes back as an [event], delivered to [handle] below as a step
    of its own ([deliver]). *)
Record Net : Type := mkNet {
  next_socket : nat;
  open : list (nat * string);     (* created and not destroyed: id, url *)
  wired : list nat;               (* sockets carrying the handlers *)
  connected : list nat;           (* sockets whose [connected] is true *)
  sent : list (nat * string);     (* emitted: socket, event name *)
  timers : list (Z * task)        (* pending timeouts: delay, callback *)
}.

Definition net0 : Net := mkNet 0 [] [] [] [] [].

Definition io (url : string) (n : Net) : Net * nat :=
  (mkNet (S (next_socket n)) (open n ++ [(next_socket n, url)]) (wired n)
     (connected n) (sent n) (timers n),
   next_socket n).

Definition close (sock : nat) (n : Net) : Net :=
  mkNet (next_socket n)
    (filter (fun p => negb (Nat.eqb (fst p) sock)) (open n)) (wired n)
    (connected n) (sent n) (timers n).

Definition wire (sock : nat) (n : Net) : Net :=
  mkNet (next_socket n) (open n) (wired n ++ [sock]) (connected n) (sent n)
    (timers n).

Definition mark (sock : nat) (n : Net) : Net :=
  mkNet (next_socket n) (open n) (wired n) (connected n ++ [sock]) (sent n)
    (timers n).

Definition unmark (sock : nat) (n : Net) : Net :=
  mkNet (next_socket n) (open n) (wired n)
    (filter (fun i => negb (Nat.eqb i sock)) (connected n)) (sent n)
    (timers n).

Definition emit (sock : nat) (ev : string) (n : Net) : Net :=
  mkNet (next_socket n) (open n) (wired n) (connected n)
    (sent n ++ [(sock, ev)]) (timers n).

Definition setTimeout (t : task) (delay : Z) (n : Net) : Net :=
  mkNet (next_socket n) (open n) (wired n) (connected n) (sent n)
    (timers n ++ [(delay, t)]).

Definition is_open (sock : nat) (n : Net) : bool :=
  existsb (fun p => Nat.eqb (fst p) sock) (open n).

Definition is_wired (sock : nat) (n : Net) : bool :=
  existsb (Nat.eqb sock) (wired n).

Definition is_connected (sock : nat) (n : Net) : bool :=
  existsb (Nat.eqb sock) (connected n).

(** what the socket reports to the handlers of [setupEventHandlers] *)
Inductive event : Type :=
| Connect
| Disconnect (reason : string)
| ConnectError (error : value)
| Welcome (data : value)
| GpsData (data : value)
| GpsDataUpdate (data : value)
| GpsError (error : value)
| Pong (data : value).

Section WithSubscribers.
Variable W : Type.

Record State : Type := mkState {
  config : Config;
  socket : option nat;
  isConnected : bool;
  connectionAttempts : Z;
  maxConnectionAttempts : Z;
  currentGPS : option GPS;
  previousGPS : option GPS;
  onGPSUpdateCallbacks : list (callback W Wire.LocationUpdate);
  onConnectionChangeCallbacks : list (callback W bool);
  onErrorCallbacks : list (callback W value)
}.

Definition set_socket v (s : State) : State :=
  mkState (config s) v (isConnected s) (connectionAttempts s)
    (maxConnectionAttempts s) (currentGPS s) (previousGPS s)
    (onGPSUpdateCallbacks s) (onConnectionChangeCallbacks s)
    (onErrorCallbacks s).

Definition set_isConnected v (s : State) : State :=
  mkState (config s) (socket s) v (connectionAttempts s)
    (maxConnectionAttempts s) (currentGPS s) (previousGPS s)
    (onGPSUpdateCallbacks s) (onConnectionChangeCallbacks s)
    (onErrorCallbacks s).

Definition set_connectionAttempts v (s : State) : State :=
  mkState (config s) (socket s) (isConnected s) v (maxConnectionAttempts s)
    (currentGPS s) (previousGPS s) (onGPSUpdateCallbacks s)
    (onConnectionChangeCallbacks s) (onErrorCallbacks s).

Definition set_currentGPS v (s : State) : State :=
  mkState (config s) (socket s) (isConnected s) (connectionAttempts s)
    (maxConnectionAttempts s) v (previousGPS s) (onGPSUpdateCallbacks s)
    (onConnectionChangeCallbacks s) (onErrorCallbacks s).

Definition set_previousGPS v (s : State) : State :=
  mkState (config s) (socket s) (isConnected s) (connectionAttempts s)
    (maxConnectionAttempts s) (currentGPS s) v (onGPSUpdateCallbacks s)
    (onConnectionChangeCallbacks s) (onErrorCallbacks s).

Definition set_onGPSUpdateCallbacks v (s : State) : State :=
  mkState (config s) (socket s) (isConnected s) (connectionAttempts s)
    (maxConnectionAttempts s) (currentGPS s) (previousGPS s) v
    (onConnectionChangeCallbacks s) (onErrorCallbacks s).

Definition set_onConnectionChangeCallbacks v (s : State) : State :=
  mkState (config s) (socket s) (isConnected s) (connectionAttempts s)
    (maxConnectionAttempts s) (currentGPS s) (previousGPS s)
    (onGPSUpdateCallbacks s) v (onErrorCallbacks s).

Definition set_onErrorCallbacks v (s : State) : State :=
  mkState (config s) (socket s) (isConnected s) (connectionAttempts s)
    (maxConnectionAttempts s) (currentGPS s) (previousGPS s)
    (onGPSUpdateCallbacks s) (onConnectionChangeCallbacks s) v.

Record Sys : Type := mkSys {
  env : Env;
  net : Net;
  subs : W;
  this : State
}.

Definition liftE {A} (f : Env -> Env * A) : M Sys A :=
  fun s => let '(e, a) := f (env s) in (mkSys e (net s) (subs s) (this s), Ok a).
Definition console_log (msg : string) : M Sys unit :=
  modify (fun s => mkSys (console_write Log msg (env s)) (net s) (subs s) (this s)).
Definition console_warn (msg : string) : M Sys unit :=
  modify (fun s => mkSys (console_write Warn msg (env s)) (net s) (subs s) (this s)).
Definition console_error (msg : string) : M Sys unit :=
  modify (fun s => mkSys (console_write Error msg (env s)) (net s) (subs s) (this s)).
Definition update (f : State -> State) : M Sys unit :=
  modify (fun s => mkSys (env s) (net s) (subs s) (f (this s))).
Definition read {A} (f : State -> A) : M Sys A := gets (fun s => f (this s)).
Definition transport (f : Net -> Net) : M Sys unit :=
  modify (fun s => mkSys (env s) (f (net s)) (subs s) (this s)).

(** calling a subscriber *)
Definition call {A} (cb : callback W A) (a : A) : M Sys unit :=
  fun s => let '(w, r) := cb a (subs s) in (mkSys (env s) (net s) w (this s), r).

(** [v.k]: a TypeError on [undefined] and [null] *)
Definition prop (v : value) (k : string) : M Sys value :=
  match v with
  | Undefined | Null => throw (TypeError "Cannot read properties of undefined")
  | _ => ret (field v k)
  end.

(** line 250 *)
Definition notifyGPSUpdate (data : Wire.LocationUpdate) : M Sys unit :=
  cbs <- read onGPSUpdateCallbacks ;;
  forEach cbs (fun callback =>
    try_catch (call callback data)
              (fun _ => console_error "Error in GPS update callback:")).

(** line 260 *)
Definition notifyConnectionChange (connected : bool) : M Sys unit :=
  cbs <- read onConnectionChangeCallbacks ;;
  forEach cbs (fun callback =>
    try_catch (call callback connected)
              (fun _ => console_error "Error in connection change callback:")).

(** line 270 *)
Definition notifyError (error : value) : M Sys unit :=
  cbs <- read onErrorCallbacks ;;
  forEach cbs (fun callback =>
    try_catch (call callback error)
              (fun _ => console_error "Error in error callback:")).

(** lines 225, 233, 241: the subscription itself *)
Definition onGPSUpdate (cb : callback W Wire.LocationUpdate) : M Sys unit :=
  update (fun s => set_onGPSUpdateCallbacks (onGPSUpdateCallbacks s ++ [cb]) s).
Definition onConnectionChange (cb : callback W bool) : M Sys unit :=
  update (fun s =>
    set_onConnectionChangeCallbacks (onConnectionChangeCallbacks s ++ [cb]) s).
Definition onError (cb : callback W value) : M Sys unit :=
  update (fun s => set_onErrorCallbacks (onErrorCallbacks s ++ [cb]) s).

(** line 180 *)
Definition requestGPSData : M Sys unit :=
  s <- read (fun s => s) ;;
  match isConnected s, socket s with
  | true, Some sock => transport (emit sock "request-gps-data")
  | _, _ => console_warn "Cannot request GPS data - not connected"
  end.

(** [this.isValidGPSData(data)] as a call (line 321): a coordinate that
    is not a number goes to [parseFloat] (lines 324-325), which throws on
    an object that cannot be printed; otherwise the call returns what
    [isValidGPSData] computes *)
Definition validate (data : value) : M Sys bool :=
  if truthy data
     && (unprintable (field data "lat") || unprintable (field data "lon"))
  then throw (TypeError "Cannot convert object to primitive value")
  else ret (isValidGPSData data).

(** line 145; the second operand of [||] is evaluated only when the first
    is false *)
Definition processGPSData (gpsData : value) (source : string) : M Sys unit :=
  c <- prop gpsData "c" ;;
  valid_c <- validate c ;;
  valid_p <- (if valid_c then validate (field gpsData "p") else ret true) ;;
  if negb valid_c || negb valid_p then
    console_warn "Invalid GPS data received:"
  else
    update (fun s => set_previousGPS (currentGPS s) s) ;;
    t <- (if truthy (field c "t") then ret (TsValue (field c "t"))
          else now <- liftE Date_now ;; ret (TsISO now)) ;;
    update (set_currentGPS
              (Some (mkGPS (parseFloat (field c "lat"))
                           (parseFloat (field c "lon")) t))) ;;
    let p := field gpsData "p" in
    when (truthy p)
      (tp <- (if truthy (field p "t") then ret (TsValue (field p "t"))
              else now <- liftE Date_now ;; ret (TsISO (now - 5000)%Z)) ;;
       update (set_previousGPS
                 (Some (mkGPS (parseFloat (field p "lat"))
                              (parseFloat (field p "lon")) tp)))) ;;
    s <- read (fun s => s) ;;
    now <- liftE Date_now ;;
    notifyGPSUpdate
      (Wire.mkUpdate (currentGPS s) (previousGPS s)
         (if truthy (field gpsData "s") then field gpsData "s" else Str "active")
         source now).

(** the handler of the socket's disconnect event, lines 98-107 *)
Definition on_disconnect (reason : string) : M Sys unit :=
  console_log "WebSocket disconnected:" ;;
  update (set_isConnected false) ;;
  notifyConnectionChange false ;;
  when (String.eqb reason "io server disconnect")
    (transport (setTimeout CallConnect 1000)).

(** [socket.disconnect()] of socket.io-client: the socket is destroyed,
    and if it was connected it stops being so and its disconnect handlers
    run before the call returns, with the reason "io client disconnect" *)
Definition socket_disconnect (sock : nat) : M Sys unit :=
  n <- gets (fun s => net s) ;;
  transport (close sock) ;;
  when (is_connected sock n)
    (transport (unmark sock) ;;
     when (is_wired sock n) (on_disconnect "io client disconnect")).

(** line 65; [setupEventHandlers] (line 86) puts the handlers of [handle]
    on the new socket *)
Definition connect : M Sys unit :=
  old <- read socket ;;
  match old with
  | Some sock => socket_disconnect sock
  | None => ret tt
  end ;;
  console_log "Attempting WebSocket connection to:" ;;
  url <- read (fun s => serverUrl (config s)) ;;
  sock <- (fun s => let '(n, id) := io url (net s) in
                    (mkSys (env s) n (subs s) (this s), Ok id)) ;;
  update (set_socket (Some sock)) ;;
  transport (wire sock).

(** the handlers of lines 88-142 *)
Definition handle (ev : event) : M Sys unit :=
  match ev with
  | Connect =>
      sock <- read socket ;;
      match sock with
      | None => throw (TypeError "Cannot read properties of null")
      | Some _ => console_log "WebSocket connected:"
      end ;;
      update (set_isConnected true) ;;
      update (set_connectionAttempts 0%Z) ;;
      notifyConnectionChange true ;;
      requestGPSData
  | Disconnect reason => on_disconnect reason
  | ConnectError error =>
      _ <- prop error "message" ;;
      console_warn "WebSocket connection error:" ;;
      update (fun s => set_connectionAttempts (connectionAttempts s + 1)%Z s) ;;
      s <- read (fun s => s) ;;
      when (connectionAttempts s >=? maxConnectionAttempts s)%Z
        (console_warn "Max connection attempts reached, falling back to simulation" ;;
         notifyError (Str "Connection failed, using simulation data"))
  | Welcome data =>
      _ <- prop data "message" ;;
      console_log "Server welcome:"
  | GpsData data =>
      console_log "GPS data received via request:" ;;
      processGPSData data "websocket-request"
  | GpsDataUpdate data =>
      console_log "GPS data broadcast received:" ;;
      processGPSData data "websocket-broadcast"
  | GpsError error =>
      console_warn "GPS data error:" ;;
      m <- prop error "message" ;;
      notifyError (if truthy m then m else Str "GPS data error")
  | Pong data =>
      _ <- liftE Date_now ;;
      sentAt <- prop data "timestamp" ;;
      if unprintable sentAt
      then throw (TypeError "Cannot convert object to primitive value")
      else console_log "Pong received, latency:"
  end.

(** The transport reporting [ev] on the socket the service holds.  Before
    the handlers of a connect event run the socket has become connected;
    before those of a disconnect event it has stopped being so, and a
    socket the server disconnected is destroyed as well.  (A socket the
    service no longer holds has been destroyed and reports nothing; the
    step is defined there too, as the handler alone.) *)
Definition deliver (ev : event) : M Sys unit :=
  held <- read socket ;;
  match held, ev with
  | Some sock, Connect => transport (mark sock)
  | Some sock, Disconnect reason =>
      when (String.eqb reason "io server disconnect")
        (transport (close sock)) ;;
      transport (unmark sock)
  | _, _ => ret tt
  end ;;
  handle ev.

(** a timeout that fires *)
Definition fire (t : task) : M Sys unit :=
  match t with CallConnect => connect end.

(** line 287 *)
Definition disconnect : M Sys unit :=
  old <- read socket ;;
  match old with
  | Some sock => socket_disconnect sock ;; update (set_socket None)
  | None => ret tt
  end ;;
  update (set_isConnected false).

(** the coordinates of lines 297-306, as binary64 numbers *)
Definition simulated_lat : number :=
  Eval vm_compute in dec (13612441 # 1000000).
Definition simulated_lon : number :=
  Eval vm_compute in dec (100836478 # 1000000).
Definition simulated_previous_lat : number :=
  Eval vm_compute in dec (13612412 # 1000000).
Definition simulated_previous_lon : number :=
  Eval vm_compute in dec (100836585 # 1000000).

(** line 296 *)
Definition initializeSimulationData : M Sys unit :=
  t1 <- liftE Date_now ;;
  update (set_currentGPS
            (Some (mkGPS simulated_lat simulated_lon
                         (TsISO t1)))) ;;
  t2 <- liftE Date_now ;;
  update (set_previousGPS
            (Some (mkGPS simulated_previous_lat simulated_previous_lon
                         (TsISO (t2 - 5000)%Z)))).

(** the constructor (lines 7-40), from the merged configuration *)
Definition blank (cfg : Config) : State :=
  {| config := cfg; socket := None; isConnected := false;
     connectionAttempts := 0%Z; maxConnectionAttempts := 5%Z;
     currentGPS := None; previousGPS := None;
     onGPSUpdateCallbacks := []; onConnectionChangeCallbacks := [];
     onErrorCallbacks := [] |}.

Definition construct : M Sys unit :=
  initializeSimulationData ;;
  console_log "WebSocket GPS Service: Initializing..." ;;
  console_log "Server URL:" ;;
  connect.

Definition exec {A} (c : M Sys A) (s : Sys) : Sys := fst (c s).

End WithSubscribers.
End Service.

(* ===================================================================== *)
(** ** A host to evaluate on *)
(* ===================================================================== *)

(** The properties below hold for every host.  To run the methods on
    concrete inputs a host has to be fixed; this one answers exactly where
    the exact answer is a binary64 number the model can name, and NaN
    elsewhere. *)
Module Demo.
Import JS Eff Validator Gsap.

(** exact on a rational whose reduced numerator and denominator are
    perfect squares *)
Definition sqrt (x : number) : number :=
  match x with
  | Fin q =>
      match Qsign q with
      | Lt => NaN
      | _ => num (Z.sqrt (Qnum q) # Pos.sqrt (Qden q))
      end
  | PosInf => PosInf
  | _ => NaN
  end.

(** [Math.atan2(y, x)] on the coordinate axes *)
Definition atan2 (y x : number) : number :=
  match y, x with
  | Fin a, Fin b =>
      match Qsign a, Qsign b with
      | Eq, Eq | Eq, Gt => num 0
      | Eq, Lt => Math_PI
      | Gt, Eq => div Math_PI (num 2)
      | Lt, Eq => neg (div Math_PI (num 2))
      | _, _ => NaN
      end
  | _, _ => NaN
  end.

Definition sin (x : number) : number :=
  match x with
  | Fin q => match Qsign q with Eq => num 0 | _ => NaN end
  | _ => NaN
  end.

Definition cos (x : number) : number :=
  match x with
  | Fin q => match Qsign q with Eq => num 1 | _ => NaN end
  | _ => NaN
  end.

(** the clock starts at [t0] and advances one millisecond per reading *)
Definition t0 : Z := 1700000000000.

Definition host : Host :=
  {| clock := fun n => (t0 + Z.of_nat n)%Z;
     Date_parse := fun _ => NaN;
     Math_sqrt := sqrt;
     Math_atan2 := atan2;
     Math_sin := sin;
     Math_cos := cos;
     on_localhost := false |}.

Definition env0 : Env := {| Eff.host := host; ticks := 0; console := [] |}.

(** a point on the campus, read one second before [t0], and points 0.1 m
    and 11 m north of it *)
Definition fresh : Timestamp := TsISO (t0 - 1000).
Definition old : Timestamp := TsISO (t0 - 120000).

Definition campus : GPS :=
  Eval vm_compute in
  mkGPS (dec (13612441 # 1000000)) (dec (100836478 # 1000000)) fresh.
Definition campus_nearby : GPS :=
  Eval vm_compute in
  mkGPS (dec (13612442 # 1000000)) (dec (100836478 # 1000000)) fresh.
Definition campus_far : GPS :=
  Eval vm_compute in
  mkGPS (dec (13612541 # 1000000)) (dec (100836478 # 1000000)) fresh.

Definition update_of (cur : GPS) (prev : option GPS) : Wire.LocationUpdate :=
  Wire.mkUpdate (Some cur) prev (Str "active") "websocket-broadcast" t0.

(** a tram at the scene origin that faces the direction of increasing
    latitude, i.e. [rotation.y = atan2(1, 0) - PI / 2 = 0] *)
Definition tram0 : Movement.Tram :=
  Movement.mkTram (mkVec3 (num 0) (num 0) (num 0)) (num 0).

(** a reconciler just constructed, with no static route *)
Definition fresh_sys : Movement.Sys :=
  Movement.mkSys env0 Gsap.empty (Movement.init (Some tram0) None).

(** the same after a first update at [campus] *)
Definition tracking_sys : Movement.Sys :=
  Movement.exec (Movement.processGPSData (update_of campus None)) fresh_sys.

(** the same after a second update 11 m north: a transition is running *)
Definition moving_sys : Movement.Sys :=
  Movement.exec (Movement.processGPSData (update_of campus_far (Some campus)))
    tracking_sys.

End Demo.

(* ===================================================================== *)
(** * Properties *)
(* ===================================================================== *)

(** ** Numbers *)

Module NumberFacts.
Import JS.

Lemma Qltb_lt (a b : Q) : Qltb a b = true <-> a < b.
Proof.
  unfold Qltb. rewrite negb_true_iff.
  split; intro H.
  - apply Qnot_le_lt. intro Hle. apply Qle_bool_iff in Hle. congruence.
  - destruct (Qle_bool b a) eqn:E; [|reflexivity].
    apply Qle_bool_iff in E. exfalso. exact (Qlt_not_le _ _ H E).
Qed.

Lemma Qltb_ge (a b : Q) : Qltb a b = false <-> b <= a.
Proof.
  unfold Qltb. rewrite negb_false_iff. apply Qle_bool_iff.
Qed.

Lemma lt_fin (a b : Q) : lt (num a) (num b) = true <-> a < b.
Proof.
  unfold num; simpl. rewrite Qltb_lt, !Qred_correct. reflexivity.
Qed.

Lemma le_fin (a b : Q) : le (num a) (num b) = true <-> a <= b.
Proof.
  unfold num; simpl. rewrite Qle_bool_iff, !Qred_correct. reflexivity.
Qed.

(** a comparison with NaN is false *)
Lemma lt_NaN_r (x : number) : lt x NaN = false.
Proof. destruct x; reflexivity. Qed.

Lemma lt_NaN_l (x : number) : lt NaN x = false.
Proof. reflexivity. Qed.

(* --------------------------------------------------------------------- *)
(** *** Rounding *)

Lemma round64_Qeq (p q : Q) : p == q -> round64 p = round64 q.
Proof. intros H. unfold round64. rewrite (Qred_complete _ _ H). reflexivity. Qed.

Lemma round64_zero (q : Q) : q == 0 -> round64 q = Fin 0.
Proof. intros H. rewrite (round64_Qeq H). reflexivity. Qed.

Lemma Qopp_opp (q : Q) : - - q = q.
Proof. destruct q as [n d]. unfold Qopp. cbn. rewrite Z.opp_involutive. reflexivity. Qed.

Lemma round64_opp (q : Q) : round64 (- q) = neg (round64 q).
Proof.
  unfold round64. rewrite Qred_opp. cbv zeta.
  destruct (Qcompare (Qred q) 0) eqn:E.
  - apply Qeq_alt in E.
    assert (E' : Qcompare (- Qred q) 0 = Eq)
      by (apply -> Qeq_alt; rewrite E; reflexivity).
    rewrite E'. reflexivity.
  - apply Qlt_alt in E.
    assert (E' : Qcompare (- Qred q) 0 = Gt) by (apply -> Qgt_alt; lra).
    rewrite E'.
    set (v := nearest64 _).
    destruct (Qle_bool _ _); cbn [neg]; [reflexivity|].
    unfold num. f_equal. apply Qred_complete.
    rewrite (Qred_correct (- v)). ring.
  - apply Qgt_alt in E.
    assert (E' : Qcompare (- Qred q) 0 = Lt) by (apply -> Qlt_alt; lra).
    rewrite E'. rewrite Qopp_opp.
    set (v := nearest64 _).
    destruct (Qle_bool _ _); cbn [neg]; [reflexivity|].
    unfold num. f_equal. apply Qred_complete.
    rewrite (Qred_correct v). reflexivity.
Qed.

Lemma pow2_pos (k : Z) : 0 < pow2 k.
Proof. apply Qpower_0_lt. reflexivity. Qed.

Lemma pow2_add (a b : Z) : pow2 (a + b) == pow2 a * pow2 b.
Proof. apply Qpower_plus. discriminate. Qed.

Lemma pow2_Z (k : Z) : (0 <= k)%Z -> pow2 k == inject_Z (2 ^ k).
Proof. intros H. unfold pow2. rewrite Zpower_Qpower by exact H. reflexivity. Qed.

Lemma pow2_le (a b : Z) : (a <= b)%Z -> pow2 a <= pow2 b.
Proof. intros H. apply Qpower_le_compat_l; [exact H | discriminate]. Qed.

Lemma rne_Z (m : Q) (n : Z) : m == inject_Z n -> rne m = n.
Proof.
  intros H. unfold rne.
  assert (F : Qfloor m = n) by (rewrite (Qfloor_comp _ _ H); apply Qfloor_Z).
  rewrite F.
  assert (L : Qcompare (m - inject_Z n) (1 # 2) = Lt)
    by (apply -> Qlt_alt; rewrite H; lra).
  rewrite L. reflexivity.
Qed.

Lemma rne_ge_floor (m : Q) : (Qfloor m <= rne m)%Z.
Proof.
  unfold rne. destruct (Qcompare _ _); [destruct (Z.even _)| |]; lia.
Qed.

(** a positive integer: its exponent *)
Lemma ilog2_int (z : Z) : (0 < z)%Z -> ilog2 (inject_Z z) = Z.log2 z.
Proof.
  intros H. unfold ilog2, inject_Z. cbn [Qnum Qden].
  change (Z.log2 1) with 0%Z. rewrite Z.sub_0_r.
  assert (L : pow2 (Z.log2 z) <= z # 1).
  { rewrite pow2_Z by apply Z.log2_nonneg.
    change (z # 1) with (inject_Z z). rewrite <- Zle_Qle.
    apply Z.log2_spec. exact H. }
  apply Qle_bool_iff in L. rewrite L. reflexivity.
Qed.

Lemma Qred_int (z : Z) : Qred (inject_Z z) = inject_Z z.
Proof.
  unfold Qred, inject_Z.
  pose proof (Z.ggcd_gcd z 1) as G.
  pose proof (Z.ggcd_correct_divisors z 1) as D.
  destruct (Z.ggcd z 1) as [g [aa bb]]. cbn [fst snd] in *.
  rewrite Z.gcd_1_r in G. subst g. destruct D as [-> D].
  rewrite Z.mul_1_l in D. subst bb.
  rewrite Z.mul_1_l. reflexivity.
Qed.

Lemma nearest64_int (z : Z) :
  (0 < z < 2 ^ 53)%Z -> nearest64 (inject_Z z) == inject_Z z.
Proof.
  intros [H0 H1]. unfold nearest64. rewrite ilog2_int by exact H0.
  pose proof (Z.log2_nonneg z) as Hn.
  assert (Hl : (Z.log2 z < 53)%Z) by (apply Z.log2_lt_pow2; lia).
  rewrite Z.max_l by lia.
  set (E := (Z.log2 z - 52)%Z).
  assert (HE : (0 <= - E)%Z) by (subst E; lia).
  assert (I : / pow2 E == pow2 (- E))
    by (unfold pow2; rewrite Qpower_opp; reflexivity).
  pose proof (pow2_pos E) as PE.
  assert (M : inject_Z z / pow2 E == inject_Z (z * 2 ^ (- E))).
  { unfold Qdiv. rewrite I, inject_Z_mult, (pow2_Z HE). reflexivity. }
  rewrite (rne_Z M). rewrite inject_Z_mult, <- (pow2_Z HE), <- I.
  field. lra.
Qed.

Lemma round64_int (z : Z) :
  (Z.abs z <= 2 ^ 53)%Z -> round64 (inject_Z z) = Fin (inject_Z z).
Proof.
  assert (pos : forall z, (0 < z <= 2 ^ 53)%Z ->
                round64 (inject_Z z) = Fin (inject_Z z)).
  { intros y [H0 H1].
    destruct (Z.eq_dec y (2 ^ 53)) as [->|Hne]; [vm_compute; reflexivity|].
    unfold round64. rewrite Qred_int. cbv zeta.
    assert (G : Qcompare (inject_Z y) 0 = Gt)
      by (apply -> Qgt_alt; change 0 with (inject_Z 0); rewrite <- Zlt_Qlt; exact H0).
    rewrite G.
    assert (N : nearest64 (inject_Z y) == inject_Z y)
      by (apply nearest64_int; lia).
    assert (B : Qle_bool (pow2 1024) (nearest64 (inject_Z y)) = false).
    { destruct (Qle_bool _ _) eqn:E; [|reflexivity].
      apply Qle_bool_iff in E. rewrite N in E.
      rewrite pow2_Z in E by lia. rewrite <- Zle_Qle in E.
      assert (2 ^ 53 < 2 ^ 1024)%Z by (apply Z.pow_lt_mono_r; lia). lia. }
    rewrite B. f_equal. rewrite (Qred_complete _ _ N). apply Qred_int. }
  intros H. destruct (Z.lt_trichotomy z 0) as [L | [-> | G]].
  - replace (inject_Z z) with (- inject_Z (- z)).
    + rewrite round64_opp, pos by lia. cbn [neg]. unfold num.
      f_equal. rewrite Qred_opp, Qred_int. reflexivity.
    + unfold inject_Z, Qopp. cbn. rewrite Z.opp_involutive. reflexivity.
  - reflexivity.
  - apply pos. lia.
Qed.

Lemma round64_int_big (z : Z) :
  (2 ^ 53 < z)%Z ->
  round64 (inject_Z z) = PosInf \/
  exists v, round64 (inject_Z z) = Fin v /\ inject_Z (2 ^ 53) <= v.
Proof.
  intros H. assert (H0 : (0 < z)%Z) by lia.
  unfold round64. rewrite Qred_int. cbv zeta.
  assert (G : Qcompare (inject_Z z) 0 = Gt)
    by (apply -> Qgt_alt; change 0 with (inject_Z 0); rewrite <- Zlt_Qlt; exact H0).
  rewrite G.
  destruct (Qle_bool _ _); [left; reflexivity | right].
  eexists. split; [reflexivity|]. rewrite Qred_correct.
  unfold nearest64. rewrite ilog2_int by exact H0.
  assert (Hl : (53 <= Z.log2 z)%Z) by (apply Z.log2_le_pow2; lia).
  rewrite Z.max_l by lia.
  set (E := (Z.log2 z - 52)%Z).
  assert (HE : (1 <= E)%Z) by (subst E; lia).
  pose proof (pow2_pos E) as PE.
  assert (L : pow2 (Z.log2 z) <= inject_Z z).
  { rewrite pow2_Z by lia. rewrite <- Zle_Qle. apply Z.log2_spec. exact H0. }
  assert (S : pow2 (Z.log2 z) == pow2 52 * pow2 E).
  { rewrite <- pow2_add. subst E. replace (52 + (Z.log2 z - 52))%Z with (Z.log2 z) by lia.
    reflexivity. }
  assert (M : inject_Z (2 ^ 52) <= inject_Z z / pow2 E).
  { apply Qle_shift_div_l; [exact PE|].
    rewrite <- (pow2_Z (k := 52)) by lia. rewrite <- S. exact L. }
  assert (F : (2 ^ 52 <= rne (inject_Z z / pow2 E))%Z).
  { etransitivity; [|apply rne_ge_floor].
    rewrite <- (Qfloor_Z (2 ^ 52)). apply Qfloor_resp_le. exact M. }
  rewrite Zle_Qle in F.
  assert (P1 : 2 <= pow2 E) by (apply (pow2_le (a := 1)); lia).
  assert (T : inject_Z (2 ^ 53) == inject_Z (2 ^ 52) * 2) by reflexivity.
  rewrite T.
  apply Qmult_le_compat_nonneg; split; try exact F; try exact P1;
    discriminate.
Qed.

(** an integer difference against an integer bound below 2^53: rounding
    does not change the verdict *)
Lemma lt_round64_int (k z : Z) :
  (0 <= k < 2 ^ 53)%Z ->
  lt (Fin (inject_Z k)) (round64 (inject_Z z)) = true <-> (k < z)%Z.
Proof.
  intros Hk.
  destruct (Z_le_gt_dec (Z.abs z) (2 ^ 53)) as [S|B].
  - rewrite round64_int by exact S. cbn [lt]. rewrite Qltb_lt, <- Zlt_Qlt.
    reflexivity.
  - destruct (Z_lt_le_dec z 0) as [N|P].
    + replace (inject_Z z) with (- inject_Z (- z))
        by (unfold inject_Z, Qopp; cbn; rewrite Z.opp_involutive; reflexivity).
      rewrite round64_opp.
      destruct (@round64_int_big (- z)) as [E | (v & E & Hv)]; [lia | |];
        rewrite E; cbn [neg lt].
      * split; [discriminate | lia].
      * unfold num. cbn [lt]. split; [|lia].
        intros C. apply Qltb_lt in C. rewrite Qred_correct in C.
        assert (0 <= inject_Z k)
          by (change 0 with (inject_Z 0); rewrite <- Zle_Qle; lia).
        assert (0 < inject_Z (2 ^ 53)) by reflexivity. lra.
    + destruct (@round64_int_big z) as [E | (v & E & Hv)]; [lia | |];
        rewrite E; cbn [lt].
      * split; [lia | reflexivity].
      * split; [lia|]. intros _. apply Qltb_lt.
        assert (inject_Z k < inject_Z (2 ^ 53)) by (rewrite <- Zlt_Qlt; lia).
        lra.
Qed.

(** integer times: the difference of two of them against an integer
    bound reads the same rounded or not *)
Lemma gt_sub_int (a b k : Z) :
  (0 <= k < 2 ^ 53)%Z ->
  gt (sub (num (inject_Z a)) (num (inject_Z b))) (num (inject_Z k)) = true
  <-> (a - b > k)%Z.
Proof.
  intros Hk. unfold gt, sub, neg, num. cbn [add]. rewrite (Qred_int k).
  rewrite (@round64_Qeq _ (inject_Z (a - b))).
  - rewrite lt_round64_int by exact Hk. lia.
  - rewrite !Qred_correct. unfold Zminus.
    rewrite inject_Z_plus, inject_Z_opp. reflexivity.
Qed.

(** [x - x] is zero for a finite [x] and NaN otherwise *)
Lemma sub_fin_diag (q : Q) : sub (Fin q) (Fin q) = Fin 0.
Proof.
  unfold sub, neg, num. cbn [add].
  apply round64_zero. rewrite Qred_correct. ring.
Qed.

Lemma sub_diag (x : number) :
  sub x x = NaN \/ sub x x = Fin 0.
Proof.
  destruct x as [| | |q]; try (left; reflexivity).
  right. apply sub_fin_diag.
Qed.

(** the absolute value does not see the sign *)
Lemma abs_neg (x : number) : abs (neg x) = abs x.
Proof.
  destruct x as [| | |q]; try reflexivity.
  unfold neg, abs, num. f_equal. apply Qred_complete.
  rewrite Qred_correct. apply Qabs_opp.
Qed.

(** subtraction the other way round gives the opposite number *)
Lemma sub_swap (x y : number) : sub y x = neg (sub x y).
Proof.
  destruct x as [| | |a], y as [| | |b]; try reflexivity.
  unfold sub. cbn [neg add]. unfold num.
  rewrite <- round64_opp. apply round64_Qeq.
  rewrite !Qred_correct. ring.
Qed.

End NumberFacts.

(** ** UpdateValidator *)

Module ValidatorFacts.
Import JS Eff Validator NumberFacts Demo.

(** [0.000005] as the program reads it *)
Lemma tolerance_value :
  tolerance = Fin (5902958103587057 # 1180591620717411303424).
Proof. vm_compute. reflexivity. Qed.

Lemma unchanged_coordinate (x : number) :
  gt (abs (sub x x)) tolerance = false.
Proof.
  rewrite tolerance_value.
  destruct (sub_diag x) as [E | E]; rewrite E; reflexivity.
Qed.

(** C6.  [hasGPSChanged] of a point against itself is false and against
    an absent old point is true.  In general, for a new point, it is true
    exactly when the old point is absent or the absolute difference of the
    latitudes, or of the longitudes, exceeds the tolerance, where the
    difference is the program's own (rounded) subtraction and "exceeds" is
    its own strict comparison.  The tolerance is the literal 0.000005:
    the binary64 number 5902958103587057 / 2^70, which is the one nearest
    to 5e-6 (it has 53 significant bits and lies within half of the
    spacing 2^-70 of it). *)
Theorem hasGPSChanged_spec :
  (forall p : GPS, hasGPSChanged (Some p) (Some p) = false) /\
  (forall p : GPS, hasGPSChanged (Some p) None = true) /\
  (forall (newPoint : GPS) (oldPoint : option GPS),
      hasGPSChanged (Some newPoint) oldPoint = true <->
      oldPoint = None \/
      exists old, oldPoint = Some old /\
        (gt (abs (sub (lat newPoint) (lat old))) tolerance = true \/
         gt (abs (sub (lon newPoint) (lon old))) tolerance = true)) /\
  tolerance = Fin (5902958103587057 # 2 ^ 70) /\
  (2 ^ 52 <= 5902958103587057 < 2 ^ 53)%Z /\
  Qabs ((5902958103587057 # 2 ^ 70) - (5 # 1000000)) <= 1 # 2 ^ 71.
Proof.
  split; [|split; [|split; [|split; [|split]]]].
  - intros p. unfold hasGPSChanged.
    rewrite !unchanged_coordinate. reflexivity.
  - reflexivity.
  - intros n [old|]; cbn [hasGPSChanged].
    + rewrite orb_true_iff. split.
      * intros H. right. exists old. auto.
      * intros [H | [old' [E H]]]; [discriminate|].
        injection E as <-. exact H.
    + split; auto.
  - exact tolerance_value.
  - split; [apply Z.leb_le | apply Z.ltb_lt]; reflexivity.
  - vm_compute. discriminate.
Qed.

Lemma hasGPSChanged_spec_witness :
  hasGPSChanged (Some campus_far) (Some campus) = true /\
  hasGPSChanged (Some campus_nearby) (Some campus) = false.
Proof.
  destruct hasGPSChanged_spec as (_ & _ & H & _ & _).
  split.
  - apply H. right. exists campus. split; [reflexivity|].
    left. vm_compute. reflexivity.
  - destruct (hasGPSChanged (Some campus_nearby) (Some campus)) eqn:E;
      [|reflexivity].
    apply H in E. destruct E as [E | [old [E [F | F]]]].
    + discriminate.
    + injection E as <-. vm_compute in F. discriminate.
    + injection E as <-. vm_compute in F. discriminate.
Defined.

(** what [isValidGPSData] accepts *)
Definition in_range (la lo : Q) : Prop :=
  (-90 <= la /\ la <= 90) /\ (-180 <= lo /\ lo <= 180).





End ValidatorFacts.

(** ** PositionReconciler *)

Module MovementFacts.
Import JS Eff Validator Gsap Movement NumberFacts.
Local Open Scope js_scope.

(** *** Running the monad *)

Lemma run_liftE {A B} (f : Env -> Env * A) (k : A -> M Sys B) (s : Sys) :
  (x <- liftE f ;; k x) s
  = k (snd (f (env s))) (mkSys (fst (f (env s))) (gsap s) (this s)).
Proof. unfold bind, liftE. destruct (f (env s)); reflexivity. Qed.

Lemma run_read {A B} (f : State -> A) (k : A -> M Sys B) (s : Sys) :
  (x <- read f ;; k x) s = k (f (this s)) s.
Proof. reflexivity. Qed.

Lemma run_update {B} (f : State -> State) (k : unit -> M Sys B) (s : Sys) :
  (x <- update f ;; k x) s = k tt (mkSys (env s) (gsap s) (f (this s))).
Proof. reflexivity. Qed.

Lemma run_animate {B} (f : engine -> engine) (k : unit -> M Sys B) (s : Sys) :
  (x <- animate f ;; k x) s = k tt (mkSys (env s) (f (gsap s)) (this s)).
Proof. reflexivity. Qed.

Lemma run_ret {A B} (a : A) (k : A -> M Sys B) (s : Sys) :
  (x <- ret a ;; k x) s = k a s.
Proof. reflexivity. Qed.


(** what [stopTramMovement] leaves: the tween it holds is killed and
    forgotten, and the tram is marked stationary *)
Definition stopped (s : Sys) : Sys :=
  match currentTween (this s) with
  | Some tl =>
      mkSys (env s) (kill tl (gsap s))
        (set_isMoving false (set_currentTween None (this s)))
  | None => mkSys (env s) (gsap s) (set_isMoving false (this s))
  end.

Lemma stopTramMovement_run (s : Sys) : stopTramMovement s = (stopped s, Ok tt).
Proof.
  unfold stopTramMovement, stopped.
  rewrite run_read. destruct (currentTween (this s)); reflexivity.
Qed.

Lemma run_stop {B} (k : unit -> M Sys B) (s : Sys) :
  (x <- stopTramMovement ;; k x) s = k tt (stopped s).
Proof. unfold bind at 1. rewrite stopTramMovement_run. reflexivity. Qed.

(** *** The engine keeps its timelines apart *)

(** every live timeline was handed out by [timeline] *)
Definition wf (g : engine) : Prop :=
  Forall (fun p => (fst p < next g)%nat) (live g).

Lemma wf_empty : wf Gsap.empty.
Proof. constructor. Qed.

Lemma wf_kill (tl : nat) (g : engine) : wf g -> wf (kill tl g).
Proof.
  unfold wf, kill; simpl. intros H.
  apply Forall_forall. intros p Hp. apply filter_In in Hp.
  rewrite Forall_forall in H. apply H, Hp.
Qed.

Lemma wf_timeline (g : engine) : wf g -> wf (fst (timeline g)).
Proof.
  unfold wf, timeline; simpl. intros H.
  apply Forall_app. split.
  - eapply Forall_impl; [|exact H]. simpl. intros; lia.
  - constructor; [simpl; lia | constructor].
Qed.

Lemma wf_to (tl : nat) (t : tween) (g : engine) : wf g -> wf (to tl t g).
Proof.
  unfold wf, to; simpl. intros H.
  apply Forall_forall. intros p Hp. apply in_map_iff in Hp.
  destruct Hp as [q [<- Hq]]. rewrite Forall_forall in H.
  specialize (H q Hq). destruct (Nat.eqb (fst q) tl); exact H.
Qed.

(** queuing on the newest timeline touches no other *)
Lemma to_newest (g : engine) (sts : list tween) (t : tween) :
  wf g ->
  to (next g) t {| next := S (next g); live := live g ++ [(next g, sts)] |}
  = {| next := S (next g); live := live g ++ [(next g, sts ++ [t])] |}.
Proof.
  intros H. unfold to; simpl. f_equal.
  rewrite map_app; simpl. rewrite Nat.eqb_refl. f_equal.
  rewrite <- (map_id (live g)) at 2. apply map_ext_in.
  intros p Hp. unfold wf in H. rewrite Forall_forall in H.
  specialize (H p Hp).
  destruct (Nat.eqb (fst p) (next g)) eqn:E; [|reflexivity].
  apply Nat.eqb_eq in E. lia.
Qed.


(** *** An update that changes nothing (C1) *)

Definition stale (t : Timestamp) (s : Sys) : bool :=
  snd (isGPSDataStale t (env s)).






End MovementFacts.

(** ** PositionReconciler: first update, stale updates *)

Module FirstUpdateFacts.
Import JS Eff Validator Gsap Movement NumberFacts MovementFacts.
Local Open Scope js_scope.





End FirstUpdateFacts.

Module StaleFacts.
Import JS Eff Validator Gsap Movement NumberFacts MovementFacts.
Local Open Scope js_scope.



Definition stale_msg : string := "GPS data is stale - keeping tram stationary".

Definition is_stale_warning (e : entry) : bool :=
  match lvl e with
  | Warn => String.eqb (text e) stale_msg
  | _ => false
  end.

(** how many times the staleness warning was written *)
Definition stale_warnings (s : Sys) : nat :=
  List.length (filter is_stale_warning (console (env s))).

(** *** What staleness is *)

Lemma stale_iff (t : Timestamp) (s : Sys) :
  stale t s = true <->
  ts_falsy t = true \/
  gt (sub (num (inject_Z (clock (host (env s)) (ticks (env s)))))
          (Date_time (host (env s)) t))
     (num 60000) = true.
Proof.
  unfold stale, isGPSDataStale, isGPSDataStale_with.
  destruct (ts_falsy t); simpl.
  - split; auto.
  - split; [auto | intros [H|H]; [discriminate | exact H]].
Qed.

(** for a time stamp that is an instant, staleness is its age *)
Lemma stale_instant (ms : Z) (s : Sys) :
  stale (TsISO ms) s = true <->
  (clock (host (env s)) (ticks (env s)) - ms > 60000)%Z.
Proof.
  rewrite stale_iff. cbn [ts_falsy Date_time].
  change (num 60000) with (num (inject_Z 60000)).
  rewrite gt_sub_int by (split; [discriminate | reflexivity]).
  split; [intros [H|H]; [discriminate | exact H] | intros H; right; exact H].
Qed.

(** *** One stale update *)



(** *** Steps that leave the staleness warning alone *)

(** between [s] and [s'] the host is the same, the clock was only read,
    and the staleness warning was neither written nor rescheduled *)
Definition quiet (s s' : Sys) : Prop :=
  host (env s') = host (env s) /\
  (ticks (env s) <= ticks (env s'))%nat /\
  lastStaleWarning (this s') = lastStaleWarning (this s) /\
  stale_warnings s' = stale_warnings s.

Definition Quiet {A} (c : M Sys A) : Prop := forall s, quiet s (fst (c s)).

Lemma quiet_refl (s : Sys) : quiet s s.
Proof. unfold quiet; auto. Qed.

Lemma quiet_trans (s1 s2 s3 : Sys) : quiet s1 s2 -> quiet s2 s3 -> quiet s1 s3.
Proof.
  unfold quiet. intros (A & B & C & D) (A' & B' & C' & D').
  repeat split; try congruence. lia.
Qed.

Lemma Quiet_ret {A} (a : A) : Quiet (ret (S := Sys) a).
Proof. intros s. apply quiet_refl. Qed.

Lemma Quiet_bind {A B} (c : M Sys A) (k : A -> M Sys B) :
  Quiet c -> (forall a, Quiet (k a)) -> Quiet (x <- c ;; k x).
Proof.
  intros Hc Hk s. unfold bind. specialize (Hc s).
  destruct (c s) as [s1 [a|x]]; cbn in *; [|exact Hc].
  eapply quiet_trans; [exact Hc | apply Hk].
Qed.

Lemma Quiet_read {A} (f : State -> A) : Quiet (read f).
Proof. intros s. apply quiet_refl. Qed.

Lemma Quiet_the_host : Quiet the_host.
Proof. intros s. apply quiet_refl. Qed.

Lemma Quiet_update (f : State -> State) :
  (forall st, lastStaleWarning (f st) = lastStaleWarning st) ->
  Quiet (update f).
Proof. intros H s. unfold quiet; cbn. auto. Qed.

Lemma Quiet_animate (f : engine -> engine) : Quiet (animate f).
Proof. intros s. unfold quiet; cbn. auto. Qed.

Lemma Quiet_new_timeline : Quiet new_timeline.
Proof. intros s. unfold quiet; cbn. auto. Qed.

Lemma Quiet_Date_now : Quiet (liftE Date_now).
Proof. intros s. unfold quiet, stale_warnings; cbn. auto. Qed.


Lemma quiet_write (l : level) (msg : string) (s : Sys) :
  is_stale_warning (Entry l msg) = false ->
  quiet s (mkSys (console_write l msg (env s)) (gsap s) (this s)).
Proof.
  intros H. unfold quiet, stale_warnings, console_write; cbn.
  rewrite filter_app, length_app. cbn. rewrite H. cbn.
  repeat split; auto; lia.
Qed.

Lemma Quiet_console_log (msg : string) : Quiet (console_log msg).
Proof. intros s. apply quiet_write. reflexivity. Qed.

Lemma Quiet_console_error (msg : string) : Quiet (console_error msg).
Proof. intros s. apply quiet_write. reflexivity. Qed.

Lemma Quiet_console_warn (msg : string) :
  String.eqb msg stale_msg = false -> Quiet (console_warn msg).
Proof. intros H s. apply quiet_write. exact H. Qed.

Lemma Quiet_when (b : bool) (c : M Sys unit) : Quiet c -> Quiet (when b c).
Proof. intros H. destruct b; [exact H | apply Quiet_ret]. Qed.

Ltac quiet_step :=
  first
    [ apply Quiet_bind; [|intros ?]
    | apply Quiet_ret
    | apply Quiet_read
    | apply Quiet_the_host
    | apply Quiet_update; intros []; reflexivity
    | apply Quiet_animate
    | apply Quiet_new_timeline
    | apply Quiet_Date_now
    | apply Quiet_console_log
    | apply Quiet_console_error
    | apply Quiet_console_warn; reflexivity
    | apply Quiet_when
    | match goal with
      | |- Quiet (match ?x with _ => _ end) => destruct x
      end ].


Lemma Quiet_positionTramImmediately (la lo : number) :
  Quiet (positionTramImmediately la lo).
Proof. unfold positionTramImmediately. repeat quiet_step. Qed.

Lemma Quiet_updateTramPosition : Quiet updateTramPosition.
Proof. unfold updateTramPosition. repeat quiet_step. Qed.


(** *** Steps that write the staleness warning *)










(** *** Stale updates (C5) *)






End StaleFacts.

(** ** PositionReconciler: an update that moves the tram (C8) *)

Module TransitionFacts.
Import JS Eff Validator Gsap Movement NumberFacts MovementFacts.
Local Open Scope js_scope.

(** where the tram stands for a point, and how far two points are apart *)
Definition displacement (h : Host) (st : State) (cur prev : GPS) : number :=
  let c := calculatePosition st (lat cur) (lon cur) in
  let p := calculatePosition st (lat prev) (lon prev) in
  let dx := sub (x c) (x p) in
  let dz := sub (z c) (z p) in
  Math_sqrt h (add (mul dx dx) (mul dz dz)).

(** the rotation that faces the direction of travel *)
Definition target_rotation (h : Host) (st : State) (cur prev : GPS) : number :=
  let c := calculatePosition st (lat cur) (lon cur) in
  let p := calculatePosition st (lat prev) (lon prev) in
  let dx := sub (x c) (x p) in
  let dz := sub (z c) (z p) in
  add (Math_atan2 h dx dz) (div (neg Math_PI) (num 2)).

(** the turn towards the direction of travel, wrapped *)
Definition heading_delta (h : Host) (st : State) (t : Tram) (cur prev : GPS)
  : number :=
  wrap_rotation (sub (target_rotation h st cur prev) (rotation_y t)).

(** the tweens queued for a move from [prev] to [cur] *)
Definition transition (h : Host) (st : State) (t : Tram) (cur prev : GPS)
  : list tween :=
  let delta := heading_delta h st t cur prev in
  let distance := displacement h st cur prev in
  (if gt (abs delta) min_turn
   then [RotateTo (min (num 1) (div (abs delta) (rotationSpeed st)))
           (add (rotation_y t) delta) "power2.inOut"]
   else [])
  ++ [MoveTo (max (num 1) (div distance (tramSpeed st)))
        (calculatePosition st (lat cur) (lon cur)) "none" true].

(** the engine once the held tween is killed *)
Definition cleared (s : Sys) : engine :=
  match currentTween (this s) with
  | Some old => kill old (gsap s)
  | None => gsap s
  end.

Lemma wf_cleared (s : Sys) : wf (gsap s) -> wf (cleared s).
Proof. unfold cleared. destruct (currentTween (this s)); auto using wf_kill. Qed.

Lemma next_cleared (s : Sys) : next (cleared s) = next (gsap s).
Proof. unfold cleared. destruct (currentTween (this s)); reflexivity. Qed.

Lemma run_host {B} (k : Host -> M Sys B) (s : Sys) :
  (h <- the_host ;; k h) s = k (host (env s)) s.
Proof. reflexivity. Qed.

Lemma run_new_timeline {B} (k : nat -> M Sys B) (s : Sys) :
  (tl <- new_timeline ;; k tl) s
  = k (next (gsap s))
      (mkSys (env s)
         {| next := S (next (gsap s)); live := live (gsap s) ++ [(next (gsap s), [])] |}
         (this s)).
Proof. reflexivity. Qed.

Lemma to_newest_at (g : engine) (n : nat) (sts : list tween) (t : tween) :
  wf g -> n = next g ->
  to n t {| next := S n; live := live g ++ [(n, sts)] |}
  = {| next := S n; live := live g ++ [(n, sts ++ [t])] |}.
Proof. intros H ->. apply to_newest. exact H. Qed.

Lemma updateTramPosition_run (s : Sys) (t : Tram) (cur prev : GPS) :
  tram (this s) = Some t ->
  currentGPS (this s) = Some cur ->
  previousGPS (this s) = Some prev ->
  wf (gsap s) ->
  let h := host (env s) in
  let st := set_lastKnownPosition
              (Some (calculatePosition (this s) (lat cur) (lon cur))) (this s) in
  updateTramPosition s =
  (if lt (displacement h (this s) cur prev) (num (1 # 2))
   then mkSys (env s) (gsap s) st
   else mkSys (env s)
          {| next := S (next (gsap s));
             live := live (cleared s)
                     ++ [(next (gsap s), transition h (this s) t cur prev)] |}
          (set_isMoving true (set_currentTween (Some (next (gsap s))) st)),
   Ok tt).
Proof.
  intros Ht Hc Hp Hwf h st.
  pose proof (wf_cleared s Hwf) as Hwc.
  pose proof (next_cleared s) as Hn.
  unfold updateTramPosition. rewrite run_read. rewrite Ht, Hc, Hp.
  rewrite run_host, run_update.
  fold h. fold (displacement h (this s) cur prev).
  destruct (lt (displacement h (this s) cur prev) (num (1 # 2))); [reflexivity|].
  assert (K : forall B (k : unit -> M Sys B),
             (x <- match currentTween (this s) with
                   | Some old => animate (kill old)
                   | None => ret tt
                   end ;; k x) (mkSys (env s) (gsap s) st)
             = k tt (mkSys (env s) (cleared s) st)).
  { intros B k. unfold cleared. destruct (currentTween (this s)); reflexivity. }
  rewrite K. rewrite run_new_timeline. cbn [gsap env this]. rewrite Hn.
  unfold transition, heading_delta, target_rotation, displacement.
  cbv zeta.
  match goal with |- context [when ?b _] => destruct b end;
    unfold when.
  - rewrite run_animate. cbn [gsap env this].
    rewrite (to_newest_at _ _ Hwc (eq_sym Hn)).
    rewrite run_animate. cbn [gsap env this].
    rewrite (to_newest_at _ _ Hwc (eq_sym Hn)). reflexivity.
  - rewrite run_ret, run_animate. cbn [gsap env this].
    rewrite (to_newest_at _ _ Hwc (eq_sym Hn)). reflexivity.
Qed.















End TransitionFacts.

(** ** The display tracker: the bounded location history (C9) *)

Module TrackerFacts.
Import JS Eff Tracker.
Local Open Scope js_scope.

(** the last [n] elements of a list *)
Definition lastn {A} (n : nat) (l : list A) : list A :=
  skipn (List.length l - n) l.

Lemma lastn_length {A} (n : nat) (l : list A) :
  List.length (lastn n l) = Nat.min n (List.length l).
Proof. unfold lastn. rewrite length_skipn. lia. Qed.

Lemma tl_skipn {A} (k : nat) (l : list A) : List.tl (skipn k l) = skipn (S k) l.
Proof.
  revert l. induction k as [|k IH]; intros [|a l].
  - reflexivity.
  - reflexivity.
  - reflexivity.
  - cbn [skipn]. rewrite IH. destruct l; reflexivity.
Qed.

(** pushing on a window and dropping the oldest when it overflows is the
    window of the longer list *)
Lemma lastn_push {A} (n : nat) (l : list A) (a : A) :
  lastn n (l ++ [a])
  = (let w := lastn n l ++ [a] in
     if (n <? List.length w)%nat then List.tl w else w).
Proof.
  cbv zeta. unfold lastn. rewrite !length_app, length_skipn. cbn [List.length].
  destruct (Nat.ltb_spec n (List.length l - (List.length l - n) + 1)) as [H|H].
  - assert (Hl : (n <= List.length l)%nat) by lia.
    replace (List.length l + 1 - n)%nat with (S (List.length l - n)) by lia.
    rewrite <- tl_skipn. rewrite skipn_app.
    replace (List.length l - n - List.length l)%nat with 0%nat by lia.
    reflexivity.
  - assert (Hl : (List.length l < n)%nat) by lia.
    replace (List.length l + 1 - n)%nat with 0%nat by lia.
    replace (List.length l - n)%nat with 0%nat by lia.
    reflexivity.
Qed.

Section WithSubscribers.
Variable W : Type.

(** a method that leaves the history, its bound and the host alone, and
    only reads the clock *)
Definition Keeps {A} (c : M (Sys W) A) : Prop :=
  forall s : Sys W,
    locationHistory (this (fst (c s))) = locationHistory (this s) /\
    maxHistoryLength (this (fst (c s))) = maxHistoryLength (this s) /\
    host (env (fst (c s))) = host (env s).

Lemma Keeps_ret {A} (a : A) : Keeps (ret (S := Sys W) a).
Proof. intros s. cbn. auto. Qed.

Lemma Keeps_bind {A B} (c : M (Sys W) A) (k : A -> M (Sys W) B) :
  Keeps c -> (forall a, Keeps (k a)) -> Keeps (x <- c ;; k x).
Proof.
  intros Hc Hk s. unfold bind. destruct (Hc s) as (A1 & A2 & A3).
  destruct (c s) as [s1 [a|x]]; cbn [fst] in *; [|auto].
  destruct (Hk a s1) as (B1 & B2 & B3).
  repeat split; congruence.
Qed.

Lemma Keeps_try_catch {A} (c : M (Sys W) A) (k : exn -> M (Sys W) A) :
  Keeps c -> (forall x, Keeps (k x)) -> Keeps (try_catch c k).
Proof.
  intros Hc Hk s. unfold try_catch. destruct (Hc s) as (A1 & A2 & A3).
  destruct (c s) as [s1 [a|x]]; cbn [fst] in *; [auto|].
  destruct (Hk x s1) as (B1 & B2 & B3).
  repeat split; congruence.
Qed.

Lemma Keeps_read {A} (f : State W -> A) : Keeps (read f).
Proof. intros s. cbn. auto. Qed.

Lemma Keeps_the_host : Keeps (the_host (W := W)).
Proof. intros s. cbn. auto. Qed.

Lemma Keeps_liftE {A} (f : Env -> Env * A) :
  (forall e, host (fst (f e)) = host e) -> Keeps (liftE f).
Proof.
  intros H s. unfold liftE. specialize (H (env s)).
  destruct (f (env s)); cbn in *. auto.
Qed.

Lemma Keeps_Date_now : Keeps (liftE (W := W) Date_now).
Proof. apply Keeps_liftE. reflexivity. Qed.

Lemma Keeps_update (f : State W -> State W) :
  (forall st, locationHistory (f st) = locationHistory st /\
              maxHistoryLength (f st) = maxHistoryLength st) ->
  Keeps (update f).
Proof. intros H s. cbn. destruct (H (this s)). auto. Qed.

Lemma Keeps_call {A} (cb : callback W A) (a : A) : Keeps (call cb a).
Proof. intros s. unfold call. destruct (cb a (subs s)); cbn. auto. Qed.

Lemma Keeps_when (b : bool) (c : M (Sys W) unit) : Keeps c -> Keeps (when b c).
Proof. intros H. destruct b; [exact H | apply Keeps_ret]. Qed.

Lemma Keeps_forEach {A} (xs : list A) (f : A -> M (Sys W) unit) :
  (forall x, Keeps (f x)) -> Keeps (forEach xs f).
Proof.
  intros H. induction xs as [|x xs IH]; cbn [forEach].
  - apply Keeps_ret.
  - apply Keeps_bind; [apply H | intros _; exact IH].
Qed.

Ltac keeps_step :=
  first
    [ apply Keeps_ret
    | apply Keeps_read
    | apply Keeps_the_host
    | apply Keeps_Date_now
    | apply Keeps_call
    | apply Keeps_update; intros []; split; reflexivity
    | apply Keeps_when
    | apply Keeps_forEach; intros ?
    | apply Keeps_try_catch; [|intros ?]
    | apply Keeps_bind; [|intros ?]
    | match goal with
      | |- Keeps (match ?x with _ => _ end) => destruct x
      end ].

Lemma Keeps_detectMovement : Keeps (detectMovement (W := W)).
Proof. unfold detectMovement. repeat keeps_step. Qed.

Lemma Keeps_detectBuilding_from (bs : list Building) (la lo : number) :
  Keeps (detectBuilding_from (W := W) bs la lo).
Proof.
  induction bs as [|b bs IH]; cbn [detectBuilding_from].
  - apply Keeps_ret.
  - apply Keeps_bind; [apply Keeps_the_host | intros h].
    destruct (le _ _); [|exact IH].
    repeat keeps_step.
Qed.

Lemma Keeps_detectBuilding (la lo : number) :
  Keeps (detectBuilding (W := W) la lo).
Proof.
  unfold detectBuilding.
  apply Keeps_bind; [apply Keeps_read | intros bs].
  apply Keeps_detectBuilding_from.
Qed.

Lemma Keeps_checkStatusChange : Keeps (checkStatusChange (W := W)).
Proof. unfold checkStatusChange. repeat keeps_step. Qed.

Lemma Keeps_updateStatus : Keeps (updateStatus (W := W)).
Proof.
  unfold updateStatus.
  repeat (apply Keeps_bind; [|intros ?]); try apply Keeps_checkStatusChange;
    repeat keeps_step.
Qed.

Lemma Keeps_getTrackingInfo : Keeps (getTrackingInfo (W := W)).
Proof. unfold getTrackingInfo. repeat keeps_step. Qed.

(** what [addToHistory] makes of the history *)
Definition pushed (bound : nat) (history : list Location) (loc : Location)
  : list Location :=
  let l := history ++ [loc] in
  if (bound <? List.length l)%nat then List.tl l else l.

Lemma addToHistory_run (loc : Location) (s : Sys W) :
  addToHistory loc s
  = (mkSys (env s) (subs s)
       (set_locationHistory
          (pushed (maxHistoryLength (this s)) (locationHistory (this s)) loc)
          (this s)),
     Ok tt).
Proof.
  destruct s as [e w st]; destruct st.
  unfold addToHistory, pushed, update, modify, read, gets, when, bind; cbn.
  match goal with |- context [if ?b then _ else _] => destruct b end;
    reflexivity.
Qed.

(** the location [updatePosition] records: the coordinates given, stamped
    with the clock *)
Definition arriving (la lo : number) (s : Sys W) : Location :=
  mkLocation la lo (clock (host (env s)) (ticks (env s))).

(** [updatePosition] up to and including [addToHistory] *)
Definition recorded (la lo : number) (s : Sys W) : Sys W :=
  let loc := arriving la lo s in
  let st1 :=
    set_currentLocation (Some loc)
      (set_lastLocation (currentLocation (this s)) (this s)) in
  mkSys {| host := host (env s); ticks := S (ticks (env s));
           console := console (env s) |}
    (subs s)
    (set_locationHistory
       (pushed (maxHistoryLength st1) (locationHistory st1) loc) st1).

Lemma updatePosition_run (la lo : number) (s : Sys W) :
  updatePosition la lo s
  = (detectMovement (W := W) ;;
     detectBuilding la lo ;;
     updateStatus (W := W) ;;
     update (set_lastUpdateTime (W := W) (clock (host (env s)) (ticks (env s)))) ;;
     getTrackingInfo (W := W)) (recorded la lo s).
Proof.
  unfold updatePosition.
  unfold bind at 1, liftE at 1. cbn [Date_now fst snd].
  unfold bind at 1, update at 1, modify at 1.
  unfold bind at 1, update at 1, modify at 1.
  unfold bind at 1. rewrite addToHistory_run. reflexivity.
Qed.

Lemma updatePosition_history (la lo : number) (s : Sys W) :
  let s' := fst (updatePosition la lo s) in
  locationHistory (this s')
  = pushed (maxHistoryLength (this s)) (locationHistory (this s))
      (arriving la lo s) /\
  maxHistoryLength (this s') = maxHistoryLength (this s) /\
  host (env s') = host (env s).
Proof.
  cbv zeta. rewrite updatePosition_run.
  assert (K : Keeps (detectMovement (W := W) ;;
                     detectBuilding la lo ;;
                     updateStatus (W := W) ;;
                     update (set_lastUpdateTime (W := W)
                               (clock (host (env s)) (ticks (env s)))) ;;
                     getTrackingInfo (W := W))).
  { apply Keeps_bind; [apply Keeps_detectMovement | intros _].
    apply Keeps_bind; [apply Keeps_detectBuilding | intros _].
    apply Keeps_bind; [apply Keeps_updateStatus | intros _].
    apply Keeps_bind; [|intros _; apply Keeps_getTrackingInfo].
    apply Keeps_update. intros []; split; reflexivity. }
  destruct (K (recorded la lo s)) as (A & B & C).
  rewrite A, B, C. destruct s as [e w st]; destruct st. cbn. auto.
Qed.

Lemma reset_history (s : Sys W) :
  locationHistory (this (fst (reset (W := W) s))) = [] /\
  maxHistoryLength (this (fst (reset (W := W) s))) = maxHistoryLength (this s) /\
  host (env (fst (reset (W := W) s))) = host (env s).
Proof. destruct s as [e w st]; destruct st; cbn. auto. Qed.

Lemma onStatusChange_history (cb : callback W StatusChange) (s : Sys W) :
  locationHistory (this (fst (onStatusChange cb s))) = locationHistory (this s) /\
  maxHistoryLength (this (fst (onStatusChange cb s))) = maxHistoryLength (this s) /\
  host (env (fst (onStatusChange cb s))) = host (env s).
Proof. destruct s as [e w st]; destruct st; cbn. auto. Qed.

(** the locations that arrived since the tracker was made or last reset,
    oldest first, when the calls [os] are made from [s] with [acc] already
    arrived *)
Fixpoint trail (os : list (op W)) (s : Sys W) (acc : list Location)
  : list Location :=
  match os with
  | [] => acc
  | o :: rest =>
      trail rest (fst (run_op o s))
        (match o with
         | UpdatePosition _ la lo => acc ++ [arriving la lo s]
         | Reset _ => []
         | OnStatusChange _ => acc
         end)
  end.

Lemma fst_then_ret {A} (c : M (Sys W) A) (s : Sys W) :
  fst ((c ;; ret tt) s) = fst (c s).
Proof. unfold bind. destruct (c s) as [s1 [a|x]]; reflexivity. Qed.

Lemma run_ops_window (os : list (op W)) :
  forall (s : Sys W) (acc : list Location),
    maxHistoryLength (this s) = 10%nat ->
    locationHistory (this s) = lastn 10 acc ->
    locationHistory (this (run_ops os s)) = lastn 10 (trail os s acc) /\
    maxHistoryLength (this (run_ops os s)) = 10%nat.
Proof.
  induction os as [|o os IH]; intros s acc Hm Hh; [cbn; auto|].
  cbn [run_ops trail]. apply IH.
  - destruct o as [la lo| |cb]; cbn [run_op].
    + rewrite fst_then_ret.
      destruct (updatePosition_history la lo s) as (_ & B & _). congruence.
    + destruct (reset_history s) as (_ & B & _). congruence.
    + rewrite fst_then_ret.
      destruct (onStatusChange_history cb s) as (_ & B & _). congruence.
  - destruct o as [la lo| |cb]; cbn [run_op].
    + rewrite fst_then_ret.
      destruct (updatePosition_history la lo s) as (A & _ & _).
      rewrite A, Hm, Hh. unfold pushed. symmetry. apply lastn_push.
    + destruct (reset_history s) as (A & _ & _). rewrite A. reflexivity.
    + rewrite fst_then_ret.
      destruct (onStatusChange_history cb s) as (A & _ & _). congruence.
Qed.

(** C9.  [updatePosition] appends the new location to the history and,
    when the history is then longer than its bound, drops the oldest
    entry; nothing else in the call touches the history.  So in a tracker
    built by the constructor, after any calls of [updatePosition], [reset]
    and [onStatusChange], the history holds at most 10 entries: the last
    10 locations that arrived since the constructor or the last [reset],
    in arrival order. *)
Theorem history_is_recent_window :
  (forall (la lo : number) (s : Sys W),
      locationHistory (this (fst (updatePosition la lo s)))
      = pushed (maxHistoryLength (this s)) (locationHistory (this s))
          (arriving la lo s)) /\
  (forall (os : list (op W)) (e : Env) (w : W) (t1 t2 : Z),
      let s0 := mkSys e w (init W t1 t2) in
      locationHistory (this (run_ops os s0)) = lastn 10 (trail os s0 []) /\
      (List.length (locationHistory (this (run_ops os s0))) <= 10)%nat).
Proof.
  split.
  - intros la lo s. apply updatePosition_history.
  - intros os e w t1 t2 s0.
    destruct (@run_ops_window os s0 [] eq_refl eq_refl) as (A & _).
    split; [exact A|]. rewrite A, lastn_length. lia.
Qed.

End WithSubscribers.

(** twelve positions in a row: the history holds the last ten, the third
    arrival first *)
Definition twelve : list (op unit) :=
  map (fun n => UpdatePosition unit (num (inject_Z (Z.of_nat n))) (num 100))
      (seq 1 12).

Lemma history_is_recent_window_witness :
  let s := run_ops twelve (mkSys Demo.env0 tt (init unit Demo.t0 Demo.t0)) in
  (List.length (locationHistory (this s)) <= 10)%nat /\
  map lat (locationHistory (this s))
  = map (fun n => num (inject_Z (Z.of_nat n))) (seq 3 10).
Proof.
  destruct (history_is_recent_window unit) as (_ & H).
  destruct (H twelve Demo.env0 tt Demo.t0 Demo.t0) as (A & B).
  split; [exact B|]. vm_compute. reflexivity.
Defined.

End TrackerFacts.

(** ** ChannelClient *)

Module ServiceFacts.
Import JS Eff Validator Service.
Local Open Scope js_scope.

Section WithSubscribers.
Variable W : Type.

(** *** Notification (C10) *)

(** the subscribers' state after each callback of the list, in order, has
    run on the state the one before it left, whether it returned or threw *)
Definition delivered {A} (cbs : list (callback W A)) (a : A) (w : W) : W :=
  fold_left (fun w cb => fst (cb a w)) cbs w.

(** how many of them threw *)
Fixpoint thrown {A} (cbs : list (callback W A)) (a : A) (w : W) : nat :=
  match cbs with
  | [] => 0
  | cb :: rest =>
      (match snd (cb a w) with Ok _ => 0 | Throw _ => 1 end
       + thrown rest a (fst (cb a w)))%nat
  end.

(** the console with [n] more error lines *)
Definition with_errors (msg : string) (n : nat) (e : Env) : Env :=
  {| host := host e; ticks := ticks e;
     console := console e ++ repeat (Entry Error msg) n |}.

Lemma forEach_notify {A} (msg : string) (cbs : list (callback W A)) (a : A) :
  forall s : Sys W,
    forEach cbs (fun callback =>
      try_catch (call callback a) (fun _ => console_error (W := W) msg)) s
    = (mkSys (with_errors msg (thrown cbs a (subs s)) (env s)) (net s)
         (delivered cbs a (subs s)) (this s),
       Ok tt).
Proof.
  induction cbs as [|cb cbs IH]; intros [e n w st].
  - cbn. unfold with_errors; cbn. rewrite app_nil_r. destruct e; reflexivity.
  - cbn [forEach]. unfold bind at 1, try_catch at 1, call at 1.
    cbn [subs env net this].
    unfold delivered, thrown; fold (@thrown A).
    cbn [fold_left].
    destruct (cb a w) as [w1 [[]|x]]; cbn [fst snd].
    + rewrite IH. reflexivity.
    + unfold console_error, modify. rewrite IH. cbn [env net subs this].
      unfold with_errors, console_write; cbn.
      rewrite <- app_assoc. reflexivity.
Qed.

(** what a notification of the callbacks [cbs] with [a] leaves of [s] *)
Definition notified {A} (msg : string) (cbs : list (callback W A)) (a : A)
  (s : Sys W) : Sys W :=
  mkSys (with_errors msg (thrown cbs a (subs s)) (env s)) (net s)
    (delivered cbs a (subs s)) (this s).

Lemma notifyGPSUpdate_run (data : Wire.LocationUpdate) (s : Sys W) :
  notifyGPSUpdate data s
  = (notified "Error in GPS update callback:"
       (onGPSUpdateCallbacks (this s)) data s, Ok tt).
Proof. unfold notifyGPSUpdate. unfold bind, read, gets. apply forEach_notify. Qed.

Lemma notifyConnectionChange_run (connected : bool) (s : Sys W) :
  notifyConnectionChange connected s
  = (notified "Error in connection change callback:"
       (onConnectionChangeCallbacks (this s)) connected s, Ok tt).
Proof.
  unfold notifyConnectionChange. unfold bind, read, gets. apply forEach_notify.
Qed.

Lemma notifyError_run (error : value) (s : Sys W) :
  notifyError error s
  = (notified "Error in error callback:" (onErrorCallbacks (this s)) error s,
     Ok tt).
Proof. unfold notifyError. unfold bind, read, gets. apply forEach_notify. Qed.

Lemma delivered_app {A} (pre post : list (callback W A)) (a : A) (w : W) :
  delivered (pre ++ post) a w = delivered post a (delivered pre a w).
Proof. apply fold_left_app. Qed.

(** C10.  Notifying update, connection-change or error subscribers never
    throws.  Every registered callback runs, in registration order, on the
    subscribers' state the previous one left, whether or not an earlier
    one threw; in particular the callbacks registered after a throwing one
    all run.  The service's own state and the transport are untouched;
    the console gets one error line per throwing callback. *)
Theorem notification_survives_throwing_callbacks :
  (forall (data : Wire.LocationUpdate) (s : Sys W),
      notifyGPSUpdate data s
      = (notified "Error in GPS update callback:"
           (onGPSUpdateCallbacks (this s)) data s, Ok tt)) /\
  (forall (connected : bool) (s : Sys W),
      notifyConnectionChange connected s
      = (notified "Error in connection change callback:"
           (onConnectionChangeCallbacks (this s)) connected s, Ok tt)) /\
  (forall (error : value) (s : Sys W),
      notifyError error s
      = (notified "Error in error callback:"
           (onErrorCallbacks (this s)) error s, Ok tt)) /\
  (forall A (msg : string) (cbs : list (callback W A)) (a : A) (s : Sys W),
      this (notified msg cbs a s) = this s /\
      net (notified msg cbs a s) = net s /\
      subs (notified msg cbs a s)
      = fold_left (fun w cb => fst (cb a w)) cbs (subs s) /\
      console (env (notified msg cbs a s))
      = console (env s) ++ repeat (Entry Error msg) (thrown cbs a (subs s))) /\
  (forall A (msg : string) (pre post : list (callback W A))
          (cb : callback W A) (a : A) (s : Sys W) (x : exn),
      snd (cb a (delivered pre a (subs s))) = Throw x ->
      subs (notified msg (pre ++ cb :: post) a s)
      = delivered post a (fst (cb a (delivered pre a (subs s))))) /\
  (forall (cb : callback W Wire.LocationUpdate) (s : Sys W),
      onGPSUpdateCallbacks (this (exec (onGPSUpdate cb) s))
      = onGPSUpdateCallbacks (this s) ++ [cb]).
Proof.
  split; [exact notifyGPSUpdate_run|].
  split; [exact notifyConnectionChange_run|].
  split; [exact notifyError_run|].
  split; [intros; repeat split; reflexivity|].
  split.
  - intros A msg pre post cb a s x _. unfold notified; cbn [subs].
    rewrite delivered_app. reflexivity.
  - intros cb [e n w st]. destruct st; reflexivity.
Qed.

End WithSubscribers.

(** *** Subscribers to evaluate on *)

(** subscribers that write their name down; [faulty] throws after doing so *)
Definition logs (name : string) {A} : callback (list string) A :=
  fun _ w => (w ++ [name], Ok tt).
Definition faulty (name : string) {A} : callback (list string) A :=
  fun _ w => (w ++ [name], Throw (Raised (Str name))).

Definition demo_config : Config :=
  mkConfig "ws://localhost:3000" true 5 1000 5000.

(** a service just constructed, then given three update subscribers (the
    second one faulty), a connection subscriber and an error subscriber *)
Definition demo_service : Sys (list string) :=
  exec (construct (W := list string) ;;
        onGPSUpdate (logs "first") ;;
        onGPSUpdate (faulty "second") ;;
        onGPSUpdate (logs "third") ;;
        onConnectionChange (logs "connection") ;;
        onError (logs "error"))
    (mkSys Demo.env0 net0 [] (blank (list string) demo_config)).

Lemma notification_survives_throwing_callbacks_witness :
  let data := Demo.update_of Demo.campus None in
  let r := notifyGPSUpdate data demo_service in
  snd r = Ok tt /\
  subs (fst r) = ["first"; "second"; "third"]%string /\
  this (fst r) = this demo_service.
Proof.
  destruct (notification_survives_throwing_callbacks (list string))
    as (H & _ & _ & K & _).
  intros data r. subst r. rewrite H. cbn [fst snd].
  destruct (K _ "Error in GPS update callback:"%string
              (onGPSUpdateCallbacks (this demo_service)) data demo_service)
    as (A & _ & B & _).
  split; [reflexivity|]. split; [|exact A].
  rewrite B. vm_compute. reflexivity.
Defined.

End ServiceFacts.

(** ** ChannelClient: inbound messages (C3) and connecting (C4) *)

Module MessageFacts.
Import JS Eff Validator Service ServiceFacts.
Local Open Scope js_scope.

Section WithSubscribers.
Variable W : Type.

Lemma run_prop {B} (v : value) (k : string) (c : value -> M (Sys W) B)
  (s : Sys W) :
  v <> Undefined -> v <> Null ->
  (x <- prop (W := W) v k ;; c x) s = c (field v k) s.
Proof. intros H1 H2. destruct v; try contradiction; reflexivity. Qed.

Lemma run_read_state {A B} (f : State W -> A) (k : A -> M (Sys W) B) (s : Sys W) :
  (x <- read f ;; k x) s = k (f (this s)) s.
Proof. reflexivity. Qed.

Lemma valid_truthy (d : value) : isValidGPSData d = true -> truthy d = true.
Proof. unfold isValidGPSData. destruct (truthy d); [auto | discriminate]. Qed.

(** a point that is there and has a coordinate that cannot be printed:
    checking it throws *)
Definition unreadable (d : value) : bool :=
  truthy d && (unprintable (field d "lat") || unprintable (field d "lon")).

(** a message whose points cannot be checked: [c] is unreadable, or [c] is
    valid and [p] is unreadable *)
Definition garbled (gpsData : value) : bool :=
  unreadable (field gpsData "c")
  || (isValidGPSData (field gpsData "c") && unreadable (field gpsData "p")).

Lemma coordinate_of_unprintable (v : value) :
  unprintable v = true -> coordinate v = NaN.
Proof. destruct v; try discriminate. reflexivity. Qed.

(** a valid point has coordinates that print *)
Lemma valid_readable (d : value) :
  isValidGPSData d = true -> unreadable d = false.
Proof.
  intros H. unfold unreadable. unfold isValidGPSData in H.
  destruct (truthy d); [|reflexivity]. cbn [negb andb] in *. cbv zeta in H.
  destruct (unprintable (field d "lat")) eqn:Ela.
  { rewrite (coordinate_of_unprintable _ Ela) in H. discriminate H. }
  destruct (unprintable (field d "lon")) eqn:Elo; [|reflexivity].
  rewrite (coordinate_of_unprintable _ Elo) in H.
  cbn [isNaN negb andb] in H. rewrite andb_false_r in H. discriminate H.
Qed.

Lemma run_validate {B} (d : value) (k : bool -> M (Sys W) B) (s : Sys W) :
  unreadable d = false ->
  (ok <- validate (W := W) d ;; k ok) s = k (isValidGPSData d) s.
Proof.
  intros H. unfold validate. fold (unreadable d). rewrite H. reflexivity.
Qed.

Lemma run_validate_throws {B} (d : value) (k : bool -> M (Sys W) B)
  (s : Sys W) :
  unreadable d = true ->
  (ok <- validate (W := W) d ;; k ok) s
  = (s, Throw (TypeError "Cannot convert object to primitive value")).
Proof.
  intros H. unfold validate. fold (unreadable d). rewrite H. reflexivity.
Qed.

(** the time stamp stored for a point: the one it carries, or else the
    clock (minus [back] ms) as an ISO string *)
Definition stamp (d : value) (shift : Z -> Z) (e : Env) : Env * Timestamp :=
  if truthy (field d "t") then (e, TsValue (field d "t"))
  else let '(e1, now) := Date_now e in (e1, TsISO (shift now)).

(** a point as [processGPSData] stores it *)
Definition parsed (d : value) (t : Timestamp) : GPS :=
  mkGPS (parseFloat (field d "lat")) (parseFloat (field d "lon")) t.

(** a message one of whose points is missing or malformed is dropped *)
Lemma processGPSData_invalid (gpsData : value) (source : string) (s : Sys W) :
  gpsData <> Undefined -> gpsData <> Null ->
  garbled gpsData = false ->
  isValidGPSData (field gpsData "c") && isValidGPSData (field gpsData "p")
  = false ->
  processGPSData gpsData source s
  = (mkSys (console_write Warn "Invalid GPS data received:" (env s))
       (net s) (subs s) (this s), Ok tt).
Proof.
  intros H1 H2 Hg Hv. unfold processGPSData.
  rewrite run_prop by assumption.
  unfold garbled in Hg. apply orb_false_iff in Hg. destruct Hg as [Gc Gp].
  rewrite (run_validate _ _ _ Gc).
  destruct (isValidGPSData (field gpsData "c")) eqn:Ec.
  - cbn [andb] in Gp, Hv. rewrite (run_validate _ _ _ Gp). rewrite Hv.
    reflexivity.
  - reflexivity.
Qed.

(** the update a message with two valid points is mapped to, and the
    state it is delivered in *)
Definition accepted (gpsData : value) (source : string) (s : Sys W)
  : Sys W * Wire.LocationUpdate :=
  let c := field gpsData "c" in
  let p := field gpsData "p" in
  let '(e1, tc) := stamp c (fun now => now) (env s) in
  let '(e2, tp) := stamp p (fun now => (now - 5000)%Z) e1 in
  let '(e3, now) := Date_now e2 in
  (mkSys e3 (net s) (subs s)
     (set_previousGPS (Some (parsed p tp))
        (set_currentGPS (Some (parsed c tc))
           (set_previousGPS (currentGPS (this s)) (this s)))),
   Wire.mkUpdate (Some (parsed c tc)) (Some (parsed p tp))
     (if truthy (field gpsData "s") then field gpsData "s" else Str "active")
     source now).

(** a message with a valid [c] and a valid [p] is stored and delivered *)
Lemma processGPSData_valid (gpsData : value) (source : string) (s : Sys W) :
  isValidGPSData (field gpsData "c") = true ->
  isValidGPSData (field gpsData "p") = true ->
  processGPSData gpsData source s
  = (notified "Error in GPS update callback:"
       (onGPSUpdateCallbacks (this s))
       (snd (accepted gpsData source s))
       (fst (accepted gpsData source s)), Ok tt).
Proof.
  intros Hc Hp.
  assert (H1 : gpsData <> Undefined).
  { intros ->. discriminate Hc. }
  assert (H2 : gpsData <> Null).
  { intros ->. discriminate Hc. }
  pose proof (valid_truthy _ Hp) as Tp.
  unfold processGPSData. rewrite run_prop by assumption.
  rewrite (run_validate _ _ _ (valid_readable _ Hc)). rewrite Hc.
  rewrite (run_validate _ _ _ (valid_readable _ Hp)). rewrite Hp.
  cbn [negb orb].
  unfold accepted, stamp. rewrite Tp.
  destruct s as [e n w st].
  destruct (truthy (field (field gpsData "c") "t")) eqn:Etc;
    destruct (truthy (field (field gpsData "p") "t")) eqn:Etp;
    cbv beta iota zeta delta
      [when update modify read gets liftE bind ret Date_now fst snd
       env net subs this];
    rewrite notifyGPSUpdate_run; destruct st; reflexivity.
Qed.

(** a message with an unreadable point makes the call throw, before
    anything is stored or anybody is told *)
Lemma processGPSData_garbled (gpsData : value) (source : string) (s : Sys W) :
  gpsData <> Undefined -> gpsData <> Null ->
  garbled gpsData = true ->
  processGPSData gpsData source s
  = (s, Throw (TypeError "Cannot convert object to primitive value")).
Proof.
  intros H1 H2 Hg. unfold processGPSData.
  rewrite run_prop by assumption. unfold garbled in Hg.
  destruct (unreadable (field gpsData "c")) eqn:Gc.
  - apply run_validate_throws. exact Gc.
  - cbn [orb] in Hg. apply andb_true_iff in Hg. destruct Hg as [Hc Gp].
    rewrite (run_validate _ _ _ Gc). rewrite Hc.
    apply run_validate_throws. exact Gp.
Qed.

(** What [processGPSData] does with a message other than [undefined] and
    [null].  Both
    points are required: when [c] and [p] are both valid the message is
    stored (the parsed [c] as current, the parsed [p] as previous, each
    with the time stamp it carries or else the clock's) and the update is
    delivered to every update subscriber in registration order; when either
    is missing or malformed the message is dropped, with one console
    warning and nothing else (no subscriber of any kind runs, the cache
    and the transport are as they were); and when a point that has to be
    checked holds a coordinate that cannot be printed, the call throws a
    TypeError and leaves everything as it was. *)
Theorem processGPSData_outcomes (gpsData : value) (source : string)
  (s : Sys W) :
  gpsData <> Undefined -> gpsData <> Null ->
  processGPSData gpsData source s
  = if garbled gpsData
    then (s, Throw (TypeError "Cannot convert object to primitive value"))
    else if isValidGPSData (field gpsData "c")
            && isValidGPSData (field gpsData "p")
    then (mkSys (with_errors "Error in GPS update callback:"
                   (thrown (onGPSUpdateCallbacks (this s))
                      (snd (accepted gpsData source s)) (subs s))
                   (env (fst (accepted gpsData source s))))
            (net s)
            (delivered (onGPSUpdateCallbacks (this s))
               (snd (accepted gpsData source s)) (subs s))
            (this (fst (accepted gpsData source s))),
          Ok tt)
    else (mkSys (console_write Warn "Invalid GPS data received:" (env s))
            (net s) (subs s) (this s), Ok tt).
Proof.
  intros H1 H2.
  destruct (garbled gpsData) eqn:Hg.
  - apply processGPSData_garbled; assumption.
  - destruct (isValidGPSData (field gpsData "c")
              && isValidGPSData (field gpsData "p")) eqn:Hv.
    + apply andb_true_iff in Hv. destruct Hv as [Hc Hp].
      rewrite (processGPSData_valid gpsData source s Hc Hp).
      unfold notified, accepted.
      destruct (stamp (field gpsData "c") (fun now => now) (env s))
        as [e1 tc].
      destruct (stamp (field gpsData "p") (fun now => (now - 5000)%Z) e1)
        as [e2 tp].
      destruct (Date_now e2) as [e3 now].
      cbn [fst snd net subs this env]. destruct (this s); reflexivity.
    + apply processGPSData_invalid; assumption.
Qed.

(** *** Connecting (C4) *)

(** what the handler of the disconnect event leaves (lines 98-107) *)
Definition dropped (reason : string) (s : Sys W) : Sys W :=
  let s1 := notified "Error in connection change callback:"
              (onConnectionChangeCallbacks (this s)) false
              (mkSys (console_write Log "WebSocket disconnected:" (env s))
                 (net s) (subs s) (set_isConnected false (this s))) in
  mkSys (env s1)
    (if String.eqb reason "io server disconnect"
     then setTimeout CallConnect 1000 (net s1) else net s1)
    (subs s1) (this s1).

Lemma on_disconnect_run (reason : string) (s : Sys W) :
  on_disconnect reason s = (dropped reason s, Ok tt).
Proof.
  destruct s as [e n w st]. unfold on_disconnect, dropped.
  cbv beta iota zeta delta
    [update modify read gets bind ret console_log fst snd env net subs this].
  rewrite notifyConnectionChange_run. unfold notified.
  destruct (String.eqb reason "io server disconnect");
    cbv beta iota zeta delta
      [when update modify read gets bind ret transport fst snd env net subs
       this];
    destruct st; reflexivity.
Qed.

(** what [socket.disconnect()] leaves *)
Definition severed (sock : nat) (s : Sys W) : Sys W :=
  if is_connected sock (net s) then
    let s1 := mkSys (env s) (unmark sock (close sock (net s))) (subs s)
                (this s) in
    if is_wired sock (net s) then dropped "io client disconnect" s1 else s1
  else mkSys (env s) (close sock (net s)) (subs s) (this s).

Lemma socket_disconnect_run (sock : nat) (s : Sys W) :
  socket_disconnect sock s = (severed sock s, Ok tt).
Proof.
  destruct s as [e n w st]. unfold socket_disconnect, severed.
  cbv beta iota zeta delta
    [modify gets bind ret transport fst snd env net subs this].
  destruct (is_connected sock n); [|reflexivity].
  cbv beta iota zeta delta
    [when modify gets bind ret transport fst snd env net subs this].
  destruct (is_wired sock n); [|reflexivity].
  apply on_disconnect_run.
Qed.

Lemma run_socket_disconnect {B} (sock : nat) (k : unit -> M (Sys W) B)
  (s : Sys W) :
  (x <- socket_disconnect sock ;; k x) s = k tt (severed sock s).
Proof. unfold bind at 1. rewrite socket_disconnect_run. reflexivity. Qed.

(** the service once the socket it holds is disconnected *)
Definition released (s : Sys W) : Sys W :=
  match socket (this s) with
  | Some old => severed old s
  | None => s
  end.

(** [socket.disconnect()] touches the flag and the subscribers only *)
Lemma severed_this (sock : nat) (s : Sys W) :
  this (severed sock s)
  = if is_connected sock (net s) && is_wired sock (net s)
    then set_isConnected false (this s) else this s.
Proof.
  unfold severed, dropped, notified.
  destruct (is_connected sock (net s)), (is_wired sock (net s)); reflexivity.
Qed.

Lemma severed_subs (sock : nat) (s : Sys W) :
  subs (severed sock s)
  = if is_connected sock (net s) && is_wired sock (net s)
    then delivered (onConnectionChangeCallbacks (this s)) false (subs s)
    else subs s.
Proof.
  unfold severed, dropped, notified.
  destruct (is_connected sock (net s)), (is_wired sock (net s)); reflexivity.
Qed.

Lemma severed_net (sock : nat) (s : Sys W) :
  net (severed sock s)
  = if is_connected sock (net s) then unmark sock (close sock (net s))
    else close sock (net s).
Proof.
  unfold severed, dropped, notified.
  destruct (is_connected sock (net s)), (is_wired sock (net s)); reflexivity.
Qed.

Lemma released_this (s : Sys W) :
  this (released s) = this s \/ this (released s) = set_isConnected false (this s).
Proof.
  unfold released. destruct (socket (this s)) as [old|]; [|auto].
  rewrite severed_this. destruct (_ && _); auto.
Qed.

Lemma released_next (s : Sys W) :
  next_socket (net (released s)) = next_socket (net s).
Proof.
  unfold released. destruct (socket (this s)) as [old|]; [|reflexivity].
  rewrite severed_net. destruct (is_connected old (net s)); reflexivity.
Qed.

Lemma released_socket (s : Sys W) : socket (this (released s)) = socket (this s).
Proof. destruct (released_this s) as [E|E]; rewrite E; destruct (this s); reflexivity. Qed.

Lemma released_config (s : Sys W) : config (this (released s)) = config (this s).
Proof. destruct (released_this s) as [E|E]; rewrite E; destruct (this s); reflexivity. Qed.

Lemma connect_run (s : Sys W) :
  connect s
  = (let r := released s in
     mkSys (console_write Log "Attempting WebSocket connection to:" (env r))
       (wire (next_socket (net s))
          (fst (io (serverUrl (config (this s))) (net r))))
       (subs r)
       (set_socket (Some (next_socket (net s))) (this r)),
     Ok tt).
Proof.
  cbv zeta. rewrite <- (released_next s), <- (released_config s).
  unfold connect, released. rewrite run_read_state.
  destruct (socket (this s)) as [old|].
  - rewrite run_socket_disconnect.
    destruct (severed old s) as [e n w st].
    cbv beta iota zeta delta
      [update modify read gets bind ret transport console_log io fst snd
       env net subs this].
    reflexivity.
  - destruct s as [e n w st].
    cbv beta iota zeta delta
      [update modify read gets bind ret transport console_log io fst snd
       env net subs this].
    reflexivity.
Qed.

Lemma is_open_close (sock : nat) (n : Net) : is_open sock (close sock n) = false.
Proof.
  unfold is_open, close; cbn.
  induction (open n) as [|p l IH]; cbn; [reflexivity|].
  destruct (Nat.eqb (fst p) sock) eqn:E; cbn; [exact IH|].
  rewrite E. exact IH.
Qed.

Lemma is_open_app (sock : nat) (l1 l2 : list (nat * string)) :
  existsb (fun p => Nat.eqb (fst p) sock) (l1 ++ l2)
  = existsb (fun p => Nat.eqb (fst p) sock) l1
    || existsb (fun p => Nat.eqb (fst p) sock) l2.
Proof. apply existsb_app. Qed.

Lemma open_released (s : Sys W) (old : nat) :
  socket (this s) = Some old ->
  open (net (released s)) = open (close old (net s)).
Proof.
  intros Hs. unfold released. rewrite Hs, severed_net.
  destruct (is_connected old (net s)); reflexivity.
Qed.

Lemma wired_released (s : Sys W) : wired (net (released s)) = wired (net s).
Proof.
  unfold released. destruct (socket (this s)) as [old|]; [|reflexivity].
  rewrite severed_net. destruct (is_connected old (net s)); reflexivity.
Qed.

Lemma timers_released (s : Sys W) : timers (net (released s)) = timers (net s).
Proof.
  unfold released. destruct (socket (this s)) as [old|]; [|reflexivity].
  unfold severed, dropped, notified.
  destruct (is_connected old (net s)), (is_wired old (net s)); reflexivity.
Qed.

(** the new socket: open, wired, held, and the old one closed *)
Lemma fresh_socket_on_connect (s : Sys W) (old : nat) :
  socket (this s) = Some old ->
  (old < next_socket (net s))%nat ->
  let s' := exec (connect (W := W)) s in
  let new := next_socket (net s) in
  socket (this s') = Some new /\
  new <> old /\
  is_open old (net s') = false /\
  is_open new (net s') = true /\
  In new (wired (net s')).
Proof.
  intros Hs Hlt s' new. subst s' new. unfold exec.
  rewrite connect_run. cbv zeta. cbn [fst this net].
  assert (Hne : next_socket (net s) <> old) by lia.
  split; [destruct (this (released s)); reflexivity|]. split; [exact Hne|].
  unfold is_open, wire, io. cbn [open wired fst].
  rewrite (open_released s Hs), (released_next s).
  rewrite !existsb_app. cbn [existsb fst]. rewrite Nat.eqb_refl.
  pose proof (is_open_close old (net s)) as Hc. unfold is_open in Hc.
  rewrite Hc.
  destruct (Nat.eqb (next_socket (net s)) old) eqn:E;
    [apply Nat.eqb_eq in E; contradiction|].
  split; [reflexivity|]. split; [apply orb_true_r|].
  apply in_or_app; right; left; reflexivity.
Qed.

Lemma handle_Connect_run (s : Sys W) (sock : nat) :
  socket (this s) = Some sock ->
  handle Connect s
  = (let s1 := notified "Error in connection change callback:"
                 (onConnectionChangeCallbacks (this s)) true
                 (mkSys (console_write Log "WebSocket connected:" (env s))
                    (net s) (subs s)
                    (set_connectionAttempts 0%Z
                       (set_isConnected true (this s)))) in
     mkSys (env s1) (emit sock "request-gps-data" (net s1)) (subs s1) (this s1),
     Ok tt).
Proof.
  intros Hs. destruct s as [e n w st]. cbn [this] in Hs.
  unfold handle.
  cbv beta iota zeta delta
    [update modify read gets bind ret console_log fst snd env net subs this].
  rewrite Hs.
  cbv beta iota zeta delta
    [update modify read gets bind ret console_log fst snd env net subs this].
  rewrite notifyConnectionChange_run.
  unfold requestGPSData, notified.
  cbv beta iota zeta delta
    [update modify read gets bind ret transport fst snd env net subs this].
  destruct st; cbn in Hs |- *. rewrite Hs. reflexivity.
Qed.

(** C4, as the code has it.  [connect] is not a no-op on a service that
    holds a socket: it disconnects that socket, creates a new one, makes it
    the held socket and puts the handlers on it.  If the old socket was
    connected, its disconnect handler runs during the call: [isConnected]
    becomes false and every connection subscriber is told [false];
    otherwise [isConnected] and the subscribers are left as they are.
    Either way [connectionAttempts] keeps its value and no timeout is set.
    It is the handler of the socket's connect event that sets
    [isConnected], resets [connectionAttempts] to zero, tells the
    connection subscribers [true] and, last of all, requests the latest
    data on the held socket. *)
Theorem connect_replaces_socket :
  (forall (s : Sys W) (old : nat),
      socket (this s) = Some old ->
      (old < next_socket (net s))%nat ->
      let s' := exec (connect (W := W)) s in
      let new := next_socket (net s) in
      socket (this s') = Some new /\
      new <> old /\
      is_open old (net s') = false /\
      is_open new (net s') = true /\
      In new (wired (net s')) /\
      connectionAttempts (this s') = connectionAttempts (this s) /\
      timers (net s') = timers (net s) /\
      isConnected (this s')
      = (if is_connected old (net s) && is_wired old (net s) then false
         else isConnected (this s)) /\
      subs s'
      = (if is_connected old (net s) && is_wired old (net s)
         then delivered (onConnectionChangeCallbacks (this s)) false (subs s)
         else subs s)) /\
  (forall (s : Sys W) (sock : nat),
      socket (this s) = Some sock ->
      let r := handle Connect s in
      snd r = Ok tt /\
      isConnected (this (fst r)) = true /\
      connectionAttempts (this (fst r)) = 0%Z /\
      last (sent (net (fst r))) (sock, EmptyString)
      = (sock, "request-gps-data"%string) /\
      subs (fst r)
      = delivered (onConnectionChangeCallbacks (this s)) true (subs s)).
Proof.
  split.
  - intros s old Hs Hlt s' new.
    destruct (fresh_socket_on_connect s Hs Hlt) as (A & B & C & D & E).
    fold s' new in A, C, D, E.
    split; [exact A|]. split; [exact B|]. split; [exact C|].
    split; [exact D|]. split; [exact E|].
    subst s' new. unfold exec. rewrite connect_run. cbv zeta.
    cbn [fst this net subs].
    pose proof (timers_released s) as T.
    unfold released in *. rewrite Hs in *.
    rewrite severed_this, severed_subs.
    split; [|split; [exact T|]];
      destruct (is_connected old (net s) && is_wired old (net s));
      destruct (this s); auto.
  - intros s sock Hs r. subst r. rewrite (handle_Connect_run s Hs).
    cbv zeta. unfold notified. cbn [fst snd this net subs env emit sent].
    rewrite last_last.
    destruct (this s); cbn. repeat split; reflexivity.
Qed.

End WithSubscribers.
(** *** Messages and services to evaluate on *)

(** a point as JSON carries it: the coordinates are the binary64 numbers
    the decimals [la] and [lo] read as *)
Definition wire_point (la lo : Q) : value :=
  Object [("lat", Number (dec la)); ("lon", Number (dec lo));
          ("t", Number (num (inject_Z Demo.t0)))]%string.

(** a complete message (13.6, 100.8 after 13.5, 100.8), one without [p],
    and one without [c] *)
Definition msg_full : value :=
  Eval vm_compute in
  Object [("c", wire_point (136 # 10) (1008 # 10));
          ("p", wire_point (135 # 10) (1008 # 10));
          ("s", Str "active")]%string.
Definition msg_without_p : value :=
  Eval vm_compute in
  Object [("c", wire_point (136 # 10) (1008 # 10))]%string.
Definition msg_without_c : value :=
  Eval vm_compute in
  Object [("p", wire_point (135 # 10) (1008 # 10))]%string.

(** [demo_service] once its socket has connected *)
Definition connected_service : Sys (list string) :=
  exec (deliver Connect) demo_service.

Lemma processGPSData_outcomes_witness :
  let r := processGPSData msg_full "websocket-broadcast" demo_service in
  snd r = Ok tt /\
  subs (fst r) = ["first"; "second"; "third"]%string.
Proof.
  assert (H1 : msg_full <> Undefined) by discriminate.
  assert (H2 : msg_full <> Null) by discriminate.
  pose proof (@processGPSData_outcomes (list string) msg_full
                "websocket-broadcast"%string demo_service H1 H2) as H.
  cbv zeta. rewrite H. vm_compute. split; reflexivity.
Defined.

(** C3: the code at a message with a valid [c] and no [p], and at two
    more.  The message without [p] is dropped: the handler returns, no
    subscriber runs and the cache stays as it was.  A message without [c]
    is dropped without an error event: the error subscriber does not run.
    A message that is [undefined] makes the handler throw. *)
Lemma message_without_previous_is_dropped :
  (let r := handle (GpsDataUpdate msg_without_p) demo_service in
   isValidGPSData (field msg_without_p "c") = true /\
   field msg_without_p "p" = Undefined /\
   snd r = Ok tt /\
   subs demo_service = [] /\
   subs (fst r) = [] /\
   currentGPS (this (fst r)) = currentGPS (this demo_service) /\
   previousGPS (this (fst r)) = previousGPS (this demo_service) /\
   console (env (fst r))
   = console (env demo_service)
     ++ [Entry Log "GPS data broadcast received:";
         Entry Warn "Invalid GPS data received:"]) /\
  (let r := handle (GpsDataUpdate msg_without_c) demo_service in
   List.length (onErrorCallbacks (this demo_service)) = 1%nat /\
   snd r = Ok tt /\
   subs (fst r) = []) /\
  (let r := handle (GpsDataUpdate Undefined) demo_service in
   snd r = Throw (TypeError "Cannot read properties of undefined")).
Proof. vm_compute. repeat split; reflexivity. Qed.

Lemma connect_replaces_socket_witness :
  (let s' := exec (connect (W := list string)) connected_service in
   socket (this s') = Some 1%nat /\
   is_open 0 (net s') = false /\
   is_open 1 (net s') = true /\
   isConnected (this s') = false) /\
  (let r := handle Connect demo_service in
   snd r = Ok tt /\
   isConnected (this (fst r)) = true /\
   connectionAttempts (this (fst r)) = 0%Z).
Proof.
  destruct (connect_replaces_socket (list string)) as (Replace & Reset).
  split.
  - assert (Hs : socket (this connected_service) = Some 0%nat)
      by (vm_compute; reflexivity).
    assert (Hn : next_socket (net connected_service) = 1%nat)
      by (vm_compute; reflexivity).
    assert (Hlt : (0 < next_socket (net connected_service))%nat)
      by (rewrite Hn; lia).
    assert (Hc : is_connected 0 (net connected_service)
                 && is_wired 0 (net connected_service) = true)
      by (vm_compute; reflexivity).
    destruct (Replace connected_service 0%nat Hs Hlt)
      as (A & _ & B & C & _ & _ & _ & D & _).
    rewrite Hn in A, C. rewrite Hc in D.
    exact (conj A (conj B (conj C D))).
  - assert (Hs : socket (this demo_service) = Some 0%nat)
      by (vm_compute; reflexivity).
    destruct (Reset demo_service 0%nat Hs) as (A & B & C & _).
    exact (conj A (conj B C)).
Defined.

(** C4 as the specification words it fails: the service below is
    connected on socket 0; after [connect] socket 0 is closed, the service
    holds the new socket 1, which is not connected, it is marked
    disconnected and its connection subscriber has been told so. *)
Lemma connect_while_connected_reconnects :
  let s := connected_service in
  let s' := exec (connect (W := list string)) s in
  isConnected (this s) = true /\
  socket (this s) = Some 0%nat /\
  is_open 0 (net s) = true /\
  is_connected 0 (net s) = true /\
  socket (this s') = Some 1%nat /\
  is_open 0 (net s') = false /\
  open (net s') <> open (net s) /\
  is_connected 1 (net s') = false /\
  isConnected (this s') = false /\
  subs s' <> subs s.
Proof. vm_compute. repeat split; try reflexivity; discriminate. Qed.

End MessageFacts.

(* ===================================================================== *)
(** * Further properties of the code *)
(* ===================================================================== *)

(** ** UpdateValidator: symmetry and the edges of staleness *)

Module ValidatorEdges.
Import JS Eff Validator NumberFacts.

Lemma abs_sub_comm (x y : number) : abs (sub x y) = abs (sub y x).
Proof. rewrite (sub_swap x y), abs_neg. reflexivity. Qed.

(** [hasGPSChanged] does not depend on which point is called new: the
    absolute differences are the same both ways, and an absent point on
    either side gives true. *)
Theorem hasGPSChanged_symmetric (a b : option GPS) :
  hasGPSChanged a b = hasGPSChanged b a.
Proof.
  destruct a as [a|], b as [b|]; try reflexivity.
  unfold hasGPSChanged.
  rewrite (abs_sub_comm (lat a) (lat b)), (abs_sub_comm (lon a) (lon b)).
  reflexivity.
Qed.




End ValidatorEdges.

(** ** ChannelClient: the rest of its interface *)

Module ServiceMore.
Import JS Eff Validator Service ServiceFacts MessageFacts.
Local Open Scope js_scope.

Section WithSubscribers.
Variable W : Type.

(** WebSocketGPSService.js:310.  [fromCache] is the constant [false] in
    both results and is left out of the record. *)
Definition getSimulationData : M (Sys W) Wire.LocationUpdate :=
  s <- read (fun s => s) ;;
  now <- liftE Date_now ;;
  ret (Wire.mkUpdate (currentGPS s) (previousGPS s) (Str "simulated")
         "simulation" now).

(** WebSocketGPSService.js:189; the value the promise resolves to *)
Definition getBothGPSPoints : M (Sys W) Wire.LocationUpdate :=
  s <- read (fun s => s) ;;
  match isConnected s, currentGPS s with
  | true, Some _ =>
      now <- liftE Date_now ;;
      ret (Wire.mkUpdate (currentGPS s) (previousGPS s) (Str "active")
             "websocket" now)
  | _, _ => getSimulationData
  end.

(** WebSocketGPSService.js:281 *)
Definition ping : M (Sys W) unit :=
  s <- read (fun s => s) ;;
  match isConnected s, socket s with
  | true, Some sock => transport (emit sock "ping")
  | _, _ => ret tt
  end.

(** WebSocketGPSService.js:363 *)
Definition forceReconnect : M (Sys W) unit :=
  console_log "Forcing WebSocket reconnection..." ;;
  old <- read (socket (W := W)) ;;
  match old with
  | Some sock => socket_disconnect sock
  | None => ret tt
  end ;;
  transport (setTimeout CallConnect 1000).

(** what can happen to a service: its public methods, the events of its
    socket, and its timeouts firing *)
Inductive op : Type :=
| Handle (ev : event)
| CallConnectNow
| CallDisconnect
| CallForceReconnect
| CallRequest
| CallPing
| Subscribe (cb : callback W Wire.LocationUpdate)
| SubscribeConnection (cb : callback W bool)
| SubscribeError (cb : callback W value)
| Fire (t : task).

Definition run_op (o : op) : M (Sys W) unit :=
  match o with
  | Handle ev => deliver ev
  | CallConnectNow => connect (W := W)
  | CallDisconnect => disconnect (W := W)
  | CallForceReconnect => forceReconnect
  | CallRequest => requestGPSData (W := W)
  | CallPing => ping
  | Subscribe cb => onGPSUpdate cb
  | SubscribeConnection cb => onConnectionChange cb
  | SubscribeError cb => onError cb
  | Fire t => fire t
  end.

(** one after the other; a handler that throws leaves the state it had
    reached *)
Fixpoint run_ops (os : list op) (s : Sys W) : Sys W :=
  match os with
  | [] => s
  | o :: rest => run_ops rest (exec (run_op o) s)
  end.

(** *** The cache is never empty *)

Definition cached (s : Sys W) : Prop :=
  currentGPS (this s) <> None /\ previousGPS (this s) <> None.

Definition Caching {A} (c : M (Sys W) A) : Prop :=
  forall s, cached s -> cached (fst (c s)).

Lemma Caching_ret {A} (a : A) : Caching (ret (S := Sys W) a).
Proof. intros s H. exact H. Qed.

Lemma Caching_throw {A} (x : exn) : Caching (throw (S := Sys W) (A := A) x).
Proof. intros s H. exact H. Qed.

Lemma Caching_bind {A B} (c : M (Sys W) A) (k : A -> M (Sys W) B) :
  Caching c -> (forall a, Caching (k a)) -> Caching (x <- c ;; k x).
Proof.
  intros Hc Hk s H. unfold bind. specialize (Hc s H).
  destruct (c s) as [s1 [a|x]]; cbn [fst] in *; [apply Hk; exact Hc | exact Hc].
Qed.

Lemma Caching_try_catch {A} (c : M (Sys W) A) (k : exn -> M (Sys W) A) :
  Caching c -> (forall x, Caching (k x)) -> Caching (try_catch c k).
Proof.
  intros Hc Hk s H. unfold try_catch. specialize (Hc s H).
  destruct (c s) as [s1 [a|x]]; cbn [fst] in *; [exact Hc | apply Hk; exact Hc].
Qed.

Lemma Caching_frame {A} (c : M (Sys W) A) :
  (forall s, this (fst (c s)) = this s) -> Caching c.
Proof. intros H s [A1 A2]. unfold cached. rewrite H. auto. Qed.

Lemma Caching_update (f : State W -> State W) :
  (forall st, currentGPS st <> None -> previousGPS st <> None ->
              currentGPS (f st) <> None /\ previousGPS (f st) <> None) ->
  Caching (update f).
Proof. intros H s [A1 A2]. unfold cached; cbn. apply H; assumption. Qed.

Lemma Caching_when (b : bool) (c : M (Sys W) unit) :
  Caching c -> Caching (when b c).
Proof. intros H. destruct b; [exact H | apply Caching_ret]. Qed.

Lemma Caching_forEach {A} (xs : list A) (f : A -> M (Sys W) unit) :
  (forall x, Caching (f x)) -> Caching (forEach xs f).
Proof.
  intros H. induction xs as [|x xs IH]; cbn [forEach].
  - apply Caching_ret.
  - apply Caching_bind; [apply H | intros _; exact IH].
Qed.

Ltac caching_step :=
  first
    [ apply Caching_ret
    | apply Caching_throw
    | apply Caching_frame; intros [? ? ? ?]; reflexivity
    | apply Caching_frame; intros [? ? ? ?]; cbn;
      match goal with |- context [let '(_, _) := ?x in _] => destruct x end;
      reflexivity
    | apply Caching_update; intros [] ? ?; cbn in *; split;
      first [assumption | discriminate]
    | apply Caching_when
    | apply Caching_forEach; intros ?
    | apply Caching_try_catch; [|intros ?]
    | apply Caching_bind; [|intros ?]
    | match goal with
      | |- Caching (match ?x with _ => _ end) => destruct x
      end ].

Lemma Caching_call {A} (cb : callback W A) (a : A) : Caching (call cb a).
Proof.
  apply Caching_frame. intros s. unfold call.
  destruct (cb a (subs s)); reflexivity.
Qed.

Lemma Caching_liftE {A} (f : Env -> Env * A) : Caching (liftE (W := W) f).
Proof.
  apply Caching_frame. intros s. unfold liftE. destruct (f (env s)); reflexivity.
Qed.

Lemma Caching_prop (v : value) (k : string) : Caching (prop (W := W) v k).
Proof. destruct v; first [apply Caching_throw | apply Caching_ret]. Qed.

Lemma Caching_notifyGPSUpdate (d : Wire.LocationUpdate) :
  Caching (notifyGPSUpdate (W := W) d).
Proof.
  apply Caching_frame. intros s. rewrite notifyGPSUpdate_run. reflexivity.
Qed.

Lemma Caching_notifyConnectionChange (b : bool) :
  Caching (notifyConnectionChange (W := W) b).
Proof.
  apply Caching_frame. intros s. rewrite notifyConnectionChange_run. reflexivity.
Qed.

Lemma Caching_notifyError (v : value) : Caching (notifyError (W := W) v).
Proof. apply Caching_frame. intros s. rewrite notifyError_run. reflexivity. Qed.

Lemma Caching_socket_disconnect (sock : nat) :
  Caching (socket_disconnect (W := W) sock).
Proof.
  intros s [A B]. rewrite socket_disconnect_run. cbn [fst]. unfold cached.
  rewrite severed_this. destruct (_ && _); destruct (this s); cbn in *; auto.
Qed.

Lemma Caching_connect : Caching (connect (W := W)).
Proof.
  intros s [A B]. rewrite connect_run. unfold cached; cbv zeta; cbn [fst this].
  destruct (released_this s) as [E|E]; rewrite E; destruct (this s);
    cbn in *; auto.
Qed.

Lemma Caching_validate (d : value) : Caching (validate (W := W) d).
Proof.
  unfold validate. destruct (_ && _); [apply Caching_throw | apply Caching_ret].
Qed.

Lemma Caching_requestGPSData : Caching (requestGPSData (W := W)).
Proof.
  apply Caching_frame. intros [e n w st]. unfold requestGPSData.
  cbv beta iota zeta delta [bind read gets this fst].
  destruct (isConnected st), (socket st); reflexivity.
Qed.

Lemma Caching_processGPSData (gpsData : value) (source : string) :
  Caching (processGPSData (W := W) gpsData source).
Proof.
  unfold processGPSData.
  apply Caching_bind; [apply Caching_prop | intros c].
  apply Caching_bind; [apply Caching_validate | intros valid_c].
  apply Caching_bind;
    [destruct valid_c; [apply Caching_validate | apply Caching_ret]
    | intros valid_p].
  destruct (_ || _).
  - apply Caching_frame. intros [? ? ? ?]. reflexivity.
  - apply Caching_bind; [|intros _].
    { apply Caching_update. intros [] ? ?; cbn in *. auto. }
    apply Caching_bind; [|intros t].
    { destruct (truthy _); [apply Caching_ret|].
      apply Caching_bind; [apply Caching_liftE | intros; apply Caching_ret]. }
    apply Caching_bind; [|intros _].
    { apply Caching_update. intros [] ? ?; cbn in *.
      split; [discriminate | assumption]. }
    apply Caching_bind; [|intros _].
    { apply Caching_when.
      apply Caching_bind; [|intros tp].
      { destruct (truthy _); [apply Caching_ret|].
        apply Caching_bind; [apply Caching_liftE | intros; apply Caching_ret]. }
      apply Caching_update. intros [] ? ?; cbn in *.
      split; [assumption | discriminate]. }
    apply Caching_bind; [apply Caching_frame; reflexivity | intros s1].
    apply Caching_bind; [apply Caching_liftE | intros now].
    apply Caching_notifyGPSUpdate.
Qed.

Lemma Caching_console (l : level) (msg : string) :
  Caching (modify (fun s : Sys W =>
             mkSys (console_write l msg (env s)) (net s) (subs s) (this s))).
Proof. apply Caching_frame. reflexivity. Qed.

Lemma Caching_transport (f : Net -> Net) : Caching (transport (W := W) f).
Proof. apply Caching_frame. reflexivity. Qed.

Lemma Caching_read {A} (f : State W -> A) : Caching (read f).
Proof. apply Caching_frame. reflexivity. Qed.

Ltac caching :=
  repeat first
    [ apply Caching_ret
    | apply Caching_throw
    | apply Caching_read
    | apply Caching_liftE
    | apply Caching_prop
    | apply Caching_transport
    | apply Caching_console
    | apply Caching_notifyGPSUpdate
    | apply Caching_notifyConnectionChange
    | apply Caching_notifyError
    | apply Caching_requestGPSData
    | apply Caching_processGPSData
    | apply Caching_connect
    | apply Caching_socket_disconnect
    | apply Caching_update; intros [] ? ?; cbn in *; split; assumption
    | apply Caching_when
    | apply Caching_bind; [|intros ?]
    | match goal with
      | |- Caching (match ?x with _ => _ end) => destruct x
      end ].

Lemma Caching_handle (ev : event) : Caching (handle (W := W) ev).
Proof.
  destruct ev;
    unfold handle, on_disconnect, console_log, console_warn, console_error;
    caching.
Qed.

Lemma Caching_deliver (ev : event) : Caching (deliver (W := W) ev).
Proof.
  unfold deliver. apply Caching_bind; [apply Caching_read | intros held].
  apply Caching_bind; [|intros _; apply Caching_handle].
  destruct held, ev; caching.
Qed.

Lemma Caching_run_op (o : op) : Caching (run_op o).
Proof.
  destruct o; cbn [run_op].
  - apply Caching_deliver.
  - apply Caching_connect.
  - unfold disconnect; caching.
  - unfold forceReconnect, console_log; caching.
  - apply Caching_requestGPSData.
  - unfold ping; caching.
  - unfold onGPSUpdate. apply Caching_update. intros [] ? ?; cbn in *. auto.
  - unfold onConnectionChange. apply Caching_update. intros [] ? ?; cbn in *. auto.
  - unfold onError. apply Caching_update. intros [] ? ?; cbn in *. auto.
  - destruct t. apply Caching_connect.
Qed.

Lemma cached_construct (e : Env) (n : Net) (w : W) (cfg : Config) :
  cached (exec (construct (W := W)) (mkSys e n w (blank W cfg))).
Proof.
  unfold exec, construct.
  cbv beta iota zeta delta
    [initializeSimulationData update modify read gets liftE bind ret
     console_log Date_now fst snd env net subs this].
  rewrite connect_run. unfold cached; cbn. split; discriminate.
Qed.

Lemma cached_run_ops (os : list op) :
  forall s, cached s -> cached (run_ops os s).
Proof.
  induction os as [|o os IH]; intros s H; [exact H|].
  cbn [run_ops]. apply IH. apply Caching_run_op. exact H.
Qed.

(** Once constructed, the service always has a current and a previous
    point in its cache, whatever methods are called, events arrive or
    timeouts fire (the constructor seeds the cache with the simulation
    points and nothing ever empties it).  So [getBothGPSPoints] always
    yields both points, returns normally, and labels them active when the
    service is connected and simulated otherwise. *)
Theorem cache_is_never_empty (os : list op) (e : Env) (n : Net) (w : W)
  (cfg : Config) :
  let s := run_ops os (exec (construct (W := W)) (mkSys e n w (blank W cfg))) in
  exists (c p : GPS) (e' : Env) (now : Z),
    currentGPS (this s) = Some c /\
    previousGPS (this s) = Some p /\
    getBothGPSPoints s
    = (mkSys e' (net s) (subs s) (this s),
       Ok (Wire.mkUpdate (Some c) (Some p)
             (Str (if isConnected (this s) then "active" else "simulated"))
             (if isConnected (this s) then "websocket" else "simulation")
             now)).
Proof.
  intros s.
  assert (H : cached s).
  { apply cached_run_ops, cached_construct. }
  destruct H as [Hc Hp]. destruct s as [e1 n1 w1 st]. cbn [this net subs] in *.
  destruct (currentGPS st) as [c|] eqn:Ec; [|contradiction].
  destruct (previousGPS st) as [p|] eqn:Ep; [|contradiction].
  exists c, p, (fst (Date_now e1)), (snd (Date_now e1)).
  split; [reflexivity|]. split; [reflexivity|].
  unfold getBothGPSPoints, getSimulationData.
  cbv beta iota zeta delta
    [update modify read gets liftE bind ret Date_now fst snd env net subs this].
  rewrite Ec.
  destruct (isConnected st);
    cbv beta iota zeta delta
      [update modify read gets liftE bind ret Date_now fst snd env net subs
       this];
    rewrite ?Ec, ?Ep; reflexivity.
Qed.

(** *** Connection errors *)

Definition failure_msg : value := Str "Connection failed, using simulation data".

Lemma handle_ConnectError_run (error : value) (s : Sys W) :
  error <> Undefined -> error <> Null ->
  let st1 := set_connectionAttempts (connectionAttempts (this s) + 1)%Z (this s) in
  let e1 := console_write Warn "WebSocket connection error:" (env s) in
  handle (ConnectError error) s
  = (if (connectionAttempts (this s) + 1 >=? maxConnectionAttempts (this s))%Z
     then notified "Error in error callback:" (onErrorCallbacks (this s))
            failure_msg
            (mkSys (console_write Warn
                      "Max connection attempts reached, falling back to simulation"
                      e1)
               (net s) (subs s) st1)
     else mkSys e1 (net s) (subs s) st1,
     Ok tt).
Proof.
  intros H1 H2 st1 e1. subst st1 e1. unfold handle.
  rewrite run_prop by assumption.
  destruct s as [e n w st].
  cbv beta iota zeta delta
    [update modify read gets bind ret console_warn when fst snd env net subs
     this].
  destruct st; cbn [connectionAttempts maxConnectionAttempts
                    set_connectionAttempts].
  destruct (_ >=? _)%Z; [|reflexivity].
  cbv beta iota zeta delta
    [update modify read gets bind ret console_warn when fst snd env net subs
     this].
  rewrite notifyError_run. reflexivity.
Qed.

(** [n] connection errors in a row *)
Fixpoint fail_times (error : value) (n : nat) (s : Sys W) : Sys W :=
  match n with
  | O => s
  | S k => exec (handle (ConnectError error)) (fail_times error k s)
  end.

Lemma fail_times_count (error : value) (n : nat) (s : Sys W) :
  error <> Undefined -> error <> Null ->
  let a := connectionAttempts (this s) in
  let m := maxConnectionAttempts (this s) in
  let told :=
    Z.to_nat (Z.max 0 (Z.min (Z.of_nat n) (a + Z.of_nat n - (m - 1)))) in
  (0 <= a)%Z -> (1 <= m)%Z ->
  let s' := fail_times error n s in
  connectionAttempts (this s') = (a + Z.of_nat n)%Z /\
  maxConnectionAttempts (this s') = m /\
  onErrorCallbacks (this s') = onErrorCallbacks (this s) /\
  subs s' = Nat.iter told (delivered (onErrorCallbacks (this s)) failure_msg)
              (subs s).
Proof.
  intros H1 H2 a m told Ha Hm s'. subst s' told.
  assert (Ea : connectionAttempts (this s) = a) by reflexivity.
  assert (Em : maxConnectionAttempts (this s) = m) by reflexivity.
  clearbody a m.
  induction n as [|n IH].
  - cbn [fail_times].
    split; [lia|]. split; [exact Em|]. split; [reflexivity|].
    replace (Z.to_nat (Z.max 0 (Z.min (Z.of_nat 0)
               (a + Z.of_nat 0 - (m - 1))))) with 0%nat by lia.
    reflexivity.
  - cbn [fail_times].
    destruct IH as (A & B & C & D).
    set (sn := fail_times error n s) in *.
    unfold exec. rewrite (handle_ConnectError_run sn H1 H2). cbv zeta.
    rewrite A, B, C.
    destruct (Z.geb_spec (a + Z.of_nat n + 1) m) as [G|G]; cbn [fst];
      unfold notified; cbn [this subs].
    + split; [destruct (this sn); cbn; lia|].
      split; [destruct (this sn); cbn in *; exact B|].
      split; [destruct (this sn); cbn in *; exact C|].
      rewrite D.
      replace (Z.to_nat (Z.max 0 (Z.min (Z.of_nat (S n))
                 (a + Z.of_nat (S n) - (m - 1)))))
        with (S (Z.to_nat (Z.max 0 (Z.min (Z.of_nat n)
                 (a + Z.of_nat n - (m - 1)))))) by lia.
      reflexivity.
    + split; [destruct (this sn); cbn; lia|].
      split; [destruct (this sn); cbn in *; exact B|].
      split; [destruct (this sn); cbn in *; exact C|].
      rewrite D.
      replace (Z.to_nat (Z.max 0 (Z.min (Z.of_nat (S n))
                 (a + Z.of_nat (S n) - (m - 1)))))
        with (Z.to_nat (Z.max 0 (Z.min (Z.of_nat n)
                 (a + Z.of_nat n - (m - 1))))) by lia.
      reflexivity.
Qed.

(** Connection errors are counted without bound, and the error
    subscribers are told "Connection failed, using simulation data" at the
    fifth error and again at every later one: after [n] errors in a row on
    a service whose count was zero, the count is [n] and the subscribers
    were told [n - 4] times (not at all when [n < 5]). *)
Theorem connection_errors_notify_from_fifth (error : value) (n : nat)
  (s : Sys W) :
  error <> Undefined -> error <> Null ->
  connectionAttempts (this s) = 0%Z ->
  maxConnectionAttempts (this s) = 5%Z ->
  let s' := fail_times error n s in
  connectionAttempts (this s') = Z.of_nat n /\
  subs s' = Nat.iter (n - 4) (delivered (onErrorCallbacks (this s)) failure_msg)
              (subs s).
Proof.
  intros H1 H2 Ha Hm s'. subst s'.
  pose proof (fail_times_count n s H1 H2) as H. cbv zeta in H.
  rewrite Ha, Hm in H. destruct H as (A & _ & _ & D); [lia | lia |].
  split; [rewrite A; lia|].
  rewrite D. f_equal. lia.
Qed.

(** *** Disconnecting *)

Lemma disconnect_run (s : Sys W) :
  disconnect s
  = (let r := released s in
     mkSys (env r) (net r) (subs r) (set_isConnected false
                                      (set_socket None (this r))),
     Ok tt).
Proof.
  cbv zeta. unfold disconnect, released. rewrite run_read_state.
  destruct (socket (this s)) as [old|] eqn:Es.
  - unfold bind at 1. unfold bind at 1. rewrite socket_disconnect_run.
    destruct (severed old s) as [e n w st]. reflexivity.
  - destruct s as [e n w st]. cbn [this] in Es.
    cbv beta iota zeta delta
      [update modify read gets bind ret fst snd env net subs this].
    destruct st; cbn in *. subst. reflexivity.
Qed.

(** [disconnect()] disconnects the held socket and forgets it, and marks
    the service disconnected.  If that socket was connected, its
    disconnect handler runs during the call with the reason "io client
    disconnect": every connection subscriber is told [false], once, and no
    reconnection is scheduled.  If it was not connected, or no socket is
    held, no subscriber is told.  The cache and the subscriber lists are
    untouched.  After it [requestGPSData] sends nothing (it only warns)
    and [ping] does nothing. *)
Theorem disconnect_is_final (s : Sys W) :
  let s1 := exec (disconnect (W := W)) s in
  socket (this s1) = None /\
  isConnected (this s1) = false /\
  (forall old, socket (this s) = Some old -> is_open old (net s1) = false) /\
  subs s1
  = match socket (this s) with
    | Some old =>
        if is_connected old (net s) && is_wired old (net s)
        then delivered (onConnectionChangeCallbacks (this s)) false (subs s)
        else subs s
    | None => subs s
    end /\
  timers (net s1) = timers (net s) /\
  currentGPS (this s1) = currentGPS (this s) /\
  previousGPS (this s1) = previousGPS (this s) /\
  onConnectionChangeCallbacks (this s1) = onConnectionChangeCallbacks (this s) /\
  requestGPSData s1
  = (mkSys (console_write Warn "Cannot request GPS data - not connected" (env s1))
       (net s1) (subs s1) (this s1), Ok tt) /\
  ping s1 = (s1, Ok tt).
Proof.
  intros s1. subst s1. unfold exec. rewrite disconnect_run. cbv zeta.
  cbn [fst this net subs env].
  pose proof (timers_released s) as T.
  split; [destruct (this (released s)); reflexivity|].
  split; [destruct (this (released s)); reflexivity|].
  split.
  { intros old Hs. unfold is_open. rewrite (open_released s Hs).
    apply is_open_close. }
  split.
  { unfold released. destruct (socket (this s)) as [old|]; [|reflexivity].
    apply severed_subs. }
  split; [exact T|].
  assert (K : forall st : State W,
             currentGPS (set_isConnected false (set_socket None st))
             = currentGPS st /\
             previousGPS (set_isConnected false (set_socket None st))
             = previousGPS st /\
             onConnectionChangeCallbacks
               (set_isConnected false (set_socket None st))
             = onConnectionChangeCallbacks st)
    by (intros []; repeat split; reflexivity).
  destruct (K (this (released s))) as (K1 & K2 & K3).
  rewrite K1, K2, K3. clear K K1 K2 K3.
  assert (F : currentGPS (this (released s)) = currentGPS (this s) /\
              previousGPS (this (released s)) = previousGPS (this s) /\
              onConnectionChangeCallbacks (this (released s))
              = onConnectionChangeCallbacks (this s)).
  { destruct (released_this s) as [E|E]; rewrite E; destruct (this s);
      repeat split; reflexivity. }
  destruct F as (F1 & F2 & F3).
  split; [exact F1|]. split; [exact F2|]. split; [exact F3|].
  destruct (released s) as [e n w st]. destruct st.
  split; reflexivity.
Qed.

Lemma handle_Disconnect_run (reason : string) (s : Sys W) :
  handle (Disconnect reason) s
  = (let s1 := notified "Error in connection change callback:"
                 (onConnectionChangeCallbacks (this s)) false
                 (mkSys (console_write Log "WebSocket disconnected:" (env s))
                    (net s) (subs s) (set_isConnected false (this s))) in
     mkSys (env s1)
       (if String.eqb reason "io server disconnect"
        then setTimeout CallConnect 1000 (net s1) else net s1)
       (subs s1) (this s1),
     Ok tt).
Proof. apply on_disconnect_run. Qed.

(** The socket's disconnect event marks the service disconnected and
    tells every connection subscriber [false].  Exactly when the reason is
    "io server disconnect" one timeout of 1000 ms is set to call
    [connect]; the held socket is kept until then, and when that timeout
    fires the service closes it and holds a new socket. *)
Theorem disconnect_event_schedules_reconnect (reason : string) (s : Sys W) :
  let s1 := exec (handle (Disconnect reason)) s in
  isConnected (this s1) = false /\
  socket (this s1) = socket (this s) /\
  subs s1 = delivered (onConnectionChangeCallbacks (this s)) false (subs s) /\
  timers (net s1)
  = timers (net s)
    ++ (if String.eqb reason "io server disconnect"
        then [(1000%Z, CallConnect)] else []) /\
  (forall old, socket (this s) = Some old ->
     (old < next_socket (net s))%nat ->
     let s2 := exec (fire (W := W) CallConnect) s1 in
     socket (this s2) = Some (next_socket (net s)) /\
     is_open old (net s2) = false /\
     is_open (next_socket (net s)) (net s2) = true).
Proof.
  intros s1. subst s1. unfold exec. rewrite handle_Disconnect_run.
  cbv zeta. unfold notified. cbn [fst this net subs env].
  split; [destruct (this s); reflexivity|].
  split; [destruct (this s); reflexivity|].
  split; [reflexivity|].
  split.
  - destruct (String.eqb reason "io server disconnect"); cbn;
      [reflexivity | rewrite app_nil_r; reflexivity].
  - intros old Hs Hlt. cbn [fire].
    match goal with |- context [fst (connect ?x)] => set (s1 := x) end.
    assert (Hs1 : socket (this s1) = Some old).
    { subst s1. cbn [this]. destruct (this s); exact Hs. }
    assert (Hn : next_socket (net s1) = next_socket (net s)).
    { subst s1. cbn [net].
      destruct (String.eqb reason "io server disconnect"); reflexivity. }
    assert (Hlt1 : (old < next_socket (net s1))%nat) by (rewrite Hn; exact Hlt).
    destruct (fresh_socket_on_connect s1 Hs1 Hlt1) as (A & _ & B & C & _).
    rewrite Hn in A, C. exact (conj A (conj B C)).
Qed.

End WithSubscribers.

Lemma connection_errors_notify_from_fifth_witness :
  let err := Object [("message", Str "timeout")]%string in
  subs (fail_times err 4 demo_service) = [] /\
  subs (fail_times err 6 demo_service) = ["error"; "error"]%string /\
  connectionAttempts (this (fail_times err 6 demo_service)) = 6%Z.
Proof.
  intros err.
  assert (H1 : err <> Undefined) by discriminate.
  assert (H2 : err <> Null) by discriminate.
  assert (Ha : connectionAttempts (this demo_service) = 0%Z)
    by (vm_compute; reflexivity).
  assert (Hm : maxConnectionAttempts (this demo_service) = 5%Z)
    by (vm_compute; reflexivity).
  assert (Hs : subs demo_service = []) by (vm_compute; reflexivity).
  assert (Hc : List.length (onErrorCallbacks (this demo_service)) = 1%nat)
    by (vm_compute; reflexivity).
  destruct (connection_errors_notify_from_fifth 4 demo_service H1 H2 Ha Hm)
    as (_ & B4).
  destruct (connection_errors_notify_from_fifth 6 demo_service H1 H2 Ha Hm)
    as (A6 & B6).
  split; [rewrite B4, Hs; reflexivity|].
  split; [|exact A6].
  rewrite B6, Hs. vm_compute. reflexivity.
Defined.

End ServiceMore.

(** ** The display tracker: status announcements, buildings, reports *)

Module TrackerMore.
Import JS Eff Tracker TrackerFacts.
Local Open Scope js_scope.

(** what [getStatusForAPI] returns; [location] is flattened, and a
    coordinate or name that is [null] is [None] *)
Record ApiStatus : Type := mkApi {
  tram_id : string;
  a_currentStatus : Status;
  location_lat : option number;
  location_lng : option number;
  last_building : option string;
  a_timestamp : Z;
  is_moving : bool;
  time_since_movement_ms : Z
}.

(** [x?.f || null] on a number and on a string *)
Definition number_or_null (x : option number) : option number :=
  match x with
  | Some n => if truthy_number n then Some n else None
  | None => None
  end.

Definition string_or_null (x : option string) : option string :=
  match x with
  | Some s => if String.eqb s EmptyString then None else Some s
  | None => None
  end.

Section WithSubscribers.
Variable W : Type.

(** *** Announcing a status change *)

(** every subscriber in turn is handed the change, each with a clock
    reading of its own; what a subscriber throws is dropped *)
Fixpoint announced (cbs : list (callback W StatusChange))
  (old : option Status) (new : Status) (loc : option Location)
  (e : Env) (w : W) : Env * W :=
  match cbs with
  | [] => (e, w)
  | cb :: rest =>
      announced rest old new loc (fst (Date_now e))
        (fst (cb (mkStatusChange old new loc (snd (Date_now e))) w))
  end.

Definition is_news (st : State W) : bool :=
  negb (match lastNotifiedStatus st with
        | Some n => Status_eqb (currentStatus st) n
        | None => false
        end).

Lemma is_news_false (st : State W) :
  is_news st = false <-> lastNotifiedStatus st = Some (currentStatus st).
Proof.
  unfold is_news. destruct (lastNotifiedStatus st) as [n|]; cbn.
  - destruct (currentStatus st), n; cbn; split; congruence.
  - split; discriminate.
Qed.

Lemma announce_all (cbs : list (callback W StatusChange)) (e : Env) (w : W)
  (st : State W) :
  forEach cbs (fun callback =>
    try_catch
      (s1 <- read (fun s => s) ;;
       now <- liftE Date_now ;;
       call callback
         (mkStatusChange (lastNotifiedStatus s1) (currentStatus s1)
            (currentLocation s1) now))
      (fun _ => ret tt)) (mkSys e w st)
  = (let r := announced cbs (lastNotifiedStatus st) (currentStatus st)
                (currentLocation st) e w in
     mkSys (fst r) (snd r) st, Ok tt).
Proof.
  revert e w. induction cbs as [|cb cbs IH]; intros e w; cbn [forEach announced].
  - reflexivity.
  - unfold bind at 1, try_catch at 1.
    unfold bind at 1, read at 1, gets at 1. cbn [this].
    unfold bind at 1, liftE at 1. cbn [env subs this Date_now fst snd].
    unfold call. cbn [env subs this].
    destruct (cb _ w) as [w1 [[]|x]]; cbn [fst ret]; apply IH.
Qed.

Lemma checkStatusChange_run (s : Sys W) :
  checkStatusChange s
  = (if is_news (this s)
     then let r := announced (statusChangeCallbacks (this s))
                     (lastNotifiedStatus (this s)) (currentStatus (this s))
                     (currentLocation (this s)) (env s) (subs s) in
          mkSys (fst r) (snd r)
            (set_lastNotifiedStatus (Some (currentStatus (this s))) (this s))
     else s, Ok tt).
Proof.
  destruct s as [e w st]. unfold checkStatusChange.
  unfold bind at 1, read at 1, gets at 1. cbn [this env subs].
  fold (is_news st). destruct (is_news st); [|reflexivity].
  unfold when. unfold bind at 1. rewrite announce_all. reflexivity.
Qed.

Lemma status_change_settles (s : Sys W) : snd (checkStatusChange s) = Ok tt.
Proof. rewrite checkStatusChange_run. reflexivity. Qed.

(** [checkStatusChange] announces a status at most once.  When the status
    differs from the one last announced (or none was announced yet), every
    subscriber is called in registration order with the same old and new
    status, a throwing subscriber does not keep the later ones from being
    called, and the status is then recorded as announced.  When the status
    is the one last announced nothing happens at all; in particular a
    second check right after the first calls nobody. *)
Theorem status_change_announced_once (s : Sys W) :
  let s1 := fst (checkStatusChange s) in
  snd (checkStatusChange s) = Ok tt /\
  lastNotifiedStatus (this s1) = Some (currentStatus (this s)) /\
  currentStatus (this s1) = currentStatus (this s) /\
  statusChangeCallbacks (this s1) = statusChangeCallbacks (this s) /\
  (lastNotifiedStatus (this s) = Some (currentStatus (this s)) -> s1 = s) /\
  (lastNotifiedStatus (this s) <> Some (currentStatus (this s)) ->
     (env s1, subs s1)
     = announced (statusChangeCallbacks (this s))
         (lastNotifiedStatus (this s)) (currentStatus (this s))
         (currentLocation (this s)) (env s) (subs s)) /\
  checkStatusChange s1 = (s1, Ok tt).
Proof.
  intros s1. subst s1. rewrite (checkStatusChange_run s).
  destruct (is_news (this s)) eqn:E; cbn [fst snd].
  - assert (N : lastNotifiedStatus (this s) <> Some (currentStatus (this s))).
    { intros H. apply is_news_false in H. congruence. }
    split; [reflexivity|].
    split; [destruct (this s); reflexivity|].
    split; [destruct (this s); reflexivity|].
    split; [destruct (this s); reflexivity|].
    split; [intros H; contradiction|].
    split; [intros _; destruct (announced _ _ _ _ _ _); reflexivity|].
    rewrite checkStatusChange_run.
    match goal with |- context [is_news ?st] =>
      assert (F : is_news st = false) end.
    { apply is_news_false. cbn [this]. destruct (this s); reflexivity. }
    rewrite F. reflexivity.
  - pose proof (proj1 (is_news_false _) E) as H.
    split; [reflexivity|].
    split; [exact H|].
    split; [reflexivity|].
    split; [reflexivity|].
    split; [reflexivity|].
    split; [intros N; contradiction|].
    rewrite checkStatusChange_run, E. reflexivity.
Qed.

(** *** Which building the tram is at *)

(** the test of line 105: the distance computed by [calculateDistance]
    (the haversine formula with R = 6371000) against the building's
    [radius] field *)
Definition covers (h : Host) (la lo : number) (b : Building) : bool :=
  le (calculateDistance h la lo (b_lat b) (b_lon b)) (radius b).

Definition same_building (b : Building) (passed : option Building) : bool :=
  match passed with
  | None => false
  | Some p => String.eqb (id b) (id p)
  end.

(** the state once [b] is found to cover the position *)
Definition arrived (b : Building) (st : State W) : State W :=
  if same_building b (lastPassedBuilding st) then st
  else set_lastPassedBuilding (Some b) st.

Definition visited (found : option Building) (st : State W) : State W :=
  match found with
  | Some b => arrived b st
  | None => st
  end.

Lemma detectBuilding_from_run (bs : list Building) (la lo : number)
  (s : Sys W) :
  detectBuilding_from bs la lo s
  = (let found := find (covers (host (env s)) la lo) bs in
     (mkSys (env s) (subs s) (visited found (this s)), Ok found)).
Proof.
  cbv zeta. induction bs as [|b bs IH]; cbn [detectBuilding_from find].
  - destruct s; reflexivity.
  - unfold bind at 1, the_host at 1, gets at 1.
    fold (covers (host (env s)) la lo b).
    destruct (covers (host (env s)) la lo b); [|exact IH].
    unfold bind at 1, read at 1, gets at 1.
    unfold visited, arrived, same_building.
    destruct s as [e w st]. cbn [this env subs].
    destruct (lastPassedBuilding st) as [p|]; cbn [negb when].
    + destruct (String.eqb (id b) (id p)); reflexivity.
    + reflexivity.
Qed.

Lemma detectBuilding_run (la lo : number) (s : Sys W) :
  detectBuilding la lo s
  = (let found := find (covers (host (env s)) la lo) (buildings (this s)) in
     (mkSys (env s) (subs s) (visited found (this s)), Ok found)).
Proof.
  unfold detectBuilding. unfold bind at 1, read at 1, gets at 1.
  apply detectBuilding_from_run.
Qed.

(** [detectBuilding] returns the first building of the list, in list
    order, whose radius is at least the computed distance, and [null] when
    there is none.  A building that is found is remembered as the last one
    passed (the remembered object is replaced only when the id differs);
    when none is found the remembered building is left as it was, so it is
    never cleared by moving away.  Nothing else of the tracker changes, no
    subscriber is called and the clock is not read. *)
Theorem detectBuilding_first_match (la lo : number) (s : Sys W) :
  let found := find (covers (host (env s)) la lo) (buildings (this s)) in
  let s' := fst (detectBuilding la lo s) in
  snd (detectBuilding la lo s) = Ok found /\
  env s' = env s /\ subs s' = subs s /\
  match found with
  | None => this s' = this s
  | Some b =>
      In b (buildings (this s)) /\
      covers (host (env s)) la lo b = true /\
      option_map id (lastPassedBuilding (this s')) = Some (id b) /\
      (this s' = this s \/ this s' = set_lastPassedBuilding (Some b) (this s))
  end /\
  (forall p, lastPassedBuilding (this s) = Some p ->
     exists p', lastPassedBuilding (this s') = Some p').
Proof.
  intros found s'. subst s'. rewrite detectBuilding_run. cbv zeta.
  fold found. cbn [fst snd env subs this].
  split; [reflexivity|]. split; [reflexivity|]. split; [reflexivity|].
  split.
  - destruct found as [b|] eqn:E; cbn [visited]; [|reflexivity].
    apply find_some in E. destruct E as [Hin Hc].
    split; [exact Hin|]. split; [exact Hc|].
    unfold arrived, same_building.
    destruct (lastPassedBuilding (this s)) as [p|] eqn:P.
    + destruct (String.eqb (id b) (id p)) eqn:Q.
      * apply String.eqb_eq in Q. rewrite P. cbn. split; [congruence | left; reflexivity].
      * split; [destruct (this s); reflexivity | right; reflexivity].
    + split; [destruct (this s); reflexivity | right; reflexivity].
  - intros p P. destruct found as [b|]; cbn [visited]; [|eauto].
    unfold arrived. destruct (same_building b _); [eauto|].
    exists b. destruct (this s); reflexivity.
Qed.

(** *** What a position update reports *)

(** what [detectMovement] leaves *)
Definition moved (s : Sys W) : Sys W :=
  match lastLocation (this s), currentLocation (this s) with
  | Some l, Some c =>
      let now := clock (host (env s)) (ticks (env s)) in
      if gt (calculateDistance (host (env s)) (lat l) (lon l) (lat c) (lon c))
            (movementThreshold (this s))
      then mkSys (fst (Date_now (env s))) (subs s)
             (set_lastMovementTime now (set_isMoving true (this s)))
      else mkSys (fst (Date_now (env s))) (subs s)
             (set_isMoving
                (now - lastMovementTime (this s) <? stoppedDuration (this s))%Z
                (this s))
  | _, _ => mkSys (env s) (subs s) (set_isMoving false (this s))
  end.

Lemma detectMovement_run (s : Sys W) : detectMovement s = (moved s, Ok tt).
Proof.
  unfold detectMovement, moved.
  unfold bind at 1, read at 1, gets at 1.
  destruct (lastLocation (this s)) as [l|]; [|reflexivity].
  destruct (currentLocation (this s)) as [c|]; [|reflexivity].
  unfold bind at 1, the_host at 1, gets at 1.
  destruct (gt _ _); reflexivity.
Qed.

(** the status [updateStatus] decides on, from the clock alone *)
Definition verdict (s : Sys W) : Status :=
  if (clock (host (env s)) (ticks (env s)) - lastMovementTime (this s)
      >=? stoppedDuration (this s))%Z
  then Stopped else Running.

Lemma updateStatus_run (s : Sys W) :
  updateStatus s
  = checkStatusChange
      (mkSys (fst (Date_now (env s))) (subs s)
         (set_currentStatus (verdict s) (this s))).
Proof.
  unfold updateStatus, verdict.
  unfold bind at 1, liftE at 1. cbn [Date_now fst snd].
  unfold bind at 1, read at 1, gets at 1.
  unfold bind at 1, read at 1, gets at 1. cbn [this env subs].
  destruct (_ >=? _)%Z; reflexivity.
Qed.

Lemma getTrackingInfo_run (s : Sys W) :
  snd (getTrackingInfo s)
  = Ok (mkInfo (currentStatus (this s)) (isMoving (this s))
          (currentLocation (this s)) (lastPassedBuilding (this s))
          (clock (host (env s)) (ticks (env s)))
          (List.length (locationHistory (this s)))
          (clock (host (env s)) (S (ticks (env s)))
           - lastMovementTime (this s))%Z).
Proof. reflexivity. Qed.

(** what is left of a system for the report: the part [checkStatusChange]
    and [detectBuilding] do not touch *)
Lemma checkStatusChange_keeps (s : Sys W) :
  let s' := fst (checkStatusChange s) in
  currentStatus (this s') = currentStatus (this s) /\
  isMoving (this s') = isMoving (this s) /\
  currentLocation (this s') = currentLocation (this s).
Proof.
  cbv zeta. rewrite checkStatusChange_run.
  destruct (is_news (this s)); cbn [fst this]; [|auto].
  destruct (this s); cbn; auto.
Qed.

Lemma visited_keeps (found : option Building) (st : State W) :
  isMoving (visited found st) = isMoving st /\
  currentLocation (visited found st) = currentLocation st /\
  lastMovementTime (visited found st) = lastMovementTime st /\
  stoppedDuration (visited found st) = stoppedDuration st.
Proof.
  destruct found as [b|]; cbn [visited]; [|auto].
  unfold arrived. destruct (same_building b _); [auto|].
  destruct st; cbn; auto.
Qed.

(** The report of [updatePosition], in terms of the clock.  The location
    reported is the one given, stamped with the first clock reading.  The
    first position after construction or [reset] is never reported as
    moving.  A position farther from the previous one than
    [movementThreshold] is moving.  Any other position is still reported
    as moving as long as less than [stoppedDuration] has passed since the
    last movement.  The status is [Running] until [stoppedDuration] has
    passed since the last movement (the construction or [reset], for a
    tram that has not moved), and [Stopped] from then on. *)
Theorem updatePosition_reports (la lo : number) (s : Sys W) :
  let h := host (env s) in
  let t := ticks (env s) in
  let dur := stoppedDuration (this s) in
  let status_at (now since : Z) :=
    if (now - since >=? dur)%Z then Stopped else Running in
  exists info,
    snd (updatePosition la lo s) = Ok info /\
    i_currentLocation info = Some (mkLocation la lo (clock h t)) /\
    match currentLocation (this s) with
    | None =>
        i_isMoving info = false /\
        i_status info = status_at (clock h (S t)) (lastMovementTime (this s))
    | Some prev =>
        if gt (calculateDistance h (lat prev) (lon prev) la lo)
              (movementThreshold (this s))
        then i_isMoving info = true /\
             i_status info = status_at (clock h (S (S t))) (clock h (S t))
        else i_isMoving info
             = (clock h (S t) - lastMovementTime (this s) <? dur)%Z /\
             i_status info
             = status_at (clock h (S (S t))) (lastMovementTime (this s))
    end.
Proof.
  intros h t dur status_at. rewrite updatePosition_run.
  unfold bind at 1. rewrite detectMovement_run.
  unfold bind at 1. rewrite detectBuilding_run. cbv zeta.
  set (found := find _ _).
  unfold bind at 1. rewrite updateStatus_run.
  match goal with |- context [checkStatusChange ?x] =>
    set (s3 := x);
    pose proof (checkStatusChange_keeps s3) as K;
    pose proof (status_change_settles s3) as R
  end.
  cbv zeta in K. destruct K as (K1 & K2 & K3).
  destruct (checkStatusChange s3) as [s4 r] eqn:E4. cbn [fst snd] in *.
  subst r.
  unfold bind at 1, update at 1, modify at 1.
  eexists. split; [apply getTrackingInfo_run|].
  cbn [i_currentLocation i_isMoving i_status this].
  replace (currentLocation (set_lastUpdateTime _ (this s4)))
    with (currentLocation (this s4)) by (destruct (this s4); reflexivity).
  replace (isMoving (set_lastUpdateTime _ (this s4)))
    with (isMoving (this s4)) by (destruct (this s4); reflexivity).
  replace (currentStatus (set_lastUpdateTime _ (this s4)))
    with (currentStatus (this s4)) by (destruct (this s4); reflexivity).
  rewrite K1, K2, K3. subst s3. cbn [this env subs].
  destruct (visited_keeps found (this (moved (recorded la lo s))))
    as (V1 & V2 & V3 & V4).
  replace (currentLocation (set_currentStatus _ _))
    with (currentLocation (visited found (this (moved (recorded la lo s)))))
    by (destruct (visited found _); reflexivity).
  replace (isMoving (set_currentStatus _ _))
    with (isMoving (visited found (this (moved (recorded la lo s)))))
    by (destruct (visited found _); reflexivity).
  replace (currentStatus (set_currentStatus _ _))
    with (verdict (mkSys (env (moved (recorded la lo s)))
                     (subs (moved (recorded la lo s)))
                     (visited found (this (moved (recorded la lo s))))))
    by (destruct (visited found _); reflexivity).
  rewrite V1, V2. unfold verdict. cbn [this env subs]. rewrite V3, V4.
  subst h t dur status_at. destruct s as [e w st]. destruct st.
  unfold moved, recorded, arriving. cbn.
  destruct currentLocation0 as [prev|]; cbn.
  - destruct (gt _ _); cbn; auto.
  - auto.
Qed.

(** *** Resetting *)

Lemma reset_run (s : Sys W) :
  reset s
  = (mkSys {| host := host (env s); ticks := S (S (ticks (env s)));
              console := console (env s) |}
       (subs s)
       (mkState Stopped None None false None
          (movementThreshold (this s)) (stoppedDuration (this s)) []
          (maxHistoryLength (this s))
          (clock (host (env s)) (ticks (env s)))
          (clock (host (env s)) (S (ticks (env s))))
          (buildings (this s)) (statusChangeCallbacks (this s))
          (lastNotifiedStatus (this s))),
     Ok tt).
Proof. destruct s as [e w st]; destruct st. reflexivity. Qed.

Lemma updatePosition_state (la lo : number) (s : Sys W) :
  fst (updatePosition la lo s)
  = (let v := visited
                (find (covers (host (env s)) la lo) (buildings (this s)))
                (this (moved (recorded la lo s))) in
     let s3 := mkSys (fst (Date_now (env (moved (recorded la lo s)))))
                 (subs s)
                 (set_currentStatus
                    (verdict (mkSys (env (moved (recorded la lo s))) (subs s) v))
                    v) in
     let s4 := fst (checkStatusChange s3) in
     mkSys (fst (Date_now (fst (Date_now (env s4))))) (subs s4)
       (set_lastUpdateTime (clock (host (env s)) (ticks (env s))) (this s4))).
Proof.
  cbv zeta. rewrite updatePosition_run.
  unfold bind at 1. rewrite detectMovement_run.
  unfold bind at 1. rewrite detectBuilding_run. cbv zeta.
  assert (Hh : host (env (moved (recorded la lo s))) = host (env s)).
  { unfold moved, recorded. cbn [this env].
    repeat match goal with |- context [match ?x with _ => _ end] =>
      destruct x end; reflexivity. }
  assert (Hb : buildings (this (moved (recorded la lo s))) = buildings (this s)).
  { unfold moved, recorded. cbn [this env].
    repeat match goal with |- context [match ?x with _ => _ end] =>
      destruct x end; destruct (this s); reflexivity. }
  assert (Hs : subs (moved (recorded la lo s)) = subs s).
  { unfold moved, recorded. cbn [this env subs].
    repeat match goal with |- context [match ?x with _ => _ end] =>
      destruct x end; reflexivity. }
  rewrite Hh, Hb, Hs.
  unfold bind at 1. rewrite updateStatus_run. cbn [env subs this].
  match goal with |- context [checkStatusChange ?x] =>
    pose proof (status_change_settles x) as R;
    destruct (checkStatusChange x) as [s4 r] end.
  cbn [fst snd] in *. subst r.
  reflexivity.
Qed.

(** A reset goes unannounced.  [reset] sets the status to Stopped without
    calling any subscriber and without forgetting which status was last
    announced.  The next position then sets the status back to Running
    (unless [stoppedDuration] has passed on the clock since the reset), so
    subscribers that were last told Running are told nothing, neither of
    the reset nor of the restart; that position is reported as not
    moving. *)
Theorem reset_goes_unannounced (la lo : number) (s : Sys W) :
  lastNotifiedStatus (this s) = Some Running ->
  (clock (host (env s)) (3 + ticks (env s))
   - clock (host (env s)) (1 + ticks (env s))
   < stoppedDuration (this s))%Z ->
  let s1 := fst (reset (W := W) s) in
  let s2 := fst (updatePosition la lo s1) in
  currentStatus (this s1) = Stopped /\
  subs s1 = subs s /\
  currentStatus (this s2) = Running /\
  isMoving (this s2) = false /\
  lastNotifiedStatus (this s2) = Some Running /\
  subs s2 = subs s.
Proof.
  intros Hn Hc s1 s2. subst s2 s1. rewrite reset_run. cbn [fst].
  split; [reflexivity|]. split; [reflexivity|].
  match goal with |- context [updatePosition la lo ?x] => set (s1 := x) end.
  rewrite updatePosition_state. cbv zeta.
  assert (M : moved (recorded la lo s1)
              = mkSys {| host := host (env s);
                         ticks := 3 + ticks (env s);
                         console := console (env s) |}
                  (subs s)
                  (set_isMoving false (this (recorded la lo s1))))
    by reflexivity.
  rewrite M. clear M.
  set (st := set_isMoving false (this (recorded la lo s1))).
  assert (S1 : isMoving st = false) by reflexivity.
  assert (S2 : lastMovementTime st = clock (host (env s)) (1 + ticks (env s)))
    by reflexivity.
  assert (S3 : stoppedDuration st = stoppedDuration (this s)) by reflexivity.
  assert (S4 : lastNotifiedStatus st = Some Running) by exact Hn.
  clearbody st.
  set (found := find _ _). clearbody found.
  subst s1. cbn [env this subs].
  destruct (visited_keeps found st) as (V1 & _ & V3 & V4).
  assert (V5 : lastNotifiedStatus (visited found st) = Some Running).
  { destruct found as [b|]; cbn [visited]; [|exact S4].
    unfold arrived. destruct (same_building b _); [exact S4|].
    destruct st; exact S4. }
  set (v := visited found st) in *. clearbody v.
  assert (E : verdict
                (mkSys {| host := host (env s); ticks := 3 + ticks (env s);
                          console := console (env s) |} (subs s) v)
              = Running).
  { unfold verdict. cbn [env this host ticks]. rewrite V3, V4, S2, S3.
    destruct (Z.geb_spec
                (clock (host (env s)) (3 + ticks (env s))
                 - clock (host (env s)) (1 + ticks (env s)))
                (stoppedDuration (this s))) as [G|G]; [lia | reflexivity]. }
  rewrite E. clear E.
  rewrite checkStatusChange_run. cbn [this].
  assert (F : is_news (set_currentStatus Running v) = false).
  { apply is_news_false. destruct v; exact V5. }
  rewrite F. cbn [fst this subs].
  split; [destruct v; reflexivity|].
  split; [destruct v; cbn in *; congruence|].
  split; [destruct v; exact V5 | reflexivity].
Qed.

(** *** The status for the API *)

(** line 228 *)
Definition getStatusForAPI : M (Sys W) ApiStatus :=
  info <- getTrackingInfo (W := W) ;;
  s <- read (fun s => s) ;;
  ret (mkApi "tram_01_frontend" (currentStatus s)
         (number_or_null (option_map lat (i_currentLocation info)))
         (number_or_null (option_map lon (i_currentLocation info)))
         (string_or_null (option_map name (i_lastPassedBuilding info)))
         (i_timestamp info) (isMoving s) (timeSinceLastMovement info)).

Lemma number_or_null_none (x : option number) :
  number_or_null x = None <->
  x = None \/ x = Some NaN \/ exists q, x = Some (Fin q) /\ q == 0.
Proof.
  destruct x as [[| | |q]|]; cbn.
  - split; auto.
  - split; [discriminate|]. intros [H | [H | (q & H & _)]]; discriminate.
  - split; [discriminate|]. intros [H | [H | (q & H & _)]]; discriminate.
  - destruct (Qeq_bool q 0) eqn:E; cbn.
    + apply Qeq_bool_iff in E. split; [|auto].
      intros _. right. right. exists q. auto.
    + split; [discriminate|].
      intros [H | [H | (q' & H & Hq)]]; try discriminate.
      injection H as <-. apply Qeq_bool_iff in Hq. congruence.
  - split; auto.
Qed.

Lemma coordinate_or_null (f : Location -> number) (o : option Location) :
  (number_or_null (option_map f o) = None <->
     o = None \/
     exists loc, o = Some loc /\ (f loc = NaN \/ exists q, f loc = Fin q /\ q == 0)) /\
  (forall v, number_or_null (option_map f o) = Some v ->
     exists loc, o = Some loc /\ f loc = v).
Proof.
  split.
  - rewrite number_or_null_none. destruct o as [loc|]; cbn [option_map].
    + split.
      * intros [H | [H | (q & H & Hq)]]; [discriminate | |];
          injection H as H; right; exists loc; split; eauto.
      * intros [H | (l & H & [E | (q & E & Hq)])]; [discriminate | |];
          injection H as <-; rewrite E; eauto.
    + split; auto.
  - intros v. destruct o as [loc|]; cbn; [|discriminate].
    destruct (truthy_number (f loc)); [|discriminate].
    intros H. injection H as <-. eauto.
Qed.

(** The status for the API leaves out a coordinate that is zero.  The
    latitude is [null] exactly when there is no current location or its
    latitude is 0 or NaN, and likewise the longitude: a tram on the
    equator or on the prime meridian is reported without that coordinate.
    A coordinate that is reported is the stored one.  The time stamp and
    the time since the last movement come from two successive readings of
    the clock. *)
Theorem api_status_drops_zero_coordinates (s : Sys W) :
  exists api,
    snd (getStatusForAPI s) = Ok api /\
    (location_lat api = None <->
       currentLocation (this s) = None \/
       exists loc, currentLocation (this s) = Some loc /\
         (lat loc = NaN \/ exists q, lat loc = Fin q /\ q == 0)) /\
    (location_lng api = None <->
       currentLocation (this s) = None \/
       exists loc, currentLocation (this s) = Some loc /\
         (lon loc = NaN \/ exists q, lon loc = Fin q /\ q == 0)) /\
    (forall v, location_lat api = Some v ->
       exists loc, currentLocation (this s) = Some loc /\ lat loc = v) /\
    (forall v, location_lng api = Some v ->
       exists loc, currentLocation (this s) = Some loc /\ lon loc = v) /\
    a_timestamp api = clock (host (env s)) (ticks (env s)) /\
    time_since_movement_ms api
    = (clock (host (env s)) (S (ticks (env s))) - lastMovementTime (this s))%Z.
Proof.
  eexists. split; [reflexivity|].
  cbn [location_lat location_lng a_timestamp time_since_movement_ms
       i_currentLocation i_timestamp timeSinceLastMovement this].
  destruct (coordinate_or_null lat (currentLocation (this s))) as [A1 A2].
  destruct (coordinate_or_null lon (currentLocation (this s))) as [B1 B2].
  split; [exact A1|]. split; [exact B1|].
  split; [exact A2|]. split; [exact B2|].
  split; reflexivity.
Qed.

End WithSubscribers.

(** a tracker whose subscribers were last told Running *)
Definition announced_running : Sys unit :=
  mkSys Demo.env0 tt
    (set_lastNotifiedStatus (Some Running) (init unit Demo.t0 Demo.t0)).

Lemma reset_goes_unannounced_witness :
  let s1 := fst (reset (W := unit) announced_running) in
  let s2 := fst (updatePosition (num 13) (num 100) s1) in
  currentStatus (this s2) = Running /\
  lastNotifiedStatus (this s2) = Some Running.
Proof.
  intros s1 s2.
  assert (Hn : lastNotifiedStatus (this announced_running) = Some Running)
    by reflexivity.
  assert (Hc : (clock (host (env announced_running))
                  (3 + ticks (env announced_running))
                - clock (host (env announced_running))
                    (1 + ticks (env announced_running))
                < stoppedDuration (this announced_running))%Z)
    by (vm_compute; reflexivity).
  pose proof (@reset_goes_unannounced unit (num 13) (num 100)
                announced_running Hn Hc) as H.
  cbv zeta in H. destruct H as (_ & _ & A & _ & B & _).
  exact (conj A B).
Defined.

End TrackerMore.

(** ** The position reconciler: the legacy entry points and the engine *)

Module MovementMore.
Import JS Eff Validator Gsap Movement NumberFacts MovementFacts
  TransitionFacts.
Local Open Scope js_scope.

(** TramMovement.js:417.  [new Date()] reads the clock. *)
Definition updateFromLiveGPS (la lo : number) : M Sys unit :=
  tr <- read tram ;;
  match tr with
  | None => ret tt
  | Some _ =>
      now <- liftE Date_now ;;
      let newGPS := mkGPS la lo (TsISO now) in
      mine <- read currentGPS ;;
      update (set_previousGPS
                (match mine with
                 | Some held => Some held
                 | None => Some newGPS
                 end)) ;;
      update (set_currentGPS (Some newGPS)) ;;
      updateTramPosition ;;
      h <- the_host ;;
      when (on_localhost h) (console_log "GPS updated via legacy method:")
  end.

(** line 446 *)
Definition setSpeed (speed : number) : M Sys unit :=
  update (set_tramSpeed (max (num 1) speed)).

(** line 293 *)
Definition calculateAndApplyMovement : M Sys unit := updateTramPosition.

(** [this.fallbackGPSPoints] is the constructor's [gpsPoints] (line 28)
    and is never assigned again; the two methods that read it take it as
    an argument here. *)

(** line 320.  [Date.now()] is stored as a number. *)
Definition handleConnectionError (fallbackGPSPoints : option (list GPS))
  : M Sys unit :=
  console_warn "WebSocket GPS unavailable, checking fallback options..." ;;
  s <- read (fun s => s) ;;
  match lastKnownPosition s, tram s with
  | Some _, Some _ => console_log "Using last known position for tram"
  | _, _ =>
      match currentGPS s, fallbackGPSPoints with
      | None, Some (firstPoint :: rest) =>
          now <- liftE Date_now ;;
          update (set_currentGPS
                    (Some (mkGPS (lat firstPoint) (lon firstPoint)
                             (TsValue (Number (num (inject_Z now))))))) ;;
          match rest with
          | secondPoint :: _ =>
              now2 <- liftE Date_now ;;
              update (set_previousGPS
                        (Some (mkGPS (lat secondPoint) (lon secondPoint)
                                 (TsValue
                                    (Number (num (inject_Z (now2 - 5000))))))))
          | [] => ret tt
          end ;;
          updateTramPosition
      | _, _ => ret tt
      end
  end.

(** line 358: the move to the first fallback point is started with
    [gsap.to] on its own and kept nowhere *)
Definition switchToFallbackMode (fallbackGPSPoints : option (list GPS))
  : M Sys unit :=
  update (set_isRealTimeMode false) ;;
  match fallbackGPSPoints with
  | Some (firstPoint :: _) =>
      s <- read (fun s => s) ;;
      let position := calculatePosition s (lat firstPoint) (lon firstPoint) in
      match tram s with
      | Some _ =>
          animate (gsap_to (MoveTo (num 2) position "power2.out" false))
      | None => ret tt
      end
  | _ => ret tt
  end.

(** line 309; the request it makes goes to the service *)
Definition handleConnectionRestored : M Sys unit :=
  console_log "WebSocket connection restored, requesting fresh GPS data..." ;;
  update (set_lastConnectionLoss None).

(** line 379; the subscriptions of [setupWebSocketTracking] (line 72) are
    made on the service *)
Definition start : M Sys unit :=
  console_log "Tram movement start requested - enabling real-time mode" ;;
  realTime <- read isRealTimeMode ;;
  when (negb realTime)
    (update (set_isRealTimeMode true) ;;
     console_log "Starting real-time GPS tracking with WebSocket..." ;;
     console_log "Setting up WebSocket event-driven tracking...").

(** line 388; what it unsubscribes is held by the service *)
Definition stop : M Sys unit :=
  console_log "Tram movement stop requested" ;;
  update (set_isMoving false) ;;
  tw <- read currentTween ;;
  match tw with
  | Some tl => animate (kill tl) ;; update (set_currentTween None)
  | None => ret tt
  end ;;
  update (set_isRealTimeMode false).

(** line 508; the service is disconnected in between *)
Definition dispose : M Sys unit :=
  stop ;;
  console_log "TramMovement disposed".

(** line 118, once the service has answered with [gpsData] *)
Definition updateFromWebSocket (gpsData : Wire.LocationUpdate) : M Sys unit :=
  try_catch (processGPSData gpsData)
    (fun _ =>
       console_error "Failed to update from WebSocket service:" ;;
       stopTramMovement).

(** line 497: the service is replaced, and tracking is set up again in
    real-time mode (lines 63-100; the subscriptions are made on the
    service) *)
Definition configureWebSocket : M Sys unit :=
  realTime <- read isRealTimeMode ;;
  when realTime
    (console_log "Starting real-time GPS tracking with WebSocket..." ;;
     console_log "Setting up WebSocket event-driven tracking...").

(** the [onComplete] of the translation (line 271), whenever the engine
    calls it *)
Definition onComplete : M Sys unit := update (set_isMoving false).

(** what can happen to a reconciler: its methods that act on its own
    state or on the animation engine (the others read it or act on the
    service only), and a translation running to its end *)
Inductive op : Type :=
| HandleGPSUpdate (gpsData : Wire.LocationUpdate)
| ProcessGPSData (gpsData : Wire.LocationUpdate)
| UpdateFromWebSocket (gpsData : Wire.LocationUpdate)
| ConfigureWebSocket
| OnComplete
| HandleConnectionLoss
| HandleConnectionRestored
| HandleConnectionError
| SwitchToFallbackMode
| Start
| Stop
| Dispose
| UpdateFromLiveGPS (la lo : number)
| SetSpeed (speed : number)
| CalculateAndApplyMovement.

Definition run_op (fallbackGPSPoints : option (list GPS)) (o : op)
  : M Sys unit :=
  match o with
  | HandleGPSUpdate u => handleGPSUpdate u
  | ProcessGPSData u => processGPSData u
  | UpdateFromWebSocket u => updateFromWebSocket u
  | ConfigureWebSocket => configureWebSocket
  | OnComplete => onComplete
  | HandleConnectionLoss => handleConnectionLoss
  | HandleConnectionRestored => handleConnectionRestored
  | HandleConnectionError => handleConnectionError fallbackGPSPoints
  | SwitchToFallbackMode => switchToFallbackMode fallbackGPSPoints
  | Start => start
  | Stop => stop
  | Dispose => dispose
  | UpdateFromLiveGPS la lo => updateFromLiveGPS la lo
  | SetSpeed v => setSpeed v
  | CalculateAndApplyMovement => calculateAndApplyMovement
  end.

Fixpoint run_ops (fallbackGPSPoints : option (list GPS)) (os : list op)
  (s : Sys) : Sys :=
  match os with
  | [] => s
  | o :: rest =>
      run_ops fallbackGPSPoints rest (exec (run_op fallbackGPSPoints o) s)
  end.

(** *** One transition at a time *)

(** a timeline as [updateTramPosition] builds it: at most one rotation,
    then one translation that marks the tram stationary when it ends *)
Definition well_shaped (sts : list tween) : bool :=
  match sts with
  | [MoveTo _ _ _ true] => true
  | [RotateTo _ _ _; MoveTo _ _ _ true] => true
  | _ => false
  end.

(** a move as [switchToFallbackMode] starts it *)
Definition fallback_move (sts : list tween) : bool :=
  match sts with
  | [MoveTo _ _ _ false] => true
  | _ => false
  end.

(** the live transitions, and the live fallback moves *)
Definition transitions (g : engine) : list (nat * list tween) :=
  filter (fun p => well_shaped (snd p)) (live g).

Definition fallback_moves (g : engine) : list (nat * list tween) :=
  filter (fun p => fallback_move (snd p)) (live g).

Definition in_transition (tl : nat) (g : engine) : bool :=
  existsb (fun p => Nat.eqb (fst p) tl) (transitions g).

(** what a call adds to the fallback moves *)
Definition launched (fallbackGPSPoints : option (list GPS)) (o : op)
  (s : Sys) : list (nat * list tween) :=
  match o, fallbackGPSPoints, tram (this s) with
  | SwitchToFallbackMode, Some (firstPoint :: _), Some _ =>
      [(next (gsap s),
        [MoveTo (num 2)
           (calculatePosition (this s) (lat firstPoint) (lon firstPoint))
           "power2.out" false])]
  | _, _, _ => []
  end.

(** the engine holds the reconciler's transition, if it holds one, and
    fallback moves, each under a name of its own.  (A transition that has
    run to its end is still counted: only killing removes it.) *)
Definition tidy (s : Sys) : Prop :=
  wf (gsap s) /\
  NoDup (map fst (live (gsap s))) /\
  Forall (fun p => well_shaped (snd p) || fallback_move (snd p) = true)
    (live (gsap s)) /\
  match currentTween (this s) with
  | Some tl => exists sts, transitions (gsap s) = [(tl, sts)]
  | None => transitions (gsap s) = [] /\ isMoving (this s) = false
  end.

(** a step that keeps the engine tidy and the fallback moves as they are *)
Definition Tidy {A} (c : M Sys A) : Prop :=
  forall s, tidy s ->
    tidy (fst (c s)) /\
    fallback_moves (gsap (fst (c s))) = fallback_moves (gsap s).

(** a step that touches neither the engine nor the tween nor the flag *)
Definition Aside {A} (c : M Sys A) : Prop :=
  forall s, gsap (fst (c s)) = gsap s /\
            currentTween (this (fst (c s))) = currentTween (this s) /\
            isMoving (this (fst (c s))) = isMoving (this s).

Lemma Tidy_aside {A} (c : M Sys A) : Aside c -> Tidy c.
Proof.
  intros H s Hs. destruct (H s) as (G & T & Mv).
  unfold tidy. rewrite G, T, Mv. auto.
Qed.

Lemma Tidy_ret {A} (a : A) : Tidy (ret (S := Sys) a).
Proof. intros s H. auto. Qed.

Lemma Tidy_bind {A B} (c : M Sys A) (k : A -> M Sys B) :
  Tidy c -> (forall a, Tidy (k a)) -> Tidy (x <- c ;; k x).
Proof.
  intros Hc Hk s H. unfold bind. destruct (Hc s H) as [H1 F1].
  destruct (c s) as [s1 [a|x]]; cbn [fst] in *; [|auto].
  destruct (Hk a s1 H1) as [H2 F2]. split; [exact H2 | congruence].
Qed.

Lemma Tidy_try_catch {A} (c : M Sys A) (k : exn -> M Sys A) :
  Tidy c -> (forall x, Tidy (k x)) -> Tidy (try_catch c k).
Proof.
  intros Hc Hk s H. unfold try_catch. destruct (Hc s H) as [H1 F1].
  destruct (c s) as [s1 [a|x]]; cbn [fst] in *; [auto|].
  destruct (Hk x s1 H1) as [H2 F2]. split; [exact H2 | congruence].
Qed.

Lemma Tidy_when (b : bool) (c : M Sys unit) : Tidy c -> Tidy (when b c).
Proof. intros H. destruct b; [exact H | apply Tidy_ret]. Qed.

Lemma Tidy_read {A} (f : State -> A) : Tidy (read f).
Proof. intros s H. auto. Qed.

Lemma Tidy_the_host : Tidy the_host.
Proof. intros s H. auto. Qed.

Lemma Tidy_liftE {A} (f : Env -> Env * A) : Tidy (liftE f).
Proof.
  apply Tidy_aside. intros s. unfold liftE.
  destruct (f (env s)); cbn. auto.
Qed.

Lemma Tidy_update (f : State -> State) :
  (forall st, currentTween (f st) = currentTween st /\
              isMoving (f st) = isMoving st) ->
  Tidy (update f).
Proof.
  intros H. apply Tidy_aside. intros s. cbn. destruct (H (this s)). auto.
Qed.

Lemma Tidy_console_log (msg : string) : Tidy (console_log msg).
Proof. apply Tidy_aside. intros s. cbn. auto. Qed.

Lemma Tidy_console_warn (msg : string) : Tidy (console_warn msg).
Proof. apply Tidy_aside. intros s. cbn. auto. Qed.

Lemma Tidy_console_error (msg : string) : Tidy (console_error msg).
Proof. apply Tidy_aside. intros s. cbn. auto. Qed.

(** **** Lists of named animations *)

Lemma filter_swap {A} (f g : A -> bool) (l : list A) :
  filter f (filter g l) = filter g (filter f l).
Proof.
  induction l as [|a l IH]; cbn; [reflexivity|].
  destruct (f a) eqn:Ef, (g a) eqn:Eg; cbn; rewrite ?Ef, ?Eg, IH; reflexivity.
Qed.

Lemma filter_all {A} (f : A -> bool) (l : list A) :
  (forall a, In a l -> f a = true) -> filter f l = l.
Proof.
  induction l as [|a l IH]; cbn; intros H; [reflexivity|].
  rewrite (H a (or_introl eq_refl)). f_equal. apply IH. auto.
Qed.

Lemma NoDup_names_filter {A} (f : nat * A -> bool) (l : list (nat * A)) :
  NoDup (map fst l) -> NoDup (map fst (filter f l)).
Proof.
  induction l as [|a l IH]; cbn; intros H; [constructor|].
  inversion H as [|x xs Hn Hd]; subst.
  destruct (f a); cbn; [|auto].
  constructor; [|auto].
  intros Hin. apply Hn. apply in_map_iff in Hin.
  destruct Hin as (p & E & Hp). apply filter_In in Hp.
  apply in_map_iff. exists p. tauto.
Qed.

Lemma NoDup_names_snoc {A} (n : nat) (x : A) (l : list (nat * A)) :
  Forall (fun p => (fst p < n)%nat) l ->
  NoDup (map fst l) -> NoDup (map fst (l ++ [(n, x)])).
Proof.
  intros Hlt Hd. rewrite map_app. cbn.
  apply NoDup_app.
  - exact Hd.
  - constructor; [intros [] | constructor].
  - intros a Ha [<-|[]]. apply in_map_iff in Ha.
    destruct Ha as (p & E & Hp). rewrite Forall_forall in Hlt.
    specialize (Hlt p Hp). lia.
Qed.

Lemma one_name_one_animation {A} (l : list (nat * A)) (n : nat) (x y : A) :
  NoDup (map fst l) -> In (n, x) l -> In (n, y) l -> x = y.
Proof.
  induction l as [|a l IH]; cbn; intros H Hx Hy; [contradiction|].
  inversion H as [|k ks Hn Hd]; subst.
  destruct Hx as [Ex|Hx], Hy as [Ey|Hy].
  - congruence.
  - subst a. exfalso. apply Hn. apply in_map_iff. exists (n, y). auto.
  - subst a. exfalso. apply Hn. apply in_map_iff. exists (n, x). auto.
  - apply IH; assumption.
Qed.

Lemma shapes_apart (sts : list tween) :
  well_shaped sts = true -> fallback_move sts = false.
Proof.
  destruct sts as [|[d y e|d p e [|]] [|[d2 y2 e2|d2 p2 e2 [|]] [|t3 l3]]];
    cbn; congruence.
Qed.

Lemma transition_well_shaped (h : Host) (st : State) (t : Tram)
  (cur prev : GPS) :
  well_shaped (transition h st t cur prev) = true.
Proof. unfold transition. destruct (gt _ _); reflexivity. Qed.

(** **** Killing the held transition *)

(** once the held tween is killed no transition is left, and the
    fallback moves are all still there *)
Lemma tidy_cleared (s : Sys) :
  tidy s ->
  wf (cleared s) /\
  NoDup (map fst (live (cleared s))) /\
  Forall (fun p => well_shaped (snd p) || fallback_move (snd p) = true)
    (live (cleared s)) /\
  transitions (cleared s) = [] /\
  fallback_moves (cleared s) = fallback_moves (gsap s) /\
  next (cleared s) = next (gsap s).
Proof.
  intros (Hwf & Hd & Hsh & Hheld).
  pose proof (wf_cleared s Hwf) as Hwc.
  pose proof (next_cleared s) as Hn.
  unfold cleared in *. destruct (currentTween (this s)) as [tl|].
  - destruct Hheld as (sts & Ht).
    split; [exact Hwc|]. split; [apply NoDup_names_filter; exact Hd|].
    split.
    { apply Forall_forall. intros p Hp. apply filter_In in Hp.
      rewrite Forall_forall in Hsh. apply Hsh, Hp. }
    assert (Hin : In (tl, sts) (live (gsap s)) /\ well_shaped sts = true).
    { assert (I : In (tl, sts) (transitions (gsap s)))
        by (rewrite Ht; left; reflexivity).
      apply filter_In in I. exact I. }
    destruct Hin as [Hin Hws].
    split; [|split; [|exact Hn]].
    + unfold transitions, kill. cbn [live]. rewrite filter_swap.
      fold (transitions (gsap s)). rewrite Ht. cbn.
      rewrite Nat.eqb_refl. reflexivity.
    + unfold fallback_moves, kill. cbn [live]. rewrite filter_swap.
      apply filter_all. intros [n x] Hp. apply filter_In in Hp.
      destruct Hp as [Hp Hf]. cbn [fst snd] in *.
      destruct (Nat.eqb n tl) eqn:E; [|reflexivity].
      apply Nat.eqb_eq in E. subst n.
      rewrite (@one_name_one_animation _ _ _ _ _ Hd Hp Hin) in Hf.
      rewrite (@shapes_apart _ Hws) in Hf. discriminate.
  - destruct Hheld as (Ht & _). auto 10.
Qed.

(** a state left with the held tween killed and forgotten *)
Lemma tidy_halted (s s' : Sys) :
  tidy s ->
  gsap s' = cleared s ->
  currentTween (this s') = None ->
  isMoving (this s') = false ->
  tidy s' /\ fallback_moves (gsap s') = fallback_moves (gsap s).
Proof.
  intros H G T Mv.
  destruct (@tidy_cleared s H) as (A & B & C & D & E & _).
  unfold tidy. rewrite G, T, Mv. auto 10.
Qed.

Lemma Tidy_stopTramMovement : Tidy stopTramMovement.
Proof.
  intros s H. rewrite stopTramMovement_run. cbn [fst].
  apply (@tidy_halted s _ H); unfold stopped, cleared;
    destruct s as [e g st]; destruct st as [? ? ? tw ? ? ? ? ? ? ? ? ? ? ? ?];
    destruct tw; reflexivity.
Qed.

Lemma Tidy_stop : Tidy stop.
Proof.
  intros s H.
  apply (@tidy_halted s _ H); unfold stop, cleared;
    destruct s as [e g st]; destruct st as [? ? ? tw ? ? ? ? ? ? ? ? ? ? ? ?];
    destruct tw; reflexivity.
Qed.

Lemma tidy_wf (s : Sys) : tidy s -> wf (gsap s).
Proof. intros (H & _). exact H. Qed.

Lemma updateTramPosition_idle (s : Sys) :
  tram (this s) = None \/ currentGPS (this s) = None
  \/ previousGPS (this s) = None ->
  updateTramPosition s = (s, Ok tt).
Proof.
  intros H. unfold updateTramPosition. rewrite run_read.
  destruct (tram (this s)), (currentGPS (this s)), (previousGPS (this s));
    try reflexivity.
  destruct H as [H | [H | H]]; discriminate.
Qed.

Lemma Tidy_updateTramPosition : Tidy updateTramPosition.
Proof.
  intros s H.
  destruct (tram (this s)) as [t|] eqn:Et;
    [|rewrite updateTramPosition_idle; auto].
  destruct (currentGPS (this s)) as [cur|] eqn:Ec;
    [|rewrite updateTramPosition_idle; auto].
  destruct (previousGPS (this s)) as [prev|] eqn:Ep;
    [|rewrite updateTramPosition_idle; auto].
  rewrite (@updateTramPosition_run s t cur prev Et Ec Ep (@tidy_wf s H)).
  cbv zeta. cbn [fst].
  destruct (lt _ _).
  - unfold tidy in *. cbn [this gsap].
    replace (currentTween (set_lastKnownPosition _ (this s)))
      with (currentTween (this s)) by (destruct (this s); reflexivity).
    replace (isMoving (set_lastKnownPosition _ (this s)))
      with (isMoving (this s)) by (destruct (this s); reflexivity).
    auto.
  - destruct (@tidy_cleared s H) as (A & B & C & D & E & F).
    pose proof (transition_well_shaped (host (env s)) (this s) t cur prev)
      as Hws.
    unfold tidy. cbn [this gsap].
    replace (currentTween (set_isMoving true _)) with (Some (next (gsap s)))
      by (destruct (this s); reflexivity).
    unfold transitions, fallback_moves. cbn [next live].
    rewrite !filter_app. cbn [filter snd]. rewrite Hws.
    rewrite (@shapes_apart _ Hws).
    fold (transitions (cleared s)). fold (fallback_moves (cleared s)).
    rewrite D, E, app_nil_r. cbn [app].
    split; [|reflexivity].
    split.
    { unfold wf in *. cbn [next live]. apply Forall_app. split.
      - eapply Forall_impl; [|exact A]. cbn. intros p Hp. rewrite F in Hp. lia.
      - constructor; [cbn; lia | constructor]. }
    split.
    { apply NoDup_names_snoc; [|exact B].
      unfold wf in A. rewrite F in A. exact A. }
    split.
    { apply Forall_app. split; [exact C|].
      constructor; [cbn [snd]; rewrite Hws; reflexivity | constructor]. }
    eexists. reflexivity.
Qed.

Ltac tidy_step :=
  first
    [ apply Tidy_ret
    | apply Tidy_read
    | apply Tidy_the_host
    | apply Tidy_liftE
    | apply Tidy_stopTramMovement
    | apply Tidy_updateTramPosition
    | apply Tidy_stop
    | apply Tidy_console_log
    | apply Tidy_console_warn
    | apply Tidy_console_error
    | apply Tidy_update; intros []; split; reflexivity
    | apply Tidy_when
    | apply Tidy_try_catch; [|intros ?]
    | apply Tidy_bind; [|intros ?]
    | match goal with
      | |- Tidy (match ?x with _ => _ end) => destruct x
      end ].

Lemma Tidy_positionTramImmediately (la lo : number) :
  Tidy (positionTramImmediately la lo).
Proof. unfold positionTramImmediately. repeat tidy_step. Qed.

Lemma Tidy_processGPSData (u : Wire.LocationUpdate) : Tidy (processGPSData u).
Proof.
  unfold processGPSData.
  repeat first [apply Tidy_positionTramImmediately | tidy_step].
Qed.

Lemma Tidy_onComplete : Tidy onComplete.
Proof.
  intros s (Hwf & Hd & Hsh & Hheld). unfold onComplete, tidy.
  cbn [update modify fst gsap this].
  replace (currentTween (set_isMoving false (this s)))
    with (currentTween (this s)) by (destruct (this s); reflexivity).
  replace (isMoving (set_isMoving false (this s))) with false
    by (destruct (this s); reflexivity).
  split; [|reflexivity]. split; [exact Hwf|]. split; [exact Hd|].
  split; [exact Hsh|].
  destruct (currentTween (this s)); [exact Hheld|].
  destruct Hheld as [H _]. auto.
Qed.

(** what [switchToFallbackMode] leaves *)
Lemma switchToFallbackMode_run (pts : option (list GPS)) (s : Sys) :
  switchToFallbackMode pts s
  = (mkSys (env s)
       {| next := next (gsap s)
                  + List.length (launched pts SwitchToFallbackMode s);
          live := live (gsap s) ++ launched pts SwitchToFallbackMode s |}
       (set_isRealTimeMode false (this s)), Ok tt).
Proof.
  destruct s as [e g st]. unfold switchToFallbackMode, launched.
  rewrite run_update. cbn [env gsap this].
  assert (Et : tram (set_isRealTimeMode false st) = tram st)
    by (destruct st; reflexivity).
  assert (Ep : forall la lo,
             calculatePosition (set_isRealTimeMode false st) la lo
             = calculatePosition st la lo)
    by (intros; destruct st; reflexivity).
  destruct pts as [[|firstPoint rest]|];
    try (rewrite Nat.add_0_r, app_nil_r; destruct g; reflexivity).
  rewrite run_read. cbn [this]. rewrite Et, Ep.
  destruct (tram st);
    [|rewrite Nat.add_0_r, app_nil_r; destruct g; reflexivity].
  cbn [List.length]. rewrite Nat.add_1_r. reflexivity.
Qed.

Lemma switchToFallbackMode_tidy (pts : option (list GPS)) (s : Sys) :
  tidy s ->
  tidy (exec (switchToFallbackMode pts) s) /\
  fallback_moves (gsap (exec (switchToFallbackMode pts) s))
  = fallback_moves (gsap s) ++ launched pts SwitchToFallbackMode s.
Proof.
  intros (Hwf & Hd & Hsh & Hheld). unfold exec.
  rewrite switchToFallbackMode_run. cbn [fst gsap this].
  assert (Et : currentTween (set_isRealTimeMode false (this s))
               = currentTween (this s)) by (destruct (this s); reflexivity).
  assert (Em : isMoving (set_isRealTimeMode false (this s))
               = isMoving (this s)) by (destruct (this s); reflexivity).
  unfold tidy. cbn [gsap this]. rewrite Et, Em.
  unfold transitions, fallback_moves, wf in *. cbn [next live].
  rewrite !filter_app.
  unfold launched.
  destruct pts as [[|firstPoint rest]|]; cbn [filter List.length];
    rewrite ?Nat.add_0_r, ?app_nil_r; auto.
  destruct (tram (this s)); cbn [filter List.length snd well_shaped
                                  fallback_move];
    rewrite ?Nat.add_0_r, ?app_nil_r; auto.
  split; [|reflexivity].
  split.
  { apply Forall_app. split.
    - eapply Forall_impl; [|exact Hwf]. cbn. intros; lia.
    - constructor; [cbn; lia | constructor]. }
  split; [apply NoDup_names_snoc; assumption|].
  split; [|exact Hheld].
  apply Forall_app. split; [exact Hsh|].
  constructor; [reflexivity | constructor].
Qed.

Lemma Tidy_run_op (pts : option (list GPS)) (o : op) :
  o <> SwitchToFallbackMode -> Tidy (run_op pts o).
Proof.
  intros Ho. destruct o; cbn [run_op]; try contradiction.
  - unfold handleGPSUpdate.
    repeat first [apply Tidy_processGPSData | tidy_step].
  - apply Tidy_processGPSData.
  - unfold updateFromWebSocket.
    repeat first [apply Tidy_processGPSData | tidy_step].
  - unfold configureWebSocket. repeat tidy_step.
  - apply Tidy_onComplete.
  - unfold handleConnectionLoss. repeat tidy_step.
  - unfold handleConnectionRestored. repeat tidy_step.
  - unfold handleConnectionError. repeat tidy_step.
  - unfold start. repeat tidy_step.
  - apply Tidy_stop.
  - unfold dispose. repeat tidy_step.
  - unfold updateFromLiveGPS. repeat tidy_step.
  - unfold setSpeed. repeat tidy_step.
  - apply Tidy_updateTramPosition.
Qed.

(** one call: the engine stays tidy, and the fallback moves are those
    there were and the one the call started *)
Lemma run_op_tidy (pts : option (list GPS)) (o : op) (s : Sys) :
  tidy s ->
  tidy (exec (run_op pts o) s) /\
  fallback_moves (gsap (exec (run_op pts o) s))
  = fallback_moves (gsap s) ++ launched pts o s.
Proof.
  intros H.
  assert (D : o = SwitchToFallbackMode \/ o <> SwitchToFallbackMode)
    by (destruct o; auto; right; discriminate).
  destruct D as [->|Ho].
  - apply switchToFallbackMode_tidy. exact H.
  - destruct (@Tidy_run_op pts o Ho s H) as [A B]. split; [exact A|].
    unfold exec. rewrite B.
    unfold launched. destruct o; try contradiction; rewrite app_nil_r;
      reflexivity.
Qed.

Lemma tidy_run_ops (pts : option (list GPS)) (os : list op) (s : Sys) :
  tidy s -> tidy (run_ops pts os s).
Proof.
  revert s. induction os as [|o os IH]; intros s H; cbn [run_ops].
  - exact H.
  - apply IH. apply run_op_tidy. exact H.
Qed.

(** The reconciler never has two transitions going, but nothing stops
    its fallback moves.  From construction on, whatever methods are
    called in whatever order (updates, connection losses and errors, the
    switch to fallback mode, start, stop, dispose, legacy position calls,
    speed changes) and whenever a translation runs to its end, the engine
    holds at most one live transition (a timeline of
    [updateTramPosition]: at most one rotation followed by one
    translation); a transition is live exactly when it is the held tween;
    and the tram is marked moving only while a tween is held.  Live means
    created and not killed: time does not pass here, and a transition
    that has run to its end is still counted.
    Every other live animation is a move started by
    [switchToFallbackMode] with [gsap.to]: the reconciler keeps no handle
    on it, so no later call kills it, and each call of
    [switchToFallbackMode] on a reconciler with a tram and a fallback
    route adds one more alongside whatever transition is running. *)
Theorem one_transition_at_a_time (os : list op) (e : Env)
  (tr : option Tram) (gpsPoints : option (list GPS)) :
  let s := run_ops gpsPoints os (mkSys e Gsap.empty (init tr gpsPoints)) in
  (List.length (transitions (gsap s)) <= 1)%nat /\
  (forall tl, in_transition tl (gsap s) = true
              <-> currentTween (this s) = Some tl) /\
  (forall tl sts, steps tl (gsap s) = Some sts ->
                  well_shaped sts = true \/ fallback_move sts = true) /\
  (isMoving (this s) = true -> exists tl, currentTween (this s) = Some tl) /\
  (forall o,
     fallback_moves (gsap (exec (run_op gpsPoints o) s))
     = fallback_moves (gsap s) ++ launched gpsPoints o s).
Proof.
  intros s.
  assert (H0 : tidy (mkSys e Gsap.empty (init tr gpsPoints))).
  { unfold tidy, init, transitions, wf. cbn [this gsap].
    destruct gpsPoints as [[|p ps]|]; cbn; auto using NoDup_nil. }
  pose proof (@tidy_run_ops gpsPoints os _ H0) as H. fold s in H. clearbody s.
  split; [|split; [|split; [|split]]].
  - destruct H as (_ & _ & _ & Hheld).
    destruct (currentTween (this s)).
    + destruct Hheld as (sts & ->). cbn. lia.
    + destruct Hheld as (-> & _). cbn. lia.
  - intros tl. destruct H as (_ & _ & _ & Hheld). unfold in_transition.
    destruct (currentTween (this s)) as [held|].
    + destruct Hheld as (sts & ->). cbn.
      rewrite orb_false_r, Nat.eqb_eq. split; congruence.
    + destruct Hheld as (-> & _). cbn. split; discriminate.
  - intros tl sts Hst. destruct H as (_ & _ & Hsh & _).
    unfold steps in Hst.
    destruct (find (fun p => Nat.eqb (fst p) tl) (live (gsap s)))
      as [p|] eqn:Ef; [|discriminate].
    cbn in Hst. injection Hst as <-.
    apply find_some in Ef. destruct Ef as [Hin _].
    rewrite Forall_forall in Hsh. specialize (Hsh p Hin).
    apply orb_true_iff in Hsh. exact Hsh.
  - destruct H as (_ & _ & _ & Hheld).
    destruct (currentTween (this s)) as [held|]; [eauto|].
    destruct Hheld as (_ & ->). discriminate.
  - intros o. apply run_op_tidy. exact H.
Qed.

(** on a reconciler in mid-transition, switching to fallback mode leaves
    two animations of the tram's position going *)
Lemma fallback_move_runs_alongside :
  let route := Some [Demo.campus; Demo.campus_far] in
  let s := Demo.moving_sys in
  let s' := exec (switchToFallbackMode route) s in
  currentTween (this s) = Some 0%nat /\
  List.length (live (gsap s)) = 1%nat /\
  currentTween (this s') = Some 0%nat /\
  running 0 (gsap s') = true /\
  List.length (live (gsap s')) = 2%nat /\
  List.length (fallback_moves (gsap s')) = 1%nat.
Proof. vm_compute. repeat split; reflexivity. Qed.

(** *** The first legacy position *)

(** the step from a point to itself, when its projected position is
    finite, has squared length zero *)
Lemma self_displacement (h : Host) (st : State) (g : GPS) (px pz : Q) :
  x (calculatePosition st (lat g) (lon g)) = Fin px ->
  z (calculatePosition st (lat g) (lon g)) = Fin pz ->
  displacement h st g g = Math_sqrt h (num 0).
Proof.
  intros Hx Hz. unfold displacement. cbv zeta.
  rewrite Hx, Hz, !sub_fin_diag. reflexivity.
Qed.

Lemma updateTramPosition_near (s : Sys) (t : Tram) (cur prev : GPS) :
  tram (this s) = Some t ->
  currentGPS (this s) = Some cur ->
  previousGPS (this s) = Some prev ->
  lt (displacement (host (env s)) (this s) cur prev) (num (1 # 2)) = true ->
  updateTramPosition s
  = (mkSys (env s) (gsap s)
       (set_lastKnownPosition
          (Some (calculatePosition (this s) (lat cur) (lon cur))) (this s)),
     Ok tt).
Proof.
  intros Ht Hc Hp Hd. unfold updateTramPosition.
  rewrite run_read, Ht, Hc, Hp. rewrite run_host, run_update.
  fold (displacement (host (env s)) (this s) cur prev). rewrite Hd.
  reflexivity.
Qed.

Lemma updateFromLiveGPS_first (la lo : number) (s : Sys) (t : Tram)
  (px pz : Q) :
  tram (this s) = Some t ->
  currentGPS (this s) = None ->
  x (calculatePosition (this s) la lo) = Fin px ->
  z (calculatePosition (this s) la lo) = Fin pz ->
  lt (Math_sqrt (host (env s)) (num 0)) (num (1 # 2)) = true ->
  let p := mkGPS la lo (TsISO (clock (host (env s)) (ticks (env s)))) in
  exists e',
    exec (updateFromLiveGPS la lo) s
    = mkSys e' (gsap s)
        (set_lastKnownPosition (Some (calculatePosition (this s) la lo))
           (set_currentGPS (Some p) (set_previousGPS (Some p) (this s)))).
Proof.
  intros Ht Hc Hx Hz Hq p.
  unfold exec, updateFromLiveGPS.
  rewrite run_read, Ht. rewrite run_liftE. cbn [Date_now fst snd].
  fold p. rewrite run_read. cbn [this]. rewrite Hc.
  rewrite 2 run_update. cbn [env gsap this].
  set (s2 := mkSys _ _ _).
  assert (Ep : calculatePosition (this s2) (lat p) (lon p)
               = calculatePosition (this s) la lo)
    by (subst s2; destruct (this s); reflexivity).
  assert (Hd : lt (displacement (host (env s2)) (this s2) p p) (num (1 # 2))
               = true).
  { rewrite (@self_displacement _ (this s2) p px pz);
      [exact Hq | rewrite Ep; exact Hx | rewrite Ep; exact Hz]. }
  assert (R : updateTramPosition s2
              = (mkSys (env s2) (gsap s2)
                   (set_lastKnownPosition
                      (Some (calculatePosition (this s2) (lat p) (lon p)))
                      (this s2)), Ok tt)).
  { apply (@updateTramPosition_near s2 t p p); try exact Hd;
      subst s2; cbn [this]; destruct (this s); cbn in *; congruence. }
  unfold bind at 1. rewrite R. rewrite run_host. rewrite Ep.
  subst s2. cbn [env gsap this host].
  destruct (on_localhost (host (env s))); eexists; reflexivity.
Qed.

(** The legacy entry point does not place the tram on its first call.
    [updateFromLiveGPS] on a reconciler that holds no point yet, called
    with coordinates whose projected position is finite (neither
    coordinate is NaN or infinite and the projection does not overflow),
    stores the new point as both the current and the previous one, so the
    step it computes has length [Math.sqrt(0)]; that is below 0.5, the
    step is skipped, and the tram stays where it was: its position is not
    set (the first update through [processGPSData] sets it), no timeline
    is created and the moving flag is untouched.  Only
    [lastKnownPosition] records the new position. *)
Theorem legacy_first_update_places_nothing (la lo : number) (s : Sys)
  (t : Tram) (px pz : Q) :
  tram (this s) = Some t ->
  currentGPS (this s) = None ->
  x (calculatePosition (this s) la lo) = Fin px ->
  z (calculatePosition (this s) la lo) = Fin pz ->
  lt (Math_sqrt (host (env s)) (num 0)) (num (1 # 2)) = true ->
  let s' := exec (updateFromLiveGPS la lo) s in
  let p := mkGPS la lo (TsISO (clock (host (env s)) (ticks (env s)))) in
  currentGPS (this s') = Some p /\
  previousGPS (this s') = Some p /\
  tram (this s') = Some t /\
  gsap s' = gsap s /\
  currentTween (this s') = currentTween (this s) /\
  isMoving (this s') = isMoving (this s) /\
  lastKnownPosition (this s') = Some (calculatePosition (this s) la lo).
Proof.
  intros Ht Hc Hx Hz Hq s' p. subst s'.
  destruct (@updateFromLiveGPS_first la lo s t px pz Ht Hc Hx Hz Hq)
    as (e' & E).
  cbv zeta in E. fold p in E. rewrite E. clear E.
  cbn [this gsap]. clearbody p. clear Hx Hz.
  destruct (this s); cbn in *. subst. repeat split; reflexivity.
Qed.

Lemma legacy_first_update_places_nothing_witness :
  let s' := exec (updateFromLiveGPS (lat Demo.campus) (lon Demo.campus))
              Demo.fresh_sys in
  tram (this s') = Some Demo.tram0 /\
  gsap s' = gsap Demo.fresh_sys /\
  isMoving (this s') = isMoving (this Demo.fresh_sys).
Proof.
  intros s'.
  assert (Ht : tram (this Demo.fresh_sys) = Some Demo.tram0) by reflexivity.
  assert (Hc : currentGPS (this Demo.fresh_sys) = None) by reflexivity.
  assert (Hq : lt (Math_sqrt (host (env Demo.fresh_sys)) (num 0))
                 (num (1 # 2)) = true) by (vm_compute; reflexivity).
  assert (Hx : x (calculatePosition (this Demo.fresh_sys)
                    (lat Demo.campus) (lon Demo.campus))
               = Fin (-13633944184375 # 1099511627776))
    by (vm_compute; reflexivity).
  assert (Hz : z (calculatePosition (this Demo.fresh_sys)
                    (lat Demo.campus) (lon Demo.campus))
               = Fin (-8356288371875 # 2199023255552))
    by (vm_compute; reflexivity).
  pose proof (@legacy_first_update_places_nothing
                (lat Demo.campus) (lon Demo.campus)
                Demo.fresh_sys Demo.tram0 _ _ Ht Hc Hx Hz Hq) as H.
  cbv zeta in H. destruct H as (_ & _ & A & B & _ & C & _).
  exact (conj A (conj B C)).
Defined.

End MovementMore.

(** ** The GPS service: what the cache can hold *)

Module ServiceRange.
Import JS Eff Validator Service NumberFacts ServiceFacts MessageFacts
  ServiceMore.
Local Open Scope js_scope.

(** a point on the globe: the range test of [isValidGPSData] on stored
    coordinates *)
Definition in_range (g : GPS) : bool :=
  ge (lat g) (num (-90)) && le (lat g) (num 90) &&
  ge (lon g) (num (-180)) && le (lon g) (num 180).

Definition ranged (o : option GPS) : Prop :=
  match o with
  | Some g => in_range g = true
  | None => True
  end.

(** the number validated is the number stored *)
Lemma coordinate_parseFloat (v : value) : coordinate v = parseFloat v.
Proof. destruct v; reflexivity. Qed.

Lemma valid_in_range (v : value) (t : Timestamp) :
  isValidGPSData v = true ->
  in_range (mkGPS (parseFloat (field v "lat")) (parseFloat (field v "lon")) t)
  = true.
Proof.
  unfold isValidGPSData, in_range. cbn [lat lon].
  rewrite !coordinate_parseFloat.
  destruct (negb (truthy v)); [discriminate|].
  intros H. repeat (apply andb_true_iff in H; destruct H as [H ?]).
  repeat (apply andb_true_iff; split); assumption.
Qed.

Lemma in_range_bounds (g : GPS) :
  in_range g = true <->
  exists a b, lat g = Fin a /\ lon g = Fin b /\
              -90 <= a /\ a <= 90 /\ -180 <= b /\ b <= 180.
Proof.
  unfold in_range, ge. split.
  - intros H. repeat (apply andb_true_iff in H; destruct H as [H ?]).
    destruct (lat g) as [| | |a]; try discriminate.
    destruct (lon g) as [| | |b]; try discriminate.
    exists a, b. split; [reflexivity|]. split; [reflexivity|].
    change (Fin a) with (Fin a) in *.
    cbn [le num] in *.
    repeat match goal with
           | H : Qle_bool _ _ = true |- _ =>
               apply Qle_bool_iff in H; rewrite ?Qred_correct in H
           end.
    auto.
  - intros (a & b & -> & -> & A1 & A2 & B1 & B2).
    cbn [le num].
    repeat (apply andb_true_iff; split);
      apply Qle_bool_iff; rewrite ?Qred_correct; assumption.
Qed.

Section WithSubscribers.
Variable W : Type.

(** both cached points, where present, are on the globe *)
Definition sound (st : State W) : Prop :=
  ranged (currentGPS st) /\ ranged (previousGPS st).

Definition Sound {A} (c : M (Sys W) A) : Prop :=
  forall s, sound (this s) -> sound (this (fst (c s))).

Lemma Sound_ret {A} (a : A) : Sound (ret (S := Sys W) a).
Proof. intros s H. exact H. Qed.

Lemma Sound_throw {A} (x : exn) : Sound (throw (S := Sys W) (A := A) x).
Proof. intros s H. exact H. Qed.

Lemma Sound_bind {A B} (c : M (Sys W) A) (k : A -> M (Sys W) B) :
  Sound c -> (forall a, Sound (k a)) -> Sound (x <- c ;; k x).
Proof.
  intros Hc Hk s H. unfold bind. specialize (Hc s H).
  destruct (c s) as [s1 [a|x]]; cbn [fst] in *; [apply Hk; exact Hc | exact Hc].
Qed.

Lemma Sound_frame {A} (c : M (Sys W) A) :
  (forall s, this (fst (c s)) = this s) -> Sound c.
Proof. intros H s A1. rewrite H. exact A1. Qed.

Lemma Sound_update (f : State W -> State W) :
  (forall st, sound st -> sound (f st)) -> Sound (update f).
Proof. intros H s A1. cbn. apply H. exact A1. Qed.

Lemma Sound_when (b : bool) (c : M (Sys W) unit) : Sound c -> Sound (when b c).
Proof. intros H. destruct b; [exact H | apply Sound_ret]. Qed.

Lemma Sound_liftE {A} (f : Env -> Env * A) : Sound (liftE (W := W) f).
Proof.
  apply Sound_frame. intros s. unfold liftE. destruct (f (env s)); reflexivity.
Qed.

Lemma Sound_prop (v : value) (k : string) : Sound (prop (W := W) v k).
Proof. destruct v; first [apply Sound_throw | apply Sound_ret]. Qed.

Lemma Sound_notifyGPSUpdate (d : Wire.LocationUpdate) :
  Sound (notifyGPSUpdate (W := W) d).
Proof. apply Sound_frame. intros s. rewrite notifyGPSUpdate_run. reflexivity. Qed.

Lemma Sound_notifyConnectionChange (b : bool) :
  Sound (notifyConnectionChange (W := W) b).
Proof.
  apply Sound_frame. intros s. rewrite notifyConnectionChange_run. reflexivity.
Qed.

Lemma Sound_notifyError (v : value) : Sound (notifyError (W := W) v).
Proof. apply Sound_frame. intros s. rewrite notifyError_run. reflexivity. Qed.

Lemma Sound_socket_disconnect (sock : nat) :
  Sound (socket_disconnect (W := W) sock).
Proof.
  intros s H. rewrite socket_disconnect_run. cbn [fst].
  rewrite severed_this. unfold sound in *.
  destruct (_ && _); destruct (this s); cbn in *; exact H.
Qed.

Lemma Sound_connect : Sound (connect (W := W)).
Proof.
  intros s H. rewrite connect_run. cbv zeta. cbn [fst this].
  unfold sound in *.
  destruct (released_this s) as [E|E]; rewrite E; destruct (this s);
    cbn in *; exact H.
Qed.

(** the check handed on is the validity of the point *)
Lemma Sound_validate {B} (d : value) (k : bool -> M (Sys W) B) :
  Sound (k (isValidGPSData d)) -> Sound (ok <- validate d ;; k ok).
Proof.
  intros H s Hs. unfold validate, bind.
  destruct (_ && _); cbn [fst snd throw ret]; [exact Hs | apply H; exact Hs].
Qed.

Lemma Sound_requestGPSData : Sound (requestGPSData (W := W)).
Proof.
  apply Sound_frame. intros [e n w st]. unfold requestGPSData.
  cbv beta iota zeta delta [bind read gets this fst].
  destruct (isConnected st), (socket st); reflexivity.
Qed.

Lemma Sound_console (l : level) (msg : string) :
  Sound (modify (fun s : Sys W =>
           mkSys (console_write l msg (env s)) (net s) (subs s) (this s))).
Proof. apply Sound_frame. reflexivity. Qed.

Lemma Sound_transport (f : Net -> Net) : Sound (transport (W := W) f).
Proof. apply Sound_frame. reflexivity. Qed.

Lemma Sound_read {A} (f : State W -> A) : Sound (read f).
Proof. apply Sound_frame. reflexivity. Qed.

Lemma Sound_stamp (v : value) (d : Z) (k : Timestamp -> M (Sys W) unit) :
  (forall t, Sound (k t)) ->
  Sound (t <- (if truthy v then ret (TsValue v)
               else now <- liftE Date_now ;; ret (TsISO (now - d)%Z)) ;;
         k t).
Proof.
  intros H. apply Sound_bind; [|exact H].
  destruct (truthy v); [apply Sound_ret|].
  apply Sound_bind; [apply Sound_liftE | intros; apply Sound_ret].
Qed.

Lemma Sound_processGPSData (gpsData : value) (source : string) :
  Sound (processGPSData (W := W) gpsData source).
Proof.
  unfold processGPSData.
  apply Sound_bind; [apply Sound_prop | intros c].
  apply Sound_validate.
  destruct (isValidGPSData c) eqn:Vc;
    [|apply Sound_bind; [apply Sound_ret | intros ?; apply Sound_console]].
  apply Sound_validate. cbn [negb orb].
  destruct (isValidGPSData (field gpsData "p")) eqn:Vp; cbn [negb];
    [|apply Sound_console].
  apply Sound_bind; [|intros _].
  { apply Sound_update. intros [] [A1 A2]; split; exact A1. }
  apply Sound_bind; [|intros t].
  { destruct (truthy _); [apply Sound_ret|].
    apply Sound_bind; [apply Sound_liftE | intros; apply Sound_ret]. }
  apply Sound_bind; [|intros _].
  { apply Sound_update. intros [] [A1 A2]; split; [|exact A2].
    exact (@valid_in_range _ t Vc). }
  apply Sound_bind; [|intros _].
  { apply Sound_when.
    apply Sound_bind; [|intros tp].
    { destruct (truthy _); [apply Sound_ret|].
      apply Sound_bind; [apply Sound_liftE | intros; apply Sound_ret]. }
    apply Sound_update. intros [] [A1 A2]; split; [exact A1|].
    exact (@valid_in_range _ tp Vp). }
  apply Sound_bind; [apply Sound_read | intros s1].
  apply Sound_bind; [apply Sound_liftE | intros now].
  apply Sound_notifyGPSUpdate.
Qed.

Ltac sound :=
  repeat first
    [ apply Sound_ret
    | apply Sound_throw
    | apply Sound_read
    | apply Sound_liftE
    | apply Sound_prop
    | apply Sound_transport
    | apply Sound_console
    | apply Sound_notifyGPSUpdate
    | apply Sound_notifyConnectionChange
    | apply Sound_notifyError
    | apply Sound_requestGPSData
    | apply Sound_processGPSData
    | apply Sound_connect
    | apply Sound_socket_disconnect
    | apply Sound_update; intros [] H; exact H
    | apply Sound_when
    | apply Sound_bind; [|intros ?]
    | match goal with
      | |- Sound (match ?x with _ => _ end) => destruct x
      end ].

Lemma Sound_handle (ev : event) : Sound (handle (W := W) ev).
Proof.
  destruct ev;
    unfold handle, on_disconnect, console_log, console_warn, console_error;
    sound.
Qed.

Lemma Sound_deliver (ev : event) : Sound (deliver (W := W) ev).
Proof.
  unfold deliver. apply Sound_bind; [apply Sound_read | intros held].
  apply Sound_bind; [|intros _; apply Sound_handle].
  destruct held, ev; sound.
Qed.

Lemma Sound_run_op (o : op W) : Sound (run_op o).
Proof.
  destruct o; cbn [run_op].
  - apply Sound_deliver.
  - apply Sound_connect.
  - unfold disconnect; sound.
  - unfold forceReconnect, console_log; sound.
  - apply Sound_requestGPSData.
  - unfold ping; sound.
  - unfold onGPSUpdate; sound.
  - unfold onConnectionChange; sound.
  - unfold onError; sound.
  - destruct t. apply Sound_connect.
Qed.

Lemma sound_construct (e : Env) (n : Net) (w : W) (cfg : Config) :
  sound (this (exec (construct (W := W)) (mkSys e n w (blank W cfg)))).
Proof.
  unfold exec, construct.
  cbv beta iota zeta delta
    [initializeSimulationData update modify read gets liftE bind ret
     console_log Date_now fst snd env net subs this].
  rewrite connect_run. unfold sound; cbn. split; reflexivity.
Qed.

Lemma sound_run_ops (os : list (op W)) :
  forall s, sound (this s) -> sound (this (run_ops os s)).
Proof.
  induction os as [|o os IH]; intros s H; [exact H|].
  cbn [run_ops]. apply IH. apply Sound_run_op. exact H.
Qed.

(** The cache only ever holds points on the globe.  Once constructed, and
    whatever methods are called, events arrive or timeouts fire, every
    point in the cache has a finite latitude in [-90, 90] and a finite
    longitude in [-180, 180] (never NaN): the simulation points are such,
    a message replaces them only after both of its points passed
    [isValidGPSData], and the number stored ([parseFloat] of the field)
    is the number that was validated. *)
Theorem cached_points_are_on_the_globe (os : list (op W)) (e : Env)
  (n : Net) (w : W) (cfg : Config) (g : GPS) :
  let s := run_ops os (exec (construct (W := W)) (mkSys e n w (blank W cfg))) in
  currentGPS (this s) = Some g \/ previousGPS (this s) = Some g ->
  exists a b, lat g = Fin a /\ lon g = Fin b /\
              -90 <= a /\ a <= 90 /\ -180 <= b /\ b <= 180.
Proof.
  intros s H. apply in_range_bounds.
  destruct (@sound_run_ops os _ (sound_construct e n w cfg)) as [A B].
  fold s in A, B. destruct H as [H|H].
  - rewrite H in A. exact A.
  - rewrite H in B. exact B.
Qed.

End WithSubscribers.

(** the point a full message leaves as current *)
Definition received : GPS :=
  Eval vm_compute in
  mkGPS (dec (136 # 10)) (dec (1008 # 10))
    (TsValue (Number (num (inject_Z Demo.t0)))).

Lemma cached_points_are_on_the_globe_witness :
  exists a b,
    lat received = Fin a /\ lon received = Fin b /\
    -90 <= a /\ a <= 90 /\ -180 <= b /\ b <= 180.
Proof.
  apply (@cached_points_are_on_the_globe unit
           [Handle unit (GpsDataUpdate msg_full)] Demo.env0 net0 tt
           demo_config received).
  left. vm_compute. reflexivity.
Defined.

End ServiceRange.

(** ** The GPS service: when a handler throws *)

Module HandlerFacts.
Import JS Eff Validator Service ServiceFacts MessageFacts.
Local Open Scope js_scope.

Definition nullish (v : value) : bool :=
  match v with
  | Undefined | Null => true
  | _ => false
  end.

Section WithSubscribers.
Variable W : Type.

(** the events a handler cannot cope with: one that arrives without its
    argument; a position message with a point that cannot be checked
    ([garbled]); a pong whose time stamp cannot be turned into a number;
    and [connect] on a service that holds no socket *)
Definition fails (ev : event) (st : State W) : bool :=
  match ev with
  | Connect => match socket st with None => true | Some _ => false end
  | Disconnect _ => false
  | ConnectError v | Welcome v | GpsError v => nullish v
  | GpsData v | GpsDataUpdate v => nullish v || garbled v
  | Pong v => nullish v || unprintable (field v "timestamp")
  end.

Lemma not_nullish (v : value) :
  nullish v = false -> v <> Undefined /\ v <> Null.
Proof. destruct v; try discriminate; intros _; split; discriminate. Qed.

Definition Returns {A} (c : M (Sys W) A) : Prop :=
  forall s, exists a, snd (c s) = Ok a.

Lemma Returns_ret {A} (a : A) : Returns (ret (S := Sys W) a).
Proof. intros s. exists a. reflexivity. Qed.

Lemma Returns_bind {A B} (c : M (Sys W) A) (k : A -> M (Sys W) B) :
  Returns c -> (forall a, Returns (k a)) -> Returns (x <- c ;; k x).
Proof.
  intros Hc Hk s. unfold bind. destruct (Hc s) as [a Ha].
  destruct (c s) as [s1 r]. cbn [snd] in Ha. subst r. apply Hk.
Qed.

Lemma Returns_gets {A} (f : Sys W -> A) : Returns (gets f).
Proof. intros s. eexists. reflexivity. Qed.

Lemma Returns_modify (f : Sys W -> Sys W) : Returns (modify f).
Proof. intros s. eexists. reflexivity. Qed.

Lemma Returns_liftE {A} (f : Env -> Env * A) : Returns (liftE (W := W) f).
Proof. intros s. unfold liftE. destruct (f (env s)). eexists. reflexivity. Qed.

Lemma Returns_when (b : bool) (c : M (Sys W) unit) :
  Returns c -> Returns (when b c).
Proof. intros H. destruct b; [exact H | apply Returns_ret]. Qed.

Lemma Returns_prop (v : value) (k : string) :
  nullish v = false -> Returns (prop (W := W) v k).
Proof. destruct v; try discriminate; intros _; apply Returns_ret. Qed.

Lemma Returns_notifyGPSUpdate (d : Wire.LocationUpdate) :
  Returns (notifyGPSUpdate (W := W) d).
Proof. intros s. rewrite notifyGPSUpdate_run. eexists. reflexivity. Qed.

Lemma Returns_notifyConnectionChange (b : bool) :
  Returns (notifyConnectionChange (W := W) b).
Proof. intros s. rewrite notifyConnectionChange_run. eexists. reflexivity. Qed.

Lemma Returns_notifyError (v : value) : Returns (notifyError (W := W) v).
Proof. intros s. rewrite notifyError_run. eexists. reflexivity. Qed.

Ltac returns :=
  repeat first
    [ apply Returns_ret
    | apply Returns_gets
    | apply Returns_modify
    | apply Returns_liftE
    | apply Returns_notifyGPSUpdate
    | apply Returns_notifyConnectionChange
    | apply Returns_notifyError
    | apply Returns_prop; assumption
    | apply Returns_when
    | apply Returns_bind; [|intros ?]
    | match goal with
      | |- Returns (match ?x with _ => _ end) => destruct x
      end ].

Lemma Returns_requestGPSData : Returns (requestGPSData (W := W)).
Proof.
  unfold requestGPSData, read, transport, console_warn. returns.
Qed.

Lemma returns_unit (c : M (Sys W) unit) (s : Sys W) :
  Returns c -> snd (c s) = Ok tt.
Proof. intros H. destruct (H s) as [[] E]. exact E. Qed.

Lemma processGPSData_returns (gpsData : value) (source : string) (s : Sys W) :
  nullish gpsData || garbled gpsData = false ->
  snd (processGPSData gpsData source s) = Ok tt.
Proof.
  intros H. apply orb_false_iff in H. destruct H as [Hn Hg].
  destruct (not_nullish _ Hn) as [H1 H2].
  rewrite (@processGPSData_outcomes W gpsData source s H1 H2). rewrite Hg.
  destruct (_ && _); reflexivity.
Qed.

Lemma processGPSData_throws (gpsData : value) (source : string) (s : Sys W) :
  nullish gpsData || garbled gpsData = true ->
  exists m, processGPSData gpsData source s = (s, Throw (TypeError m)).
Proof.
  intros H. destruct (nullish gpsData) eqn:Hn.
  - destruct gpsData; try discriminate; eexists; reflexivity.
  - cbn [orb] in H. destruct (not_nullish _ Hn) as [H1 H2].
    eexists. apply processGPSData_garbled; assumption.
Qed.

Lemma handle_returns (ev : event) (s : Sys W) :
  fails ev (this s) = false -> snd (handle ev s) = Ok tt.
Proof.
  intros H. destruct ev; cbn [fails] in H.
  - destruct (socket (this s)) as [sock|] eqn:E; [|discriminate].
    rewrite (handle_Connect_run s E). reflexivity.
  - cbn [handle]. rewrite on_disconnect_run. reflexivity.
  - apply returns_unit. unfold handle, read, update, console_warn. returns.
  - apply returns_unit. unfold handle, console_log. returns.
  - apply (processGPSData_returns data "websocket-request" _ H).
  - apply (processGPSData_returns data "websocket-broadcast" _ H).
  - apply returns_unit. unfold handle, console_warn. returns.
  - apply orb_false_iff in H. destruct H as [Hn Hu].
    destruct data; try discriminate Hn; cbn [handle];
      unfold bind, liftE, prop, ret, Date_now; cbn [fst snd];
      cbn [field] in Hu |- *; rewrite ?Hu; reflexivity.
Qed.

Lemma handle_throws_run (ev : event) (s : Sys W) :
  fails ev (this s) = true ->
  exists e' m,
    handle ev s = (mkSys e' (net s) (subs s) (this s), Throw (TypeError m)).
Proof.
  intros H. destruct s as [e n w st]. cbn [this] in H.
  destruct ev; cbn [fails] in H; try discriminate.
  - destruct (socket st) eqn:E; [discriminate|].
    unfold handle. unfold bind at 1, read at 1, gets at 1. cbn [this].
    rewrite E. eexists. eexists. reflexivity.
  - destruct error; try discriminate; eexists; eexists; reflexivity.
  - destruct data; try discriminate; eexists; eexists; reflexivity.
  - destruct (processGPSData_throws data "websocket-request"
                (mkSys (console_write Log "GPS data received via request:" e)
                   n w st) H) as [m E].
    eexists. exists m. exact E.
  - destruct (processGPSData_throws data "websocket-broadcast"
                (mkSys (console_write Log "GPS data broadcast received:" e)
                   n w st) H) as [m E].
    eexists. exists m. exact E.
  - destruct error; try discriminate; eexists; eexists; reflexivity.
  - destruct data; try discriminate; try (eexists; eexists; reflexivity);
      cbn [nullish orb] in H; cbn [handle];
      unfold bind, liftE, prop, ret, Date_now; cbn [fst snd env net subs this];
      cbn [field] in H |- *; rewrite ?H; eexists; eexists; reflexivity.
Qed.

Lemma handle_throws (ev : event) (s : Sys W) :
  fails ev (this s) = true ->
  exists m, snd (handle ev s) = Throw (TypeError m) /\
            subs (fst (handle ev s)) = subs s /\
            this (fst (handle ev s)) = this s /\
            net (fst (handle ev s)) = net s.
Proof.
  intros H. destruct (handle_throws_run ev s H) as (e' & m & E).
  rewrite E. exists m. cbn. auto.
Qed.

(** A handler throws only on an argument it cannot read.  Each handler
    of the socket returns normally whatever its argument holds and
    whatever the subscribers do (what they throw is caught), with these
    exceptions: an event that arrives with [undefined] or [null] where the
    handler reads a property of its argument; a position message one of
    whose points, where it is checked, holds a coordinate that is an
    object with a member named toString (it cannot be printed for
    [parseFloat]); a pong whose time stamp is such an object; and
    [connect] on a service that has dropped its socket.  In those cases a
    TypeError leaves the handler before any subscriber is called, and the
    cache, the counters and the transport are as they were; so a
    [connect_error] without an error object is not counted. *)
Theorem handler_throws_only_on_unreadable_argument (ev : event) (s : Sys W) :
  (fails ev (this s) = false -> snd (handle ev s) = Ok tt) /\
  (fails ev (this s) = true ->
     exists m, snd (handle ev s) = Throw (TypeError m) /\
               subs (fst (handle ev s)) = subs s /\
               this (fst (handle ev s)) = this s /\
               net (fst (handle ev s)) = net s).
Proof. split; [apply handle_returns | apply handle_throws]. Qed.

End WithSubscribers.

(** a position whose latitude is an object with a member [toString], and a
    pong with such a time stamp *)
Definition msg_unprintable : value :=
  Object [("c", Object [("lat", Object [("toString", Number (num 1))]);
                        ("lon", Number (num 100))])]%string.

Definition pong_unprintable : value :=
  Object [("timestamp", Object [("toString", Null)])]%string.

Lemma unreadable_arguments_throw :
  fails (GpsData msg_unprintable) (this demo_service) = true /\
  fails (Pong pong_unprintable) (this demo_service) = true /\
  fails (Pong (Object [])) (this demo_service) = false /\
  snd (handle (GpsData msg_unprintable) demo_service)
  = Throw (TypeError "Cannot convert object to primitive value") /\
  snd (handle (Pong pong_unprintable) demo_service)
  = Throw (TypeError "Cannot convert object to primitive value") /\
  snd (handle (Pong (Object [])) demo_service) = Ok tt.
Proof. vm_compute. repeat split; reflexivity. Qed.

End HandlerFacts.
